(** * MERlin: pixel-based decoding and cleaning of cell boundaries

    A shallow embedding of [merlin/util/decoding.py] (the class
    [PixelBasedDecoder]) and of [merlin/analysis/segment.py] (the tasks
    [WatershedSegment], [CleanCellBoundaries] and [RefineCellDatabases]),
    with the properties of the decoder and of the cross-tile deduplication
    that the specification states, and further properties of the same
    functions, of their helpers and of the tasks around them.

    Numeric model.  A numpy float is a real number, [+inf], [-inf] or
    [nan] ([npfloat]): arithmetic on finite values is exact real
    arithmetic, and the special values follow IEEE 754 (division of a
    non-zero number by zero is an infinity, [0/0] and [inf - inf] are
    [nan], every comparison with [nan] is false).  Rounding, overflow and
    the sign of zero are outside the model.  Integer arrays hold [Z], with
    the wrap-around of a fixed-width dtype written out where the code
    casts. *)

From Stdlib Require Import String.
From Stdlib Require Import Reals Lra Lia ZArith List Bool Sorted.
Import ListNotations.

Set Implicit Arguments.

(* ------------------------------------------------------------------ *)
(** * numpy: floats, reductions and n-dimensional arrays *)

Module Np.

Open Scope R_scope.

Inductive npfloat : Type :=
| Fin (r : R)
| PInf
| NInf
| NaN.

Definition of_Z (z : Z) : npfloat := Fin (IZR z).
Definition of_nat (n : nat) : npfloat := Fin (INR n).

Definition fopp (x : npfloat) : npfloat :=
  match x with
  | Fin r => Fin (- r)
  | PInf => NInf
  | NInf => PInf
  | NaN => NaN
  end.

Definition fadd (x y : npfloat) : npfloat :=
  match x, y with
  | NaN, _ | _, NaN => NaN
  | Fin a, Fin b => Fin (a + b)
  | PInf, NInf | NInf, PInf => NaN
  | PInf, _ | _, PInf => PInf
  | NInf, _ | _, NInf => NInf
  end.

Definition fsub (x y : npfloat) : npfloat := fadd x (fopp y).

(** The infinity with the sign of [s * a], for [a] finite and non-zero. *)
Definition inf_signed (positive : bool) (a : R) : npfloat :=
  if Req_dec_T a 0 then NaN
  else if Rlt_dec 0 a then (if positive then PInf else NInf)
       else (if positive then NInf else PInf).

Definition fmul (x y : npfloat) : npfloat :=
  match x, y with
  | NaN, _ | _, NaN => NaN
  | Fin a, Fin b => Fin (a * b)
  | Fin a, PInf | PInf, Fin a => inf_signed true a
  | Fin a, NInf | NInf, Fin a => inf_signed false a
  | PInf, PInf | NInf, NInf => PInf
  | PInf, NInf | NInf, PInf => NInf
  end.

Definition fdiv (x y : npfloat) : npfloat :=
  match x, y with
  | NaN, _ | _, NaN => NaN
  | Fin a, Fin b => if Req_dec_T b 0 then inf_signed true a else Fin (a / b)
  | Fin _, PInf | Fin _, NInf => Fin 0
  | PInf, Fin b => if Rlt_dec b 0 then NInf else PInf
  | NInf, Fin b => if Rlt_dec b 0 then PInf else NInf
  | _, _ => NaN
  end.

Definition fsqrt (x : npfloat) : npfloat :=
  match x with
  | Fin a => if Rlt_dec a 0 then NaN else Fin (sqrt a)
  | PInf => PInf
  | NInf | NaN => NaN
  end.

(** Comparisons: the value of [x < y], [x == y], [x <= y] on floats. *)
Definition fltb (x y : npfloat) : bool :=
  match x, y with
  | Fin a, Fin b => if Rlt_dec a b then true else false
  | NInf, Fin _ | NInf, PInf | Fin _, PInf => true
  | _, _ => false
  end.

Definition feqb (x y : npfloat) : bool :=
  match x, y with
  | Fin a, Fin b => if Req_dec_T a b then true else false
  | PInf, PInf | NInf, NInf => true
  | _, _ => false
  end.

Definition fleb (x y : npfloat) : bool := fltb x y || feqb x y.

Definition isnan (x : npfloat) : bool :=
  match x with NaN => true | _ => false end.

(** [np.minimum] and [np.maximum] of two values: a [nan] wins. *)
Definition fmin (x y : npfloat) : npfloat :=
  if isnan x then x else if isnan y then y else if fltb y x then y else x.

Definition fmax (x y : npfloat) : npfloat :=
  if isnan x then x else if isnan y then y else if fltb x y then y else x.

(** [np.sum], [np.mean], [np.min], [np.max], [np.linalg.norm] of a vector. *)
Definition fsum (l : list npfloat) : npfloat := fold_left fadd l (Fin 0).

Definition mean (l : list npfloat) : npfloat :=
  fdiv (fsum l) (of_nat (length l)).

Definition amin (l : list npfloat) : option npfloat :=
  match l with
  | [] => None
  | x :: l' => Some (fold_left fmin l' x)
  end.

Definition amax (l : list npfloat) : option npfloat :=
  match l with
  | [] => None
  | x :: l' => Some (fold_left fmax l' x)
  end.

Definition norm (x : list npfloat) : npfloat :=
  fsqrt (fsum (map (fun v => fmul v v) x)).

(** [np.nanmean] of a vector: the mean of the entries that are not [nan]
    ([nan], from [0/0], when there is none). *)
Definition nanmean (l : list npfloat) : npfloat :=
  mean (filter (fun v => negb (isnan v)) l).

Definition nansum (l : list npfloat) : npfloat :=
  fsum (filter (fun v => negb (isnan v)) l).

(** Element-wise operations on vectors ([zip] semantics on equal shapes). *)
Definition vmap2 (f : npfloat -> npfloat -> npfloat) (x y : list npfloat) :=
  map (fun ab => f (fst ab) (snd ab)) (combine x y).

Definition vscale (f : npfloat -> npfloat -> npfloat) (x : list npfloat)
  (c : npfloat) : list npfloat := map (fun v => f v c) x.

(** A binary operation on two vectors under numpy's broadcasting: equal
    lengths, or one operand of length one; [None] is the [ValueError]. *)
Definition broadcast (f : npfloat -> npfloat -> npfloat) (x y : list npfloat)
  : option (list npfloat) :=
  if (length x =? length y)%nat then Some (vmap2 f x y)
  else match x, y with
       | [u], _ => Some (map (f u) y)
       | _, [v] => Some (map (fun w => f w v) x)
       | _, _ => None
       end.

(** [row += y]: the right-hand side must broadcast to the row. *)
Definition iadd (row y : list npfloat) : option (list npfloat) :=
  if (length row =? length y)%nat then Some (vmap2 fadd row y)
  else match y with
       | [v] => Some (map (fun w => fadd w v) row)
       | _ => None
       end.

(** Column [j] of a matrix given by its rows, and reductions along axis 0. *)
Definition column (j : nat) (m : list (list npfloat)) : list npfloat :=
  map (fun row => nth j row NaN) m.

Definition reduce_axis0 (f : list npfloat -> npfloat) (ncols : nat)
  (m : list (list npfloat)) : list npfloat :=
  map (fun j => f (column j m)) (seq 0 ncols).

(** The cast of an integer to [np.int16]: two's complement wrap-around. *)
Definition int16 (z : Z) : Z := ((z + 32768) mod 65536 - 32768)%Z.

(** An n-dimensional array: its shape and its elements in C (raster) order. *)
Record ndarray (A : Type) : Type := mk_ndarray {
  shape : list nat;
  data : list A
}.

Definition coord := list nat.

(** Every index tuple of an array of the given shape, in raster order. *)
Fixpoint ndindex (shp : list nat) : list coord :=
  match shp with
  | [] => [[]]
  | d :: rest => flat_map (fun i => map (cons i) (ndindex rest)) (seq 0 d)
  end.

(** The flat offset of an index tuple; [None] is numpy's [IndexError]
    (indices are never negative here). *)
Fixpoint ravel (shp : list nat) (c : coord) : option nat :=
  match shp, c with
  | [], [] => Some 0%nat
  | d :: rest, i :: c' =>
      if (i <? d)%nat then
        match ravel rest c' with
        | Some off => Some (i * fold_right Nat.mul 1%nat rest + off)%nat
        | None => None
        end
      else None
  | _, _ => None
  end.

Definition getitem {A : Type} (a : ndarray A) (c : coord) : option A :=
  match ravel (shape a) c with
  | Some off => nth_error (data a) off
  | None => None
  end.

End Np.

(* ------------------------------------------------------------------ *)
(** * skimage.measure: connected components and region properties

    [measure.label] and [measure.regionprops] belong to scikit-image; they
    are modelled here by what their documentation states: full
    connectivity (8 neighbours in two dimensions, 26 in three), labels
    numbered from 1 in raster order of the first pixel of each component,
    label 0 for the background, and the pixels of a region listed in raster
    order. *)

Module Skimage.

Import Np.

Definition coord_eqb (a b : coord) : bool :=
  if list_eq_dec Nat.eq_dec a b then true else false.

Definition mem (c : coord) (l : list coord) : bool := existsb (coord_eqb c) l.

(** Two pixels touch when every coordinate differs by at most one. *)
Fixpoint adjacent (a b : coord) : bool :=
  match a, b with
  | [], [] => true
  | i :: a', j :: b' => (i <=? j + 1)%nat && (j <=? i + 1)%nat && adjacent a' b'
  | _, _ => false
  end.

(** [grow n fg comp]: the pixels of [fg] reached from [comp] in at most [n]
    steps of adjacency, in the order of [fg]. *)
Fixpoint grow (n : nat) (fg comp : list coord) : list coord :=
  match n with
  | O => comp
  | S n' => grow n' fg (filter (fun q => existsb (adjacent q) comp) fg)
  end.

(** The connected components of the foreground pixels [fg] (in raster
    order), ordered by their first pixel.  Every round removes the
    component of the first remaining pixel, so [length fg] rounds are
    enough. *)
Fixpoint components (fuel : nat) (fg : list coord) : list (list coord) :=
  match fuel, fg with
  | S fuel', p :: _ =>
      let comp := grow (length fg) fg [p] in
      comp :: components fuel' (filter (fun q => negb (mem q comp)) fg)
  | _, _ => []
  end.

Definition foreground (image : ndarray bool) : list coord :=
  filter (fun c => match getitem image c with Some true => true | _ => false end)
         (ndindex (shape image)).

(** The label of a pixel: one more than the rank of its component, 0 for
    the background. *)
Fixpoint label_of (c : coord) (comps : list (list coord)) (l : nat) : nat :=
  match comps with
  | [] => O
  | comp :: rest => if mem c comp then l else label_of c rest (S l)
  end.

(** [measure.label(image)] for a boolean (or 0/1) image. *)
Definition label (image : ndarray bool) : ndarray nat :=
  let fg := foreground image in
  let comps := components (length fg) fg in
  mk_ndarray (shape image)
             (map (fun c => label_of c comps 1%nat) (ndindex (shape image))).

(** A region: the pixels of one label and the intensity image it was
    measured on (when one was given). *)
Record RegionProperties : Type := mk_region {
  coords : list coord;
  intensity_image : option (ndarray npfloat)
}.

Definition area (p : RegionProperties) : nat := length (coords p).

(** Coordinate [k] of every pixel of the region, as floats. *)
Definition axis_values (k : nat) (p : RegionProperties) : list npfloat :=
  map (fun c => of_nat (nth k c O)) (coords p).

Definition ndim (p : RegionProperties) : nat :=
  match coords p with
  | c :: _ => length c
  | [] => O
  end.

(** [centroid]: the mean of the pixel coordinates along every axis. *)
Definition centroid (p : RegionProperties) : list npfloat :=
  map (fun k => mean (axis_values k p)) (seq 0 (ndim p)).

(** The intensities of the pixels of the region; [None] when no intensity
    image was given (an [AttributeError]). *)
Definition intensities (p : RegionProperties) : option (list npfloat) :=
  match intensity_image p with
  | None => None
  | Some im =>
      fold_right (fun c acc =>
                    match getitem im c, acc with
                    | Some v, Some l => Some (v :: l)
                    | _, _ => None
                    end) (Some []) (coords p)
  end.

(** [weighted_centroid]: the coordinates averaged with the intensity as
    weight, the first moments of the intensity over its zeroth moment (the
    library takes the moments about the corner of the bounding box and
    adds the corner back, which is the same number). *)
Definition weighted_centroid (p : RegionProperties) : option (list npfloat) :=
  match intensities p with
  | None => None
  | Some w =>
      Some (map (fun k => fdiv (fsum (vmap2 fmul w (axis_values k p))) (fsum w))
                (seq 0 (ndim p)))
  end.

Definition mean_intensity (p : RegionProperties) : option npfloat :=
  option_map mean (intensities p).

Definition max_intensity (p : RegionProperties) : option npfloat :=
  match intensities p with
  | Some w => amax w
  | None => None
  end.

(** The largest label of a label image. *)
Definition max_label (labels : ndarray nat) : nat :=
  fold_right Nat.max O (data labels).

Definition pixels_of (labels : ndarray nat) (l : nat) : list coord :=
  filter (fun c => match getitem labels c with
                   | Some l' => (l' =? l)%nat
                   | None => false
                   end) (ndindex (shape labels)).

(** [measure.regionprops(label_image, intensity_image)]: one region per
    label that occurs, by increasing label.  Only two- and
    three-dimensional images are accepted, and a region cannot be built on
    an intensity image whose shape is not that of the label image; [None]
    is the exception raised in these cases. *)
Definition regionprops (labels : ndarray nat)
  (intensity : option (ndarray npfloat)) : option (list RegionProperties) :=
  let dims := length (shape labels) in
  if negb ((dims =? 2)%nat || (dims =? 3)%nat) then None
  else
    let regions :=
      filter (fun px => negb (length px =? 0)%nat)
             (map (pixels_of labels) (seq 1 (max_label labels))) in
    match regions, intensity with
    | _ :: _, Some im =>
        if list_eq_dec Nat.eq_dec (shape im) (shape labels)
        then Some (map (fun px => mk_region px intensity) regions)
        else None
    | _, _ => Some (map (fun px => mk_region px intensity) regions)
    end.

End Skimage.

(* ------------------------------------------------------------------ *)
(** * Exceptions

    A computation that may raise returns an [option]: [None] stands for
    the exception (an [IndexError], a [ValueError], ...), which the code
    never catches. *)

Module Exc.

Definition bind {A B : Type} (m : option A) (k : A -> option B) : option B :=
  match m with
  | Some a => k a
  | None => None
  end.

Fixpoint mapM {A B : Type} (f : A -> option B) (l : list A) : option (list B) :=
  match l with
  | [] => Some []
  | a :: l' =>
      match f a with
      | None => None
      | Some b =>
          match mapM f l' with
          | None => None
          | Some bs => Some (b :: bs)
          end
      end
  end.

End Exc.

Notation "x <- m ;; k" := (Exc.bind m (fun x => k))
  (at level 61, m at next level, right associativity).

(* ------------------------------------------------------------------ *)
(** * merlin/util/decoding.py *)

Module Decoding.

Import Np.
Import Exc.

(** The codebook class ([merlin.data.codebook]) is not among the sources:
    a codebook is taken as an object with the one method the decoder
    calls, [get_barcodes(ignoreBlanks)], which returns the table of
    integer bit vectors, one row per barcode. *)
Record Codebook : Type := mk_codebook {
  get_barcodes : bool -> list (list Z)
}.

(** Modelled from the spec: [merlin.util.binary.flip_bit] is not among the
    sources; per section 4.1 a variant of a barcode is the barcode with a
    single bit flipped, so bit [i] becomes 1 when it is 0 and 0 otherwise,
    the other bits unchanged. *)
Definition flip_bit (b : list Z) (i : nat) : list Z :=
  firstn i b ++
  match skipn i b with
  | [] => []
  | v :: rest => (if (v =? 0)%Z then 1%Z else 0%Z) :: rest
  end.

(** What [np.array] makes of a list of rows (two axes) or of a list of
    matrices (three axes). *)
Inductive array23 : Type :=
| Array2 (rows : list (list npfloat))
| Array3 (blocks : list (list (list npfloat))).

(** The [shape] of such an array (the rows of a codebook have one length);
    an empty list gives the shape [(0,)]. *)
Definition array_shape (a : array23) : list nat :=
  match a with
  | Array2 [] | Array3 [] => [O]
  | Array2 (r :: rows) => [length (r :: rows); length r]
  | Array3 (m :: ms) => [length (m :: ms); length m; length (hd [] m)]
  end.

Definition normalize (x : list npfloat) : list npfloat :=
  let norm := Np.norm x in
  if fltb (Fin 0) norm then vscale fdiv x norm else x.

(** [np.sqrt(np.sum(barcodeSet*barcodeSet, axis=1))] for one row. *)
Definition row_magnitude (b : list Z) : npfloat :=
  fsqrt (fsum (map (fun v => fmul v v) (map of_Z b))).

Definition _calculate_normalized_barcodes (codebook : Codebook)
  (ignoreBlanks includeErrors : bool) : array23 :=
  let barcodeSet := get_barcodes codebook ignoreBlanks in
  let magnitudes := map row_magnitude barcodeSet in
  if negb includeErrors then
    let weightedBarcodes :=
      map (fun xm => normalize (map of_Z (fst xm)))
          (combine barcodeSet magnitudes) in
    Array2 weightedBarcodes
  else
    let barcodesWithSingleErrors :=
      map (fun b =>
             let barcodeSet := b :: map (flip_bit b) (seq 0 (length b)) in
             let bcMagnitudes := map row_magnitude barcodeSet in
             let weightedBC :=
               map (fun xm => vscale fdiv (map of_Z (fst xm)) (snd xm))
                   (combine barcodeSet bcMagnitudes) in
             weightedBC)
          barcodeSet in
    Array3 barcodesWithSingleErrors.

Record PixelBasedDecoder : Type := mk_decoder {
  _codebook : Codebook;
  _decodingMatrix : array23;
  _barcodeCount : nat;
  _bitCount : nat;
  _scaleFactors : list npfloat;
  _backgrounds : list npfloat;
  refactorAreaThreshold : nat
}.

(** [PixelBasedDecoder.__init__]; the only statements that can raise are
    the reads of [shape[0]] and [shape[1]] of the decoding matrix. *)
Definition __init__ (codebook : Codebook)
  (scaleFactors backgrounds : option (list npfloat))
  : option PixelBasedDecoder :=
  let decodingMatrix := _calculate_normalized_barcodes codebook false false in
  barcodeCount <- nth_error (array_shape decodingMatrix) 0 ;;
  bitCount <- nth_error (array_shape decodingMatrix) 1 ;;
  let scaleFactors' :=
    match scaleFactors with
    | None => repeat (Fin 1) bitCount
    | Some s => s
    end in
  let backgrounds' :=
    match backgrounds with
    | None => repeat (Fin 0) bitCount
    | Some b => b
    end in
  Some (mk_decoder codebook decodingMatrix barcodeCount bitCount
                   scaleFactors' backgrounds' 4).

(** ** decode_pixels *)

(** [np.ceil] of a finite number, as an integer. *)
Definition ceil (r : R) : Z := (1 - up (- r))%Z.

Definition prod (shp : list nat) : nat := fold_right Nat.mul 1%nat shp.

(** Row [i] of the [rows x width] matrix stored flat in [l]. *)
Definition flat_row {A : Type} (width : nat) (l : list A) (i : nat) : list A :=
  firstn width (skipn (i * width) l).

(** [np.transpose] of a matrix with [ncols] columns given by its rows. *)
Definition transpose (ncols : nat) (m : list (list npfloat))
  : list (list npfloat) :=
  map (fun j => column j m) (seq 0 ncols).

Fixpoint zip3 {A B C : Type} (a : list A) (b : list B) (c : list C)
  : list (A * B * C) :=
  match a, b, c with
  | x :: a', y :: b', z :: c' => (x, y, z) :: zip3 a' b' c'
  | _, _, _ => []
  end.

Definition default_distanceThreshold : npfloat := Fin 0.5176.
Definition default_magnitudeThreshold : npfloat := Fin 1.
Definition default_lowPassSigma : R := 1.

Section DecodePixels.

(** [cv2.GaussianBlur(src, ksize, sigmaX)] and the query of a fitted
    [sklearn.neighbors.NearestNeighbors(n_neighbors=1)], which returns for
    one row the distance to the nearest row of the fitted matrix and the
    index of that row.  Both are external to the repository. *)
Variable GaussianBlur : ndarray npfloat -> Z * Z -> R -> ndarray npfloat.
Variable kneighbors : array23 -> list npfloat -> npfloat * Z.

(** [filteredImages], reshaped to one row of pixels per bit. *)
Definition filtered_images (imageData : ndarray npfloat) (lowPassSigma : R)
  : list (list npfloat) :=
  let bits := hd O (shape imageData) in
  let spatial := tl (shape imageData) in
  let filterSize := (2 * ceil (2 * lowPassSigma) + 1)%Z in
  map (fun i =>
         data (GaussianBlur
                 (mk_ndarray spatial (flat_row (prod spatial) (data imageData) i))
                 (filterSize, filterSize) lowPassSigma))
      (seq 0 bits).

(** The rows [(p-b)/s] of the [zip] of the images, the scale factors and
    the backgrounds: as many as the shortest of the three. *)
Definition scaled_rows (imageData : ndarray npfloat)
  (scaleFactors backgrounds : list npfloat) (lowPassSigma : R)
  : list (list npfloat) :=
  let pixelTraces := filtered_images imageData lowPassSigma in
  map (fun psb => match psb with
                  | (p, s, b) => map (fun v => fdiv (fsub v b) s) p
                  end)
      (zip3 pixelTraces scaleFactors backgrounds).

(** [scaledPixelTraces]: the transpose, one trace per pixel. *)
Definition scaled_pixel_traces (imageData : ndarray npfloat)
  (scaleFactors backgrounds : list npfloat) (lowPassSigma : R)
  : list (list npfloat) :=
  transpose (prod (tl (shape imageData)))
            (scaled_rows imageData scaleFactors backgrounds lowPassSigma).

(** The magnitude of one pixel: the norm of its scaled trace, and 1 where
    that norm is 0 ([pixelMagnitudes[pixelMagnitudes == 0] = 1]). *)
Definition pixel_magnitude (trace : list npfloat) : npfloat :=
  let m := norm trace in
  if feqb m (Fin 0) then Fin 1 else m.

Definition decode_pixels (self : PixelBasedDecoder) (imageData : ndarray npfloat)
  (scaleFactors backgrounds : option (list npfloat))
  (distanceThreshold magnitudeThreshold : npfloat) (lowPassSigma : R)
  : option (ndarray Z * ndarray npfloat * ndarray npfloat * ndarray npfloat) :=
  let scaleFactors :=
    match scaleFactors with None => _scaleFactors self | Some s => s end in
  let backgrounds :=
    match backgrounds with None => _backgrounds self | Some b => b end in
  let bits := hd O (shape imageData) in
  let spatial := tl (shape imageData) in
  let scaledPixelTraces :=
    scaled_pixel_traces imageData scaleFactors backgrounds lowPassSigma in
  let pixelMagnitudes := map pixel_magnitude scaledPixelTraces in
  let normalizedPixelTraces :=
    map (fun xm => vscale fdiv (fst xm) (snd xm))
        (combine scaledPixelTraces pixelMagnitudes) in
  let neighbors := map (kneighbors (_decodingMatrix self)) normalizedPixelTraces in
  let distances := map fst neighbors in
  let indexes := map snd neighbors in
  let decodedImage :=
    map (fun id => if fleb (snd id) distanceThreshold
                   then int16 (fst id) else (-1)%Z)
        (combine indexes distances) in
  (* the traces go back to the shape of the input: the reshape needs as
     many scaled bits as the stack has images *)
  let scaledBits :=
    length (scaled_rows imageData scaleFactors backgrounds lowPassSigma) in
  if negb ((scaledBits * prod spatial =? bits * prod spatial)%nat) then None
  else
    let decodedImage :=
      map (fun lm => if fltb (snd lm) magnitudeThreshold then (-1)%Z else fst lm)
          (combine decodedImage pixelMagnitudes) in
    Some (mk_ndarray spatial decodedImage,
          mk_ndarray spatial pixelMagnitudes,
          mk_ndarray (shape imageData)
                     (concat (transpose scaledBits normalizedPixelTraces)),
          mk_ndarray spatial distances).

End DecodePixels.

(** ** extract_barcodes_with_index *)

(** A value that may be Python's [None]. *)
Definition pyval : Type := option npfloat.

(** One row of the returned data frame: the dictionary built by
    [_bc_properties_to_dict], with the [intensity_<i>] entries as a list. *)
Record BarcodeInfo : Type := mk_info {
  barcode_id : Z;
  fov : Z;
  mean_intensity : npfloat;
  max_intensity : npfloat;
  area : nat;
  mean_distance : npfloat;
  min_distance : npfloat;
  x : pyval;
  y : pyval;
  z : pyval;
  global_x : pyval;
  global_y : pyval;
  global_z : pyval;
  cell_index : option Z;
  intensity_ : list npfloat
}.

(** [decodedImage == barcodeIndex]. *)
Definition eq_mask (image : ndarray Z) (v : Z) : ndarray bool :=
  mk_ndarray (shape image) (map (fun l => (l =? v)%Z) (data image)).

(** One comparison chain [cropWidth < position[k] < imageSize[k] - cropWidth];
    the right operand is only evaluated when the left comparison holds. *)
Definition crop_chain (position : list npfloat) (cropWidth : npfloat)
  (imageSize : list nat) (k : nat) : option bool :=
  pk <- nth_error position k ;;
  if fltb cropWidth pk then
    sk <- nth_error imageSize k ;;
    Some (fltb pk (fsub (of_nat sk) cropWidth))
  else Some false.

Definition _position_within_crop (position : list npfloat)
  (cropWidth : npfloat) (imageSize : list nat) : option bool :=
  if (length position =? 2)%nat then
    first <- crop_chain position cropWidth imageSize 0 ;;
    if first then crop_chain position cropWidth imageSize 1 else Some false
  else
    first <- crop_chain position cropWidth imageSize 1 ;;
    if first then crop_chain position cropWidth imageSize 2 else Some false.

(** The entries [x[k]] of a pixel coordinate, for the given axes. *)
Definition pick (xs : coord) (axes : list nat) : option coord :=
  mapM (nth_error xs) axes.

(** [globalAligner.fov_coordinates_to_global(fov, centroid)] and
    [segmenter.get_cell_containing_position(a, b)] are methods of objects
    handed in by the caller. *)
Definition Aligner : Type := Z -> list pyval -> list pyval.
Definition Segmenter : Type := pyval -> pyval -> option Z.

Definition _bc_properties_to_dict (properties : Skimage.RegionProperties)
  (bcIndex fov : Z) (distances pixelTraces : ndarray npfloat)
  (zIndex : option Z) (globalAligner : option Aligner)
  (segmenter : option Segmenter) : option BarcodeInfo :=
  inputCentroid <- Skimage.weighted_centroid properties ;;
  centroid <-
    (if (length inputCentroid =? 2)%nat then
       c1 <- nth_error inputCentroid 1 ;;
       c0 <- nth_error inputCentroid 0 ;;
       Some [option_map of_Z zIndex; Some c1; Some c0]
     else
       c0 <- nth_error inputCentroid 0 ;;
       c2 <- nth_error inputCentroid 2 ;;
       c1 <- nth_error inputCentroid 1 ;;
       Some [Some c0; Some c2; Some c1]) ;;
  let globalCentroid :=
    match globalAligner with
    | Some aligner => aligner fov centroid
    | None => centroid
    end in
  d <- (if (length (shape distances) =? 2)%nat then
          mapM (fun xs => ix <- pick xs [0; 1]%nat ;; getitem distances ix)
               (Skimage.coords properties)
        else
          mapM (fun xs => ix <- pick xs [0; 1; 2]%nat ;; getitem distances ix)
               (Skimage.coords properties)) ;;
  mean_intensity <- Skimage.mean_intensity properties ;;
  max_intensity <- Skimage.max_intensity properties ;;
  min_distance <- amin d ;;
  x <- nth_error centroid 1 ;;
  y <- nth_error centroid 2 ;;
  z <- nth_error centroid 0 ;;
  global_x <- nth_error globalCentroid 1 ;;
  global_y <- nth_error globalCentroid 2 ;;
  global_z <- nth_error globalCentroid 0 ;;
  intensities <-
    (if (length (shape pixelTraces) =? 3)%nat then
       mapM (fun i =>
               option_map mean
                 (mapM (fun xs => ix <- pick xs [0; 1]%nat ;;
                                  getitem pixelTraces (i :: ix))
                       (Skimage.coords properties)))
            (seq 0 (hd O (shape pixelTraces)))
     else
       bits <- nth_error (shape pixelTraces) 1 ;;
       mapM (fun i =>
               option_map mean
                 (mapM (fun xs => ix <- pick xs [0; 1; 2]%nat ;;
                                  match ix with
                                  | [x0; x1; x2] =>
                                      getitem pixelTraces [x0; i; x1; x2]
                                  | _ => None
                                  end)
                       (Skimage.coords properties)))
            (seq 0 bits)) ;;
  cell <-
    match segmenter with
    | Some seg =>
        g0 <- nth_error globalCentroid 0 ;;
        g1 <- nth_error globalCentroid 1 ;;
        Some (seg g0 g1)
    | None => Some (Some (-1)%Z)
    end ;;
  Some (mk_info bcIndex fov mean_intensity max_intensity
                (Skimage.area properties) (mean d) min_distance
                x y z global_x global_y global_z cell intensities).

(** The list comprehension of [extract_barcodes_with_index]: the regions
    are visited in order, the condition is evaluated first and the
    dictionary is built only for the regions that pass. *)
Fixpoint comprehension {A B : Type} (cond : A -> option bool)
  (f : A -> option B) (l : list A) : option (list B) :=
  match l with
  | [] => Some []
  | a :: l' =>
      c <- cond a ;;
      if c then
        b <- f a ;;
        bs <- comprehension cond f l' ;;
        Some (b :: bs)
      else comprehension cond f l'
  end.

Definition extract_barcodes_with_index (barcodeIndex : Z)
  (decodedImage : ndarray Z)
  (pixelMagnitudes pixelTraces distances : ndarray npfloat)
  (fov : Z) (cropWidth : npfloat) (zIndex : option Z)
  (globalAligner : option Aligner) (segmenter : option Segmenter)
  (minimumArea : Z) : option (list BarcodeInfo) :=
  properties <- Skimage.regionprops
                  (Skimage.label (eq_mask decodedImage barcodeIndex))
                  (Some pixelMagnitudes) ;;
  comprehension
    (fun p =>
       within <- _position_within_crop (Skimage.centroid p) cropWidth
                                       (shape decodedImage) ;;
       Some (within && (minimumArea <=? Z.of_nat (Skimage.area p))%Z))
    (fun p => _bc_properties_to_dict p barcodeIndex fov distances pixelTraces
                                     zIndex globalAligner segmenter)
    properties.

(** ** extract_refactors *)

(** The regions of the pixels decoded to barcode [b] whose area reaches
    the threshold. *)
Definition barcode_regions (decodedImage : ndarray Z) (b threshold : nat)
  : option (list Skimage.RegionProperties) :=
  regions <- Skimage.regionprops
               (Skimage.label (eq_mask decodedImage (Z.of_nat b))) None ;;
  Some (filter (fun r => (threshold <=? Skimage.area r)%nat) regions).

(** [normalizedPixelTraces[:, y[0], y[1]] * pixelMagnitudes[y[0], y[1]]]. *)
Definition unnormalized_trace (normalizedPixelTraces pixelMagnitudes : ndarray npfloat)
  (ys : coord) : option (list npfloat) :=
  ix <- pick ys [0; 1]%nat ;;
  trace <- mapM (fun i => getitem normalizedPixelTraces (i :: ix))
                (seq 0 (hd O (shape normalizedPixelTraces))) ;;
  m <- getitem pixelMagnitudes ix ;;
  Some (vscale fmul trace m).

(** The rows added one after the other to a row of the accumulator. *)
Definition accumulate (row : list npfloat) (terms : list (list npfloat))
  : option (list npfloat) :=
  fold_left (fun acc t => r <- acc ;; iadd r t) terms (Some row).

(** [np.min(traces, axis=0)]. *)
Definition min_axis0 (ncols : nat) (m : list (list npfloat))
  : option (list npfloat) :=
  mapM (fun j => amin (column j m)) (seq 0 ncols).

(** The matrix with [nan] where the mask holds on the decoding matrix. *)
Definition mask_nan (test : npfloat -> bool) (matrix sums : list (list npfloat))
  : list (list npfloat) :=
  map (fun rs => map (fun ms => if test (fst ms) then NaN else snd ms)
                     (combine (fst rs) (snd rs)))
      (combine matrix sums).

Definition _extract_backgrounds (self : PixelBasedDecoder)
  (decodedImage : ndarray Z)
  (pixelMagnitudes normalizedPixelTraces : ndarray npfloat)
  : option (list npfloat) :=
  sumsSeen <-
    mapM (fun b =>
            barcodeRegions <- barcode_regions decodedImage b 5 ;;
            terms <-
              mapM (fun br =>
                      traces <- mapM (unnormalized_trace normalizedPixelTraces
                                                         pixelMagnitudes)
                                     (Skimage.coords br) ;;
                      min_axis0 (hd O (shape normalizedPixelTraces)) traces)
                   barcodeRegions ;;
            row <- accumulate (repeat (Fin 0) (_bitCount self)) terms ;;
            Some (row, of_nat (length barcodeRegions)))
         (seq 0 (_barcodeCount self)) ;;
  let sumMinPixelTraces := map fst sumsSeen in
  let barcodesSeen := map snd sumsSeen in
  match _decodingMatrix self with
  | Array3 _ => None
  | Array2 matrix =>
      let offPixelTraces :=
        mask_nan (fun m => fltb (Fin 0) m) matrix sumMinPixelTraces in
      let offCounts :=
        map (fun rs => map (fun m => fmul (if feqb m (Fin 0) then Fin 1 else Fin 0)
                                          (snd rs))
                           (fst rs))
            (combine matrix barcodesSeen) in
      let offBitIntensity :=
        vmap2 fdiv (reduce_axis0 nansum (_bitCount self) offPixelTraces)
                   (reduce_axis0 fsum (_bitCount self) offCounts) in
      Some offBitIntensity
  end.

(** The accumulator of [extract_refactors] after the loop over the
    barcodes, with the number of regions seen for every barcode. *)
Definition sum_pixel_traces (self : PixelBasedDecoder)
  (decodedImage : ndarray Z)
  (pixelMagnitudes normalizedPixelTraces : ndarray npfloat)
  (backgroundRefactors : list npfloat)
  : option (list (list npfloat * npfloat)) :=
  mapM (fun b =>
          barcodeRegions <- barcode_regions decodedImage b
                                            (refactorAreaThreshold self) ;;
          let seen := of_nat (length barcodeRegions) in
          terms <-
            mapM (fun br =>
                    traces <- mapM (unnormalized_trace normalizedPixelTraces
                                                       pixelMagnitudes)
                                   (Skimage.coords br) ;;
                    meanPixelTrace <-
                      broadcast fsub
                        (reduce_axis0 mean (hd O (shape normalizedPixelTraces))
                                      traces)
                        backgroundRefactors ;;
                    let normPixelTrace :=
                      vscale fdiv meanPixelTrace (norm meanPixelTrace) in
                    Some (vscale fdiv normPixelTrace seen))
                 barcodeRegions ;;
          row <- accumulate (repeat (Fin 0) (_bitCount self)) terms ;;
          Some (row, seen))
       (seq 0 (_barcodeCount self)).

(** The accumulator after [sumPixelTraces[self._decodingMatrix == 0] = np.nan]. *)
Definition masked_pixel_traces (self : PixelBasedDecoder)
  (sumPixelTraces : list (list npfloat)) : option (list (list npfloat)) :=
  match _decodingMatrix self with
  | Array3 _ => None
  | Array2 matrix =>
      Some (mask_nan (fun m => feqb m (Fin 0)) matrix sumPixelTraces)
  end.

Definition extract_refactors (self : PixelBasedDecoder)
  (decodedImage : ndarray Z)
  (pixelMagnitudes normalizedPixelTraces : ndarray npfloat)
  (extractBackgrounds : bool)
  : option (list npfloat * list npfloat * list npfloat) :=
  backgroundRefactors <-
    (if extractBackgrounds then
       _extract_backgrounds self decodedImage pixelMagnitudes
                            normalizedPixelTraces
     else Some (repeat (Fin 0) (_bitCount self))) ;;
  sumsSeen <- sum_pixel_traces self decodedImage pixelMagnitudes
                               normalizedPixelTraces backgroundRefactors ;;
  let barcodesSeen := map snd sumsSeen in
  sumPixelTraces <- masked_pixel_traces self (map fst sumsSeen) ;;
  let onBitIntensity := reduce_axis0 nanmean (_bitCount self) sumPixelTraces in
  let refactors := vscale fdiv onBitIntensity (mean onBitIntensity) in
  Some (refactors, backgroundRefactors, barcodesSeen).

End Decoding.

(* ------------------------------------------------------------------ *)
(** * merlin/analysis/segment.py: CleanCellBoundaries *)

Module Segment.

Import Np.
Import Exc.

(** A candidate cell boundary found in one field of view.  The class
    ([merlin.util.spatialfeature.SpatialFeature]) is not among the
    sources; the record has what its getters return. *)
Record SpatialFeature : Type := mk_feature {
  get_feature_id : string;
  get_fov : Z;
  get_bounding_box : list npfloat;
  get_volume : npfloat
}.

(** Modelled from the spec: [spatialfeature.simple_clean_cells] is not among
    the sources; per section 4.5, step 1, it discards the candidate cells
    with a malformed bounding box (it must resolve to exactly 4 scalars) or
    a non-positive volume, and keeps the others in their order. *)
Definition simple_clean_cells (cells : list SpatialFeature)
  : list SpatialFeature :=
  filter (fun cell => (length (get_bounding_box cell) =? 4)%nat
                      && fltb (Fin 0) (get_volume cell))
         cells.

Section CleanCellBoundaries.

(** The collaborators of the task that are not among the sources: the
    R-tree ([rtree.index.Index]), the graph ([networkx.Graph]), the boxes
    of [shapely.geometry], the data frames of [pandas], and the three
    functions of [merlin.util.spatialfeature] that build the tree, build
    the graph and resolve the overlaps. *)
Variables SpatialIndex IdToNum Graph Box DataFrame : Type.
Variable rtree_Index : SpatialIndex.
Variable empty_dict : IdToNum.
Variable nx_Graph : Graph.
Variable geometry_box : npfloat -> npfloat -> npfloat -> npfloat -> Box.
Variable construct_tree :
  list SpatialFeature -> SpatialIndex -> Z -> IdToNum -> SpatialIndex * Z * IdToNum.
Variable construct_graph :
  Graph -> list SpatialFeature -> SpatialIndex -> Z -> list Z -> list Box -> Graph.
Variable remove_overlapping_cells : Graph -> DataFrame.

(** What the task reads and writes: the fields of view of the data set,
    the feature database of the segmentation task, the global extent of a
    field of view given by the alignment task, and the data frames saved
    by name for this task. *)
Record World : Type := mk_world {
  get_fovs : list Z;
  read_features : Z -> list SpatialFeature;
  fov_global_extent : Z -> list npfloat;
  saved : list (string * DataFrame)
}.

(** [dataSet.save_dataframe_to_csv(df, name, analysisTask=self)] replaces
    the file of that name; [load_dataframe_from_csv] reads it back. *)
Definition save_dataframe_to_csv (w : World) (df : DataFrame) (name : string)
  : World :=
  mk_world (get_fovs w) (read_features w) (fov_global_extent w)
           ((name, df) ::
            filter (fun kv => negb (String.eqb (fst kv) name)) (saved w)).

Definition load_dataframe_from_csv (w : World) (name : string)
  : option DataFrame :=
  option_map snd (find (fun kv => String.eqb (fst kv) name) (saved w)).

(** [get_fov_boxes]: the data frame of the extents has four columns, so an
    extent that is not of length four raises. *)
Definition get_fov_boxes (w : World) : option (list Box) :=
  mapM (fun f => match fov_global_extent w f with
                 | [minx; miny; maxx; maxy] =>
                     Some (geometry_box minx miny maxx maxy)
                 | _ => None
                 end)
       (get_fovs w).

Definition _intial_clean (w : World) (currentFOV : Z) : list SpatialFeature :=
  let currentCells := read_features w currentFOV in
  filter (fun cell => (length (get_bounding_box cell) =? 4)%nat
                      && fltb (Fin 0) (get_volume cell))
         currentCells.

Definition return_exported_data (w : World) : option DataFrame :=
  load_dataframe_from_csv w "cleanedcells".

(** The world in which the feature database holds the well-formed cells
    only. *)
Definition without_malformed (w : World) : World :=
  mk_world (get_fovs w) (fun f => simple_clean_cells (read_features w f))
           (fov_global_extent w) (saved w).

(** The first loop of [_run_analysis]: the spatial index over the cleaned
    cells of all fields of view. *)
Definition spatial_tree (w : World) : SpatialIndex * Z * IdToNum :=
  fold_left (fun acc currentFOV =>
               match acc with
               | (spatialTree, count, idToNum) =>
                   let cells := read_features w currentFOV in
                   let cells := simple_clean_cells cells in
                   construct_tree cells spatialTree count idToNum
               end)
            (get_fovs w) (rtree_Index, 0%Z, empty_dict).

(** The second loop: the overlap graph. *)
Definition overlap_graph (w : World) (spatialTree : SpatialIndex)
  (fovBoxes : list Box) : Graph :=
  let allFOVs := get_fovs w in
  fold_left (fun graph currentFOV =>
               let cells := read_features w currentFOV in
               let cells := simple_clean_cells cells in
               construct_graph graph cells spatialTree currentFOV allFOVs
                               fovBoxes)
            allFOVs nx_Graph.

Definition _run_analysis (w : World) : option World :=
  let spatialTree := fst (fst (spatial_tree w)) in
  fovBoxes <- get_fov_boxes w ;;
  let graph := overlap_graph w spatialTree fovBoxes in
  let cleanedCells := remove_overlapping_cells graph in
  Some (save_dataframe_to_csv w cleanedCells "cleanedcells").

End CleanCellBoundaries.

End Segment.

(* ------------------------------------------------------------------ *)
(** * Concrete inputs

    The codebook, images and collaborators on which the properties below
    are exercised. *)

Module Examples.

Import Np.
Import Decoding.
Open Scope R_scope.

(** A codebook of two barcodes on two bits, [10] and [01]. *)
Definition identity2 : Codebook :=
  mk_codebook (fun _ => [[1; 0]; [0; 1]]%Z).

(** The decoder that [__init__] builds for it with the default scale
    factors and backgrounds. *)
Definition identity2_decoder : PixelBasedDecoder :=
  mk_decoder identity2 (Array2 [[Fin 1; Fin 0]; [Fin 0; Fin 1]]) 2 2
             [Fin 1; Fin 1] [Fin 0; Fin 0] 4.

(** A blur that leaves the image as it is (what a Gaussian blur does to an
    image of one pixel). *)
Definition no_blur (src : ndarray npfloat) (ksize : Z * Z) (sigma : R)
  : ndarray npfloat := src.

(** An exact nearest-neighbour query: the smallest Euclidean distance to a
    row of the matrix and the first row that attains it. *)
Definition euclidean (a b : list npfloat) : npfloat := norm (vmap2 fsub a b).

Definition nearest_row (matrix : array23) (query : list npfloat) : npfloat * Z :=
  match matrix with
  | Array2 (r :: rows) =>
      fst (fold_left
             (fun acc row =>
                let d := euclidean query row in
                ((if fltb d (fst (fst acc)) then (d, snd acc) else fst acc),
                 (snd acc + 1)%Z))
             rows ((euclidean query r, 0%Z), 1%Z))
  | _ => (NaN, 0%Z)
  end.

(** A stack of two bits over one pixel whose first bit is lit. *)
Definition hot_pixel : ndarray npfloat :=
  mk_ndarray [2; 1; 1]%nat [Fin 5; Fin 0].

(** A 4 x 4 image whose third row is decoded to barcode 0, with a bright
    first pixel in that row: magnitude 9 against 1 for the rest of the row
    (and 1/2, below the default threshold, for the undecoded pixels). *)
Definition strip_image : ndarray Z :=
  mk_ndarray [4; 4]%nat
    [-1; -1; -1; -1;
     -1; -1; -1; -1;
      0;  0;  0;  0;
     -1; -1; -1; -1]%Z.

Definition strip_magnitudes : ndarray npfloat :=
  mk_ndarray [4; 4]%nat
    (map Fin [1/2; 1/2; 1/2; 1/2;
              1/2; 1/2; 1/2; 1/2;
              9;   1;   1;   1;
              1/2; 1/2; 1/2; 1/2]).

Definition strip_traces : ndarray npfloat :=
  mk_ndarray [1; 4; 4]%nat (repeat (Fin 1) 16).

Definition strip_distances : ndarray npfloat :=
  mk_ndarray [4; 4]%nat (repeat (Fin 0) 16).

(** The one region of that image. *)
Definition strip_region : Skimage.RegionProperties :=
  Skimage.mk_region [[2; 0]; [2; 1]; [2; 2]; [2; 3]]%nat (Some strip_magnitudes).

(** A cell lookup that knows one cell, found when the first argument is
    [None] and the second a number. *)
Definition one_cell : Segmenter :=
  fun a b =>
    match a, b with
    | None, Some _ => Some 3%Z
    | _, _ => Some (-1)%Z
    end.

(** An image without a decoded pixel, for the calibration. *)
Definition blank_image : ndarray Z := mk_ndarray [1; 1]%nat [(-1)%Z].
Definition blank_magnitudes : ndarray npfloat := mk_ndarray [1; 1]%nat [Fin 1].
Definition blank_traces : ndarray npfloat :=
  mk_ndarray [2; 1; 1]%nat [Fin 0; Fin 0].

(** Two fields of view.  The first has a well-formed cell, a cell whose
    bounding box has three entries and a cell without volume. *)
Definition good_cell : Segment.SpatialFeature :=
  Segment.mk_feature "a" 0 [Fin 0; Fin 0; Fin 1; Fin 1] (Fin 2).
Definition boxless_cell : Segment.SpatialFeature :=
  Segment.mk_feature "b" 0 [Fin 0; Fin 0; Fin 1] (Fin 1).
Definition flat_cell : Segment.SpatialFeature :=
  Segment.mk_feature "c" 0 [Fin 0; Fin 0; Fin 1; Fin 1] (Fin 0).
Definition other_cell : Segment.SpatialFeature :=
  Segment.mk_feature "d" 1 [Fin 1; Fin 0; Fin 2; Fin 1] (Fin 3).

Definition CellTable : Type := list (string * Z * Z).

Definition two_tiles : Segment.World CellTable :=
  Segment.mk_world [0; 1]%Z
    (fun f => if (f =? 0)%Z then [good_cell; boxless_cell; flat_cell]
              else [other_cell])
    (fun f => if (f =? 0)%Z then [Fin 0; Fin 0; Fin 10; Fin 10]
              else [Fin 9; Fin 0; Fin 19; Fin 10])
    [].


(** The simplest collaborators for the task: an index that lists the
    inserted cells under their handles, a graph that lists its nodes, and
    a resolution that keeps every node in its own field of view. *)
Definition list_tree (cells : list Segment.SpatialFeature)
  (tree : list (Z * Segment.SpatialFeature)) (count : Z)
  (idToNum : list (string * Z))
  : list (Z * Segment.SpatialFeature) * Z * list (string * Z) :=
  fold_left (fun acc cell =>
               match acc with
               | (t, c, d) =>
                   (t ++ [(c, cell)], (c + 1)%Z,
                    d ++ [(Segment.get_feature_id cell, c)])
               end)
            cells (tree, count, idToNum).

Definition list_graph (graph : list Segment.SpatialFeature)
  (cells : list Segment.SpatialFeature)
  (tree : list (Z * Segment.SpatialFeature)) (currentFOV : Z)
  (allFOVs : list Z) (fovBoxes : list (list npfloat))
  : list Segment.SpatialFeature := graph ++ cells.

Definition keep_all (graph : list Segment.SpatialFeature) : CellTable :=
  map (fun c => (Segment.get_feature_id c, Segment.get_fov c,
                 Segment.get_fov c)) graph.

Definition box4 (minx miny maxx maxy : npfloat) : list npfloat :=
  [minx; miny; maxx; maxy].

End Examples.

(* ------------------------------------------------------------------ *)
(** * Distinct values in ascending order

    What [np.unique] returns for an integer array, and the keys of a
    [DataFrame.groupby] on an integer column. *)

Module Unique.

Fixpoint insert_key (k : Z) (keys : list Z) : list Z :=
  match keys with
  | [] => [k]
  | h :: t =>
      if (k <? h)%Z then k :: keys
      else if (k =? h)%Z then keys
      else h :: insert_key k t
  end.

Definition unique (values : list Z) : list Z :=
  fold_right insert_key [] values.

End Unique.

(* ------------------------------------------------------------------ *)
(** * merlin/analysis/segment.py: WatershedSegment *)

Module WatershedSegment.

Import Np.
Import Exc.

Section Task.

(** The collaborators of the task: [cv2.GaussianBlur]; the aligned image
    of the warp task for a field of view, a channel and a z index; the z
    positions of the data set and of its data organization; the channel
    index of a channel name ([None] when the lookup raises); the functions
    of [merlin.util.watershed]; [measure.label] on an image of seeds and
    [segmentation.watershed] of scikit-image; the transform of the global
    alignment task; the constructor of a feature from a label mask; and
    the feature database. *)
Variable GaussianBlur : ndarray npfloat -> Z * Z -> R -> ndarray npfloat.
Variable get_aligned_image : Z -> Z -> nat -> ndarray npfloat.
Variable get_z_positions : list npfloat.
Variable organization_z_positions : list npfloat.
Variable get_data_channel_index : string -> option Z.
Variable extract_seeds : list (ndarray npfloat) -> ndarray Z.
Variable separate_merged_seeds : ndarray Z -> ndarray Z.
Variable prepare_watershed_images :
  list (ndarray npfloat) -> ndarray npfloat * ndarray bool.
Variable measure_label : ndarray Z -> ndarray Z.
Variable segmentation_watershed :
  ndarray npfloat -> ndarray Z -> ndarray bool -> ndarray Z.
Variables Transform Feature FeatureDB : Type.
Variable fov_to_global_transform : Z -> Transform.
Variable feature_from_label_matrix :
  ndarray bool -> Z -> Transform -> list npfloat -> Feature.
Variable write_features : FeatureDB -> list Feature -> Z -> FeatureDB.

Definition _read_and_filter_image_stack (fov channelIndex : Z)
  (filterSigma : R) : list (ndarray npfloat) :=
  let filterSize := (2 * Decoding.ceil (2 * filterSigma) + 1)%Z in
  map (fun z => GaussianBlur (get_aligned_image fov channelIndex z)
                             (filterSize, filterSize) filterSigma)
      (seq 0 (length get_z_positions)).

(** [seeds[np.invert(watershedMask)] = 0]: a boolean index must have the
    shape of the leading axes of the array it indexes (an [IndexError]
    otherwise), and an entry of the index stands for the whole sub-array
    along the remaining axes. *)
Definition clear_outside (seeds : ndarray Z) (watershedMask : ndarray bool)
  : option (ndarray Z) :=
  let axes := length (shape watershedMask) in
  if list_eq_dec Nat.eq_dec (shape watershedMask) (firstn axes (shape seeds))
  then
    let inner := Decoding.prod (skipn axes (shape seeds)) in
    Some (mk_ndarray (shape seeds)
            (map (fun ps =>
                    if negb (nth (fst ps / inner) (data watershedMask) true)
                    then 0%Z else snd ps)
                 (combine (seq 0 (length (data seeds))) (data seeds))))
  else None.

(** [seed_channel_name] and [watershed_channel_name] are the two entries
    of [self.parameters] that the task reads. *)
Definition _run_analysis (seed_channel_name watershed_channel_name : string)
  (featureDB : FeatureDB) (fragmentIndex : Z) : option FeatureDB :=
  seedIndex <- get_data_channel_index seed_channel_name ;;
  let seedImages := _read_and_filter_image_stack fragmentIndex seedIndex 5 in
  watershedIndex <- get_data_channel_index watershed_channel_name ;;
  let watershedImages :=
    _read_and_filter_image_stack fragmentIndex watershedIndex 5 in
  let seeds := separate_merged_seeds (extract_seeds seedImages) in
  let normalizedWatershed := fst (prepare_watershed_images watershedImages) in
  let watershedMask := snd (prepare_watershed_images watershedImages) in
  seeds <- clear_outside seeds watershedMask ;;
  let watershedOutput :=
    segmentation_watershed normalizedWatershed (measure_label seeds)
                           watershedMask in
  let zPos := organization_z_positions in
  let featureList :=
    map (fun i => feature_from_label_matrix
                    (Decoding.eq_mask watershedOutput i) fragmentIndex
                    (fov_to_global_transform fragmentIndex) zPos)
        (filter (fun i => negb (i =? 0)%Z)
                (Unique.unique (data watershedOutput))) in
  Some (write_features featureDB featureList fragmentIndex).

End Task.

End WatershedSegment.

(* ------------------------------------------------------------------ *)
(** * merlin/analysis/segment.py: the helper of CleanCellBoundaries for
      the spatial index *)

Module CleanCellBoundaries.

Import Np.
Import Segment.

Section AppendCells.

(** [tree.insert(id, coordinates, obj)] of [rtree.index.Index] changes the
    tree in place; it gives the tree it leaves behind and whether it
    returned ([true]) or raised. *)
Variable SpatialIndex : Type.
Variable insert :
  SpatialIndex -> Z -> list npfloat -> SpatialFeature -> SpatialIndex * bool.

(** The dictionary [idToNum] is only read: a missing key is a [KeyError].
    The result is the tree after the call and whether the call returned. *)
Fixpoint _append_cells_to_spatial_tree (tree : SpatialIndex)
  (cells : list SpatialFeature) (idToNum : string -> option Z)
  : SpatialIndex * bool :=
  match cells with
  | [] => (tree, true)
  | element :: rest =>
      match idToNum (get_feature_id element) with
      | None => (tree, false)
      | Some num =>
          let (tree', returned) :=
            insert tree num (get_bounding_box element) element in
          if returned then _append_cells_to_spatial_tree tree' rest idToNum
          else (tree', false)
      end
  end.

End AppendCells.

End CleanCellBoundaries.

(* ------------------------------------------------------------------ *)
(** * merlin/analysis/segment.py: RefineCellDatabases *)

Module RefineCellDatabases.

Import Np.
Import Exc.
Import Segment.

(** A row of the table exported by the cleaning task, with the three
    columns that the task reads. *)
Record CleanedRow : Type := mk_row {
  cell_id : string;
  originalFOV : Z;
  assignedFOV : Z
}.

(** [cleanedC.groupby('assignedFOV')]: one group per key, by increasing
    key, with the rows of the group in the order of the table. *)
Definition groupby_assignedFOV (rows : list CleanedRow)
  : list (Z * list CleanedRow) :=
  map (fun k => (k, filter (fun r => (assignedFOV r =? k)%Z) rows))
      (Unique.unique (map assignedFOV rows)).

Section Task.

(** The feature database this task writes to, with its
    [write_features(features, fov)], is outside the sources. *)
Variable FeatureDB : Type.
Variable write_features : FeatureDB -> list SpatialFeature -> Z -> FeatureDB.

(** [cleanedCells] is what [cleaningTask.return_exported_data()] gave
    ([None] when it raised) and [originalCells] what the feature database
    of the segmentation task holds for the fragment; [get_feature_id] is
    the identifier as the string that [str] makes of it. *)
Definition _run_analysis (cleanedCells : option (list CleanedRow))
  (originalCells : list SpatialFeature) (featureDB : FeatureDB)
  (fragmentIndex : Z) : option FeatureDB :=
  cleanedCells <- cleanedCells ;;
  let cleanedC :=
    filter (fun r => (originalFOV r =? fragmentIndex)%Z) cleanedCells in
  let cleanedGroups := groupby_assignedFOV cleanedC in
  Some (fold_left
          (fun db kg =>
             let cellsToConsider := map cell_id (snd kg) in
             let featureList :=
               filter (fun x => existsb (String.eqb (get_feature_id x))
                                        cellsToConsider)
                      originalCells in
             write_features db featureList fragmentIndex)
          cleanedGroups featureDB).

End Task.

End RefineCellDatabases.

(* ------------------------------------------------------------------ *)
(** * Further inputs *)

Module Inputs.

Import Np.
Import Decoding.
Import Examples.
Open Scope R_scope.

(** The codebook [identity2] with every bit doubled. *)
Definition doubled2 : Codebook :=
  mk_codebook (fun _ => [[2; 0]; [0; 2]]%Z).

(** What decoding [hot_pixel] with the identity codebook gives: the label,
    magnitude, normalized trace and distance of its one pixel, and the
    region of that pixel. *)
Definition hot_labels : ndarray Z := mk_ndarray [1; 1]%nat [0%Z].
Definition hot_magnitudes : ndarray npfloat := mk_ndarray [1; 1]%nat [Fin 5].
Definition hot_traces : ndarray npfloat :=
  mk_ndarray [2; 1; 1]%nat [Fin 1; Fin 0].
Definition hot_distances : ndarray npfloat := mk_ndarray [1; 1]%nat [Fin 0].
Definition hot_region : Skimage.RegionProperties :=
  Skimage.mk_region [[0; 0]]%nat (Some hot_magnitudes).

(** A codebook of one barcode on one bit with its decoder, and a 2 x 2
    image decoded to that barcode everywhere with magnitude 3. *)
Definition single : Codebook := mk_codebook (fun _ => [[1]]%Z).

Definition single_decoder : PixelBasedDecoder :=
  mk_decoder single (Array2 [[Fin 1]]) 1 1 [Fin 1] [Fin 0] 4.

Definition patch_image : ndarray Z := mk_ndarray [2; 2]%nat [0; 0; 0; 0]%Z.
Definition patch_magnitudes : ndarray npfloat :=
  mk_ndarray [2; 2]%nat (map Fin [3; 3; 3; 3]).
Definition patch_traces : ndarray npfloat :=
  mk_ndarray [1; 2; 2]%nat (map Fin [1; 1; 1; 1]).
Definition patch_region : Skimage.RegionProperties :=
  Skimage.mk_region [[0; 0]; [0; 1]; [1; 0]; [1; 1]]%nat None.

(** An index that lists what was inserted under which handle, and a
    dictionary that knows the cell [a] only. *)
Definition list_insert (tree : list (Z * Segment.SpatialFeature)) (num : Z)
  (box : list npfloat) (obj : Segment.SpatialFeature)
  : list (Z * Segment.SpatialFeature) * bool :=
  (tree ++ [(num, obj)], true).

Definition knows_a (id : string) : option Z :=
  if String.eqb id "a" then Some 0%Z else None.

(** A feature database that records the calls of [write_features]. *)
Definition WriteLog : Type := list (list Segment.SpatialFeature * Z).

Definition record_write (db : WriteLog) (features : list Segment.SpatialFeature)
  (fov : Z) : WriteLog := db ++ [(features, fov)].



(** Collaborators for the watershed task on a stack of one plane of two
    pixels: seeds 1 and 2, the second outside the watershed mask; a
    labelling and a watershed that give back the seeds; features that are
    the mask and the field of view they were built from. *)
Definition dark_image (fov channel : Z) (z : nat) : ndarray npfloat :=
  mk_ndarray [1; 2]%nat [Fin 0; Fin 0].

Definition first_channel (name : string) : option Z := Some 0%Z.

Definition two_seeds (images : list (ndarray npfloat)) : ndarray Z :=
  mk_ndarray [1; 1; 2]%nat [1; 2]%Z.

Definition left_mask (images : list (ndarray npfloat))
  : ndarray npfloat * ndarray bool :=
  (mk_ndarray [1; 1; 2]%nat [Fin 0; Fin 0],
   mk_ndarray [1; 1; 2]%nat [true; false]).

Definition same_labels (seeds : ndarray Z) : ndarray Z := seeds.

Definition seeds_stay (normalized : ndarray npfloat) (labels : ndarray Z)
  (mask : ndarray bool) : ndarray Z := labels.

Definition mask_feature (mask : ndarray bool) (fov : Z) (transform : unit)
  (zPos : list npfloat) : ndarray bool * Z := (mask, fov).

Definition keep_features (db : list (list (ndarray bool * Z) * Z))
  (features : list (ndarray bool * Z)) (fov : Z)
  : list (list (ndarray bool * Z) * Z) := db ++ [(features, fov)].

End Inputs.

Unset Implicit Arguments.

(* ------------------------------------------------------------------ *)
(** * Facts about the numeric model *)

Module NpFacts.

Import Np.
Open Scope R_scope.

Definition Rsum (l : list R) : R := fold_right Rplus 0 l.
Definition sumsq (l : list R) : R := Rsum (map (fun r => r * r) l).

Lemma fltb_Fin (a b : R) : fltb (Fin a) (Fin b) = true <-> a < b.
Proof.
  unfold fltb. destruct (Rlt_dec a b); split; intros; auto; try discriminate;
    contradiction.
Qed.

Lemma fltb_Fin_false (a b : R) : fltb (Fin a) (Fin b) = false <-> b <= a.
Proof.
  unfold fltb. destruct (Rlt_dec a b); split; intros; auto; try discriminate; lra.
Qed.

Lemma feqb_Fin (a b : R) : feqb (Fin a) (Fin b) = true <-> a = b.
Proof.
  unfold feqb. destruct (Req_dec_T a b); split; intros; auto; try discriminate;
    contradiction.
Qed.

Lemma feqb_Fin_false (a b : R) : feqb (Fin a) (Fin b) = false <-> a <> b.
Proof.
  unfold feqb. destruct (Req_dec_T a b); split; intros; auto; try discriminate;
    contradiction.
Qed.

Lemma fleb_Fin (a b : R) : fleb (Fin a) (Fin b) = true <-> a <= b.
Proof.
  unfold fleb. rewrite orb_true_iff, fltb_Fin, feqb_Fin. lra.
Qed.

Lemma feqb_eq (x y : npfloat) : feqb x y = true -> x = y.
Proof.
  destruct x, y; simpl; try discriminate; auto.
  destruct (Req_dec_T r r0); [now subst | discriminate].
Qed.

Lemma fdiv_Fin (a b : R) : b <> 0 -> fdiv (Fin a) (Fin b) = Fin (a / b).
Proof.
  intros Hb. unfold fdiv. destruct (Req_dec_T b 0); [contradiction | reflexivity].
Qed.

Lemma fdiv_zero_zero : fdiv (Fin 0) (Fin 0) = NaN.
Proof.
  unfold fdiv, inf_signed.
  destruct (Req_dec_T 0 0) as [_ | H]; [reflexivity | now elim H].
Qed.

Lemma fsqrt_Fin (a : R) : 0 <= a -> fsqrt (Fin a) = Fin (sqrt a).
Proof.
  intros Ha. unfold fsqrt. destruct (Rlt_dec a 0); [lra | reflexivity].
Qed.

Lemma fold_fadd_Fin (l : list R) (acc : R) :
  fold_left fadd (map Fin l) (Fin acc) = Fin (acc + Rsum l).
Proof.
  revert acc. induction l as [| r l IH]; intros acc; simpl.
  - f_equal. lra.
  - rewrite IH. f_equal. lra.
Qed.

Lemma fsum_Fin (l : list R) : fsum (map Fin l) = Fin (Rsum l).
Proof.
  unfold fsum. rewrite fold_fadd_Fin. f_equal. lra.
Qed.

Lemma squares_Fin (l : list R) :
  map (fun v => fmul v v) (map Fin l) = map Fin (map (fun r => r * r) l).
Proof. now rewrite !map_map. Qed.

Lemma sumsq_nonneg (l : list R) : 0 <= sumsq l.
Proof.
  unfold sumsq. induction l as [| r l IH]; simpl; [lra | nra].
Qed.

Lemma sumsq_zero (l : list R) : sumsq l = 0 <-> Forall (fun r => r = 0) l.
Proof.
  unfold sumsq. induction l as [| r l IH]; simpl.
  - split; auto.
  - pose proof (sumsq_nonneg l) as Hl. unfold sumsq in Hl. split.
    + intros H. assert (r * r = 0 /\ Rsum (map (fun r0 => r0 * r0) l) = 0)
        as [Hr Hs] by nra.
      constructor; [nra | now apply IH].
    + intros H. inversion H as [| ? ? Hr Hrest]; subst.
      apply IH in Hrest. rewrite Hrest. lra.
Qed.

Lemma norm_Fin (l : list R) : norm (map Fin l) = Fin (sqrt (sumsq l)).
Proof.
  unfold norm. rewrite squares_Fin, fsum_Fin.
  apply fsqrt_Fin, sumsq_nonneg.
Qed.

Lemma vscale_fdiv_Fin (l : list R) (n : R) :
  n <> 0 -> vscale fdiv (map Fin l) (Fin n) = map Fin (map (fun r => r / n) l).
Proof.
  intros Hn. unfold vscale. rewrite !map_map.
  apply map_ext. intros r. now apply fdiv_Fin.
Qed.

Lemma sumsq_scale (l : list R) (n : R) :
  n <> 0 -> sumsq (map (fun r => r / n) l) = sumsq l / (n * n).
Proof.
  intros Hn. unfold sumsq. induction l as [| r l IH]; simpl.
  - field. exact Hn.
  - rewrite IH. field. exact Hn.
Qed.

(** A vector divided by its (non-zero) Euclidean norm has norm 1. *)
Lemma unit_after_scaling (l : list R) :
  0 < sumsq l -> sqrt (sumsq (map (fun r => r / sqrt (sumsq l)) l)) = 1.
Proof.
  intros Hpos.
  assert (Hs : 0 < sqrt (sumsq l)) by now apply sqrt_lt_R0.
  rewrite sumsq_scale by lra.
  rewrite sqrt_sqrt by lra.
  replace (sumsq l / sumsq l) with 1 by (field; lra).
  apply sqrt_1.
Qed.

Lemma of_Z_rows (row : list Z) : map of_Z row = map Fin (map IZR row).
Proof. now rewrite map_map. Qed.

Lemma all_zero_IZR (row : list Z) :
  Forall (fun r => r = 0) (map IZR row) <-> Forall (fun v => v = 0%Z) row.
Proof.
  rewrite Forall_map. split; intros H; eapply Forall_impl; try exact H;
    simpl; intros v Hv.
  - now apply eq_IZR_R0.
  - now subst.
Qed.

Lemma mean_Fin (l : list R) :
  l <> [] -> mean (map Fin l) = Fin (Rsum l / INR (length l)).
Proof.
  intros Hl. unfold mean, of_nat. rewrite fsum_Fin, length_map.
  apply fdiv_Fin. apply not_0_INR. destruct l; [contradiction | discriminate].
Qed.

Lemma Fin_eq (a b : R) : a = b -> Fin a = Fin b.
Proof. now intros ->. Qed.

(** Equalities between lists of finite values, by real arithmetic. *)
Ltac fin_list :=
  repeat match goal with
         | |- Fin _ = Fin _ => apply Fin_eq; lra
         | |- _ :: _ = _ :: _ => f_equal
         | |- Some _ = Some _ => f_equal
         end.

End NpFacts.

(* ------------------------------------------------------------------ *)
(** * Facts about the labelling *)

Module SkimageFacts.

Import Np.
Import Skimage.

Lemma coord_eqb_eq (a b : coord) : coord_eqb a b = true <-> a = b.
Proof.
  unfold coord_eqb. destruct (list_eq_dec Nat.eq_dec a b); split; intros;
    auto; try discriminate; contradiction.
Qed.

Lemma mem_In (c : coord) (l : list coord) : mem c l = true <-> In c l.
Proof.
  unfold mem. rewrite existsb_exists. split.
  - intros (x & Hx & Heq). apply coord_eqb_eq in Heq. now subst.
  - intros H. exists c. split; [exact H | now apply coord_eqb_eq].
Qed.

Lemma adjacent_refl (a : coord) : adjacent a a = true.
Proof.
  induction a as [| i a IH]; simpl; [reflexivity |].
  rewrite IH, andb_true_r, andb_true_iff, !Nat.leb_le. lia.
Qed.

Lemma grow_incl (n : nat) (fg comp : list coord) (q : coord) :
  incl comp fg -> In q comp -> In q (grow n fg comp).
Proof.
  revert comp. induction n as [| n IH]; intros comp Hincl Hq; simpl; [exact Hq |].
  apply IH.
  - intros x Hx. apply filter_In in Hx. tauto.
  - apply filter_In. split; [now apply Hincl |].
    apply existsb_exists. exists q. split; [exact Hq | apply adjacent_refl].
Qed.

Lemma grow_within (n : nat) (fg comp : list coord) :
  incl comp fg -> incl (grow n fg comp) fg.
Proof.
  revert comp. induction n as [| n IH]; intros comp Hincl; simpl; [exact Hincl |].
  apply IH. intros x Hx. apply filter_In in Hx. tauto.
Qed.

Lemma filter_length_lt {A : Type} (f : A -> bool) (a : A) (l : list A) :
  f a = false -> (length (filter f (a :: l)) <= length l)%nat.
Proof.
  intros Hf. simpl. rewrite Hf. apply filter_length_le.
Qed.

(** The rounds of [components] are enough: with as many rounds as there
    are foreground pixels, every foreground pixel is in a component. *)
Lemma components_cover (fuel : nat) (fg : list coord) (q : coord) :
  (length fg <= fuel)%nat -> In q fg ->
  exists comp, In comp (components fuel fg) /\ In q comp.
Proof.
  revert fg. induction fuel as [| fuel IH]; intros fg Hlen Hq.
  - destruct fg; [contradiction | simpl in Hlen; lia].
  - destruct fg as [| p rest]; [contradiction |].
    cbn [components].
    set (comp := grow (length (p :: rest)) (p :: rest) [p]).
    destruct (mem q comp) eqn:Hmem.
    + exists comp. split; [now left | now apply mem_In].
    + assert (Hp : In p comp).
      { apply grow_incl; [| now left].
        intros x [<- | []]. now left. }
      destruct (IH (filter (fun q0 => negb (mem q0 comp)) (p :: rest)))
        as (c & Hc & Hqc).
      * assert (Hpm : negb (mem p comp) = false)
          by (apply negb_false_iff, mem_In, Hp).
        pose proof (filter_length_lt (fun q0 => negb (mem q0 comp)) p rest Hpm).
        simpl in Hlen. lia.
      * apply filter_In. split; [exact Hq | now rewrite Hmem].
      * exists c. split; [now right | exact Hqc].
Qed.

(** The components hold foreground pixels only. *)
Lemma components_within (fuel : nat) (fg : list coord) (comp : list coord) :
  In comp (components fuel fg) -> incl comp fg.
Proof.
  revert fg. induction fuel as [| fuel IH]; intros fg; [intros [] |].
  destruct fg as [| p rest]; [intros [] |].
  cbn [components]. intros [<- | Hin].
  - apply grow_within. intros x [<- | []]. now left.
  - intros x Hx. apply (IH _ Hin) in Hx. apply filter_In in Hx. tauto.
Qed.

End SkimageFacts.

(* ------------------------------------------------------------------ *)
(** * The decoder: construction and the decoding matrix *)

Module DecoderFacts.

Import Np.
Import Exc.
Import Decoding.
Import Examples.
Import NpFacts.
Open Scope R_scope.

Lemma normalize_length (v : list npfloat) : length (normalize v) = length v.
Proof.
  unfold normalize. destruct (fltb (Fin 0) (norm v)); [| reflexivity].
  unfold vscale. apply length_map.
Qed.

Lemma map_combine_map {A B C : Type} (f : A * B -> C) (g : A -> B) (l : list A) :
  map f (combine l (map g l)) = map (fun a => f (a, g a)) l.
Proof.
  induction l as [| a l IH]; simpl; [reflexivity | now rewrite IH].
Qed.

(** Without the error variants the decoding matrix is the list of the
    normalized barcodes. *)
Lemma weighted_barcodes (cb : Codebook) (ignoreBlanks : bool) :
  _calculate_normalized_barcodes cb ignoreBlanks false =
  Array2 (map (fun b => normalize (map of_Z b)) (get_barcodes cb ignoreBlanks)).
Proof.
  unfold _calculate_normalized_barcodes. simpl.
  now rewrite map_combine_map.
Qed.

(** Construction succeeds as soon as the codebook has a barcode, whatever
    scale factors and backgrounds are supplied. *)
Lemma init_some (cb : Codebook) (sf bg : option (list npfloat)) :
  get_barcodes cb false <> [] ->
  exists dec, __init__ cb sf bg = Some dec.
Proof.
  intros Hne. unfold __init__. rewrite weighted_barcodes.
  destruct (get_barcodes cb false) as [| b bs]; [contradiction |].
  simpl. eexists. reflexivity.
Qed.

Lemma init_fields (cb : Codebook) (sf bg : option (list npfloat))
  (dec : PixelBasedDecoder) :
  __init__ cb sf bg = Some dec ->
  exists b bs,
    get_barcodes cb false = b :: bs /\
    _decodingMatrix dec =
      Array2 (map (fun r => normalize (map of_Z r)) (b :: bs)) /\
    _barcodeCount dec = length (b :: bs) /\
    _bitCount dec = length b /\
    _scaleFactors dec =
      match sf with Some s => s | None => repeat (Fin 1) (length b) end /\
    _backgrounds dec =
      match bg with Some s => s | None => repeat (Fin 0) (length b) end /\
    refactorAreaThreshold dec = 4%nat.
Proof.
  unfold __init__. rewrite weighted_barcodes.
  destruct (get_barcodes cb false) as [| b bs]; simpl; [discriminate |].
  intros H. injection H as <-. simpl.
  exists b, bs. rewrite normalize_length, !length_map.
  repeat split; reflexivity.
Qed.

Lemma normalize_zero (row : list Z) :
  Forall (fun v => v = 0%Z) row -> normalize (map of_Z row) = map of_Z row.
Proof.
  intros Hz. unfold normalize. rewrite of_Z_rows, norm_Fin.
  apply all_zero_IZR, sumsq_zero in Hz. rewrite Hz, sqrt_0.
  now rewrite (proj2 (fltb_Fin_false 0 0)) by lra.
Qed.

Lemma normalize_unit (row : list Z) :
  ~ Forall (fun v => v = 0%Z) row -> norm (normalize (map of_Z row)) = Fin 1.
Proof.
  intros Hnz. unfold normalize. rewrite of_Z_rows, norm_Fin.
  assert (Hpos : 0 < sumsq (map IZR row)).
  { pose proof (sumsq_nonneg (map IZR row)) as H0.
    destruct (Req_dec_T (sumsq (map IZR row)) 0) as [E | E]; [| lra].
    exfalso. apply Hnz. now apply all_zero_IZR, sumsq_zero. }
  assert (Hs : 0 < sqrt (sumsq (map IZR row))) by now apply sqrt_lt_R0.
  rewrite (proj2 (fltb_Fin 0 _)) by exact Hs.
  rewrite vscale_fdiv_Fin by lra.
  rewrite norm_Fin. f_equal. now apply unit_after_scaling.
Qed.

(** C3.  Every row of the decoding matrix built when a decoder is
    constructed is the corresponding barcode of the codebook divided by
    its L2 norm, so its L2 norm is 1; the rows of all-zero barcodes are
    left as they are. *)
Theorem decoding_matrix_rows_unit_norm (cb : Codebook)
  (sf bg : option (list npfloat)) (dec : PixelBasedDecoder)
  (i : nat) (row : list Z) :
  __init__ cb sf bg = Some dec ->
  nth_error (get_barcodes cb false) i = Some row ->
  exists rows row',
    _decodingMatrix dec = Array2 rows /\
    length rows = length (get_barcodes cb false) /\
    nth_error rows i = Some row' /\
    (Forall (fun v => v = 0%Z) row -> row' = map of_Z row) /\
    (~ Forall (fun v => v = 0%Z) row -> norm row' = Fin 1).
Proof.
  intros Hinit Hrow.
  destruct (init_fields _ _ _ _ Hinit) as (b & bs & Hcb & Hm & _).
  rewrite Hcb in *.
  exists (map (fun r => normalize (map of_Z r)) (b :: bs)),
         (normalize (map of_Z row)).
  split; [exact Hm |]. split; [apply length_map |].
  split; [now rewrite nth_error_map, Hrow |].
  split; [apply normalize_zero | apply normalize_unit].
Qed.

Lemma decoding_matrix_rows_unit_norm_witness :
  exists dec rows row',
    __init__ identity2 None None = Some dec /\
    _decodingMatrix dec = Array2 rows /\
    nth_error rows 0 = Some row' /\
    norm row' = Fin 1.
Proof.
  destruct (@init_some identity2 None None) as [dec Hdec];
    [discriminate |].
  destruct (@decoding_matrix_rows_unit_norm identity2 None None dec 0%nat
              [1; 0]%Z Hdec eq_refl)
    as (rows & row' & Hm & _ & Hnth & _ & Hunit).
  exists dec, rows, row'. repeat split; auto.
  apply Hunit. intros H. inversion H. discriminate.
Defined.

(** C4, as the code has it: construction does not compare the lengths.
    Whatever scale factors and backgrounds are supplied, a decoder is
    built as soon as the codebook has a barcode, and it stores the
    supplied vectors as they are, next to the bit count of the codebook. *)
Theorem init_does_not_check_lengths (cb : Codebook)
  (scaleFactors backgrounds : list npfloat) :
  get_barcodes cb false <> [] ->
  exists dec,
    __init__ cb (Some scaleFactors) (Some backgrounds) = Some dec /\
    _scaleFactors dec = scaleFactors /\
    _backgrounds dec = backgrounds /\
    _bitCount dec = length (hd [] (get_barcodes cb false)).
Proof.
  intros Hne.
  destruct (init_some cb (Some scaleFactors) (Some backgrounds) Hne)
    as [dec Hdec].
  destruct (init_fields _ _ _ _ Hdec) as (b & bs & Hcb & _ & _ & Hbits & Hs & Hb & _).
  exists dec. rewrite Hcb. simpl. auto.
Qed.

Lemma init_does_not_check_lengths_witness :
  exists dec,
    __init__ identity2 (Some [Fin 1; Fin 1; Fin 1]) (Some [Fin 0]) = Some dec /\
    _scaleFactors dec = [Fin 1; Fin 1; Fin 1] /\
    _backgrounds dec = [Fin 0] /\
    _bitCount dec = 2%nat.
Proof.
  apply (@init_does_not_check_lengths identity2 [Fin 1; Fin 1; Fin 1] [Fin 0]).
  discriminate.
Defined.

(** C4 as the specification states it fails: with a codebook of two bits,
    three scale factors and one background, construction returns a decoder
    instead of raising. *)
Lemma init_accepts_wrong_lengths :
  ~ (forall (cb : Codebook) (sf bg : list npfloat) (b : list Z),
       hd_error (get_barcodes cb false) = Some b ->
       length sf <> length b \/ length bg <> length b ->
       __init__ cb (Some sf) (Some bg) = None).
Proof.
  intros H.
  specialize (H identity2 [Fin 1; Fin 1; Fin 1] [Fin 0] [1; 0]%Z eq_refl).
  destruct (@init_some identity2 (Some [Fin 1; Fin 1; Fin 1]) (Some [Fin 0]))
    as [dec Hdec]; [discriminate |].
  rewrite H in Hdec; [discriminate |].
  left. simpl. lia.
Qed.

(** ** The decoding matrix with single-bit errors *)

Lemma zero_variant_magnitude : row_magnitude [0; 0]%Z = Fin 0.
Proof.
  unfold row_magnitude. rewrite of_Z_rows, squares_Fin, fsum_Fin.
  rewrite fsqrt_Fin by (simpl; lra).
  f_equal. replace (Rsum _) with 0 by (simpl; lra). apply sqrt_0.
Qed.

(** With the error variants the result is a list of matrices, one per
    barcode, each with one row more than the barcode has bits. *)
Lemma error_blocks (cb : Codebook) (ignoreBlanks : bool) :
  exists blocks,
    _calculate_normalized_barcodes cb ignoreBlanks true = Array3 blocks /\
    length blocks = length (get_barcodes cb ignoreBlanks) /\
    Forall2 (fun b block => length block = S (length b))
            (get_barcodes cb ignoreBlanks) blocks.
Proof.
  unfold _calculate_normalized_barcodes. simpl.
  eexists. split; [reflexivity |]. split; [apply length_map |].
  induction (get_barcodes cb ignoreBlanks) as [| b bs IH];
    [constructor |].
  rewrite map_cons. constructor; [| exact IH].
  cbn [length].
  rewrite length_map, length_combine, !length_map, length_seq. lia.
Qed.

(** C5, on the codebook [10], [01] with [includeErrors] set.  The code
    returns an array of three axes, of shape (2, 3, 2): its first axis has
    one entry per barcode, not the 2 * (2 + 1) = 6 rows of a stack of
    candidate vectors.  The variant that flips the only bit of a barcode
    is the zero vector: it is divided by its norm 0 and becomes a row of
    [nan], whose norm is not 1. *)
Theorem error_variants_not_a_stack_of_unit_rows :
  exists r0 r2 s0 s1,
    _calculate_normalized_barcodes identity2 false true =
      Array3 [[r0; [NaN; NaN]; r2]; [s0; s1; [NaN; NaN]]] /\
    array_shape (_calculate_normalized_barcodes identity2 false true) =
      [2; 3; 2]%nat /\
    norm [NaN; NaN] = NaN.
Proof.
  unfold _calculate_normalized_barcodes.
  with_strategy opaque [row_magnitude vscale] simpl.
  change (flip_bit [1; 0]%Z 0) with [0; 0]%Z.
  change (flip_bit [0; 1]%Z 1) with [0; 0]%Z.
  rewrite !zero_variant_magnitude.
  change (vscale fdiv [of_Z 0; of_Z 0] (Fin 0))
    with [fdiv (Fin 0) (Fin 0); fdiv (Fin 0) (Fin 0)].
  rewrite !fdiv_zero_zero.
  do 4 eexists. split; [reflexivity |]. split; reflexivity.
Qed.

(** ** The decoder of the example codebook *)

Lemma normalize_10 : normalize [of_Z 1; of_Z 0] = [Fin 1; Fin 0].
Proof.
  unfold normalize. change [of_Z 1; of_Z 0] with (map Fin [1; 0]).
  rewrite norm_Fin.
  replace (sumsq [1; 0]) with 1 by (unfold sumsq; simpl; lra).
  rewrite sqrt_1, (proj2 (fltb_Fin 0 1)) by lra.
  rewrite vscale_fdiv_Fin by lra. simpl.
  repeat f_equal; lra.
Qed.

Lemma normalize_01 : normalize [of_Z 0; of_Z 1] = [Fin 0; Fin 1].
Proof.
  unfold normalize. change [of_Z 0; of_Z 1] with (map Fin [0; 1]).
  rewrite norm_Fin.
  replace (sumsq [0; 1]) with 1 by (unfold sumsq; simpl; lra).
  rewrite sqrt_1, (proj2 (fltb_Fin 0 1)) by lra.
  rewrite vscale_fdiv_Fin by lra. simpl.
  repeat f_equal; lra.
Qed.

Lemma init_identity2 : __init__ identity2 None None = Some identity2_decoder.
Proof.
  unfold __init__. rewrite weighted_barcodes.
  with_strategy opaque [normalize] simpl.
  rewrite normalize_10, normalize_01. reflexivity.
Qed.

End DecoderFacts.

(* ------------------------------------------------------------------ *)
(** * decode_pixels *)

Module DecodeFacts.

Import Np.
Import Exc.
Import Decoding.
Import Examples.
Import NpFacts.
Open Scope R_scope.

Lemma nth_error_combine {A B : Type} (a : list A) (b : list B) (n : nat)
  (u : A) (v : B) :
  nth_error (combine a b) n = Some (u, v) <->
  nth_error a n = Some u /\ nth_error b n = Some v.
Proof.
  revert b n. induction a as [| x a IH]; intros [| y b] [| n]; simpl;
    try (split; [discriminate | intros [? ?]; discriminate]).
  - split; [intros [= -> ->]; auto | intros [[= ->] [= ->]]; auto].
  - apply IH.
Qed.

Lemma nth_error_map_some {A B : Type} (f : A -> B) (l : list A) (n : nat) (b : B) :
  nth_error (map f l) n = Some b ->
  exists a, nth_error l n = Some a /\ b = f a.
Proof.
  rewrite nth_error_map. destruct (nth_error l n) as [a |]; simpl;
    [intros [= <-]; eauto | discriminate].
Qed.


Lemma pixel_magnitude_zero (trace : list npfloat) :
  norm trace = Fin 0 -> pixel_magnitude trace = Fin 1.
Proof.
  intros H. unfold pixel_magnitude. rewrite H.
  now rewrite (proj2 (feqb_Fin 0 0)).
Qed.

(** A pixel whose scaled trace has norm 0 is compared with the magnitude
    threshold as a pixel of magnitude 1. *)
Lemma zero_trace_compared_as_one (trace : list npfloat) (threshold : npfloat) :
  norm trace = Fin 0 ->
  fltb (pixel_magnitude trace) threshold = fltb (Fin 1) threshold.
Proof.
  intros H. now rewrite pixel_magnitude_zero.
Qed.

(** *** The example: one pixel with its first bit lit *)

Lemma scaled_hot_pixel :
  scaled_pixel_traces no_blur hot_pixel [Fin 1; Fin 1] [Fin 0; Fin 0] 1
  = [[Fin 5; Fin 0]].
Proof.
  unfold scaled_pixel_traces, scaled_rows, filtered_images, no_blur.
  with_strategy opaque [fdiv] simpl.
  rewrite !fdiv_Fin by lra.
  unfold transpose, column. simpl.
  repeat f_equal; lra.
Qed.

Lemma scaled_hot_pixel_at :
  nth_error (scaled_pixel_traces no_blur hot_pixel [Fin 1; Fin 1]
                                 [Fin 0; Fin 0] default_lowPassSigma) 0
  = Some [Fin 5; Fin 0].
Proof. unfold default_lowPassSigma. now rewrite scaled_hot_pixel. Qed.

Lemma magnitude_hot_pixel : pixel_magnitude [Fin 5; Fin 0] = Fin 5.
Proof.
  unfold pixel_magnitude. change [Fin 5; Fin 0] with (map Fin [5; 0]).
  rewrite norm_Fin.
  replace (sumsq [5; 0]) with (5 * 5) by (unfold sumsq; simpl; lra).
  rewrite sqrt_square by lra.
  now rewrite (proj2 (feqb_Fin_false 5 0)) by lra.
Qed.

Lemma euclidean_Fin (a b : list R) :
  euclidean (map Fin a) (map Fin b)
  = Fin (sqrt (sumsq (map (fun ab => fst ab - snd ab) (combine a b)))).
Proof.
  unfold euclidean, vmap2.
  replace (map _ (combine (map Fin a) (map Fin b)))
    with (map Fin (map (fun ab => fst ab - snd ab) (combine a b))).
  - apply norm_Fin.
  - revert b. induction a as [| x a IH]; intros [| y b]; simpl; auto.
    now rewrite IH.
Qed.

Lemma nearest_hot_pixel :
  nearest_row (Array2 [[Fin 1; Fin 0]; [Fin 0; Fin 1]]) [Fin 1; Fin 0]
  = (Fin 0, 0%Z).
Proof.
  unfold nearest_row.
  with_strategy opaque [euclidean] simpl.
  change [Fin 1; Fin 0] with (map Fin [1; 0]).
  change [Fin 0; Fin 1] with (map Fin [0; 1]).
  rewrite !euclidean_Fin.
  assert (E0 : sumsq (map (fun ab => fst ab - snd ab)
                          (combine [1; 0] [1; 0])) = 0)
    by (unfold sumsq; simpl; lra).
  assert (E2 : sumsq (map (fun ab => fst ab - snd ab)
                          (combine [1; 0] [0; 1])) = 2)
    by (unfold sumsq; simpl; lra).
  rewrite E0, E2, sqrt_0. cbn [fst snd].
  rewrite (proj2 (fltb_Fin_false (sqrt 2) 0)) by (pose proof Rlt_sqrt2_0; lra).
  reflexivity.
Qed.

(** The pixel (5, 0) decodes to barcode 0 with magnitude 5 and distance 0. *)
Lemma decode_hot_pixel :
  decode_pixels no_blur nearest_row identity2_decoder hot_pixel None None
                default_distanceThreshold default_magnitudeThreshold
                default_lowPassSigma
  = Some (mk_ndarray [1; 1]%nat [0%Z],
          mk_ndarray [1; 1]%nat [Fin 5],
          mk_ndarray [2; 1; 1]%nat [Fin 1; Fin 0],
          mk_ndarray [1; 1]%nat [Fin 0]).
Proof.
  unfold decode_pixels, default_lowPassSigma.
  cbn [_scaleFactors _backgrounds identity2_decoder _decodingMatrix].
  rewrite scaled_hot_pixel.
  assert (Hrows : length (scaled_rows no_blur hot_pixel [Fin 1; Fin 1]
                                      [Fin 0; Fin 0] 1) = 2%nat) by reflexivity.
  rewrite Hrows.
  cbn [map combine]. rewrite magnitude_hot_pixel.
  cbn [fst snd].
  replace (vscale fdiv [Fin 5; Fin 0] (Fin 5)) with [Fin 1; Fin 0].
  2:{ unfold vscale. cbn [map]. rewrite !fdiv_Fin by lra.
      repeat f_equal; field. }
  rewrite nearest_hot_pixel.
  cbn [fst snd map combine hot_pixel shape hd tl prod fold_right Nat.mul
       Nat.eqb negb].
  unfold default_distanceThreshold, default_magnitudeThreshold.
  rewrite (proj2 (fleb_Fin 0 0.5176)) by lra.
  rewrite (proj2 (fltb_Fin_false 5 1)) by lra.
  reflexivity.
Qed.

(** *** The thresholds and the magnitude, for every collaborator *)

Section Decode.

Variable GaussianBlur : ndarray npfloat -> Z * Z -> R -> ndarray npfloat.
Variable kneighbors : array23 -> list npfloat -> npfloat * Z.

(** [decode_pixels] returns as soon as the scaled traces have the size of
    the input stack: whether it fails does not depend on the value of any
    pixel. *)
Lemma decode_pixels_fails_only_on_reshape (self : PixelBasedDecoder)
  (imageData : ndarray npfloat) (scaleFactors backgrounds : option (list npfloat))
  (distanceThreshold magnitudeThreshold : npfloat) (lowPassSigma : R) :
  let sf := match scaleFactors with None => _scaleFactors self | Some s => s end in
  let bg := match backgrounds with None => _backgrounds self | Some b => b end in
  (length (scaled_rows GaussianBlur imageData sf bg lowPassSigma)
   * prod (tl (shape imageData))
   = hd O (shape imageData) * prod (tl (shape imageData)))%nat <->
  exists result,
    decode_pixels GaussianBlur kneighbors self imageData scaleFactors
                  backgrounds distanceThreshold magnitudeThreshold lowPassSigma
    = Some result.
Proof.
  intros sf bg. unfold decode_pixels. fold sf bg.
  destruct (Nat.eqb_spec
              (length (scaled_rows GaussianBlur imageData sf bg lowPassSigma)
               * prod (tl (shape imageData)))
              (hd O (shape imageData) * prod (tl (shape imageData))))
    as [Heq | Hneq]; cbn [negb].
  - split; [intros _; eexists; reflexivity | intros _; exact Heq].
  - split; [intros H; contradiction | intros [r Hr]; discriminate].
Qed.

(** C1.  In the images that [decode_pixels] returns, a pixel whose label
    is not -1 has a stored distance that is at most the distance
    threshold, and a pixel whose magnitude (as computed before the traces
    are normalized, and as returned) is below the magnitude threshold has
    the label -1.  That magnitude is the norm of the scaled trace of the
    pixel, with 1 in the place of a norm 0. *)
Theorem decoded_labels_respect_thresholds (self : PixelBasedDecoder)
  (imageData : ndarray npfloat) (scaleFactors backgrounds : option (list npfloat))
  (distanceThreshold magnitudeThreshold : npfloat) (lowPassSigma : R)
  (decodedImage : ndarray Z) (pixelMagnitudes traces distances : ndarray npfloat)
  (p : nat) (lbl : Z) :
  decode_pixels GaussianBlur kneighbors self imageData scaleFactors backgrounds
                distanceThreshold magnitudeThreshold lowPassSigma
    = Some (decodedImage, pixelMagnitudes, traces, distances) ->
  nth_error (data decodedImage) p = Some lbl ->
  exists m d,
    nth_error (data pixelMagnitudes) p = Some m /\
    nth_error (data distances) p = Some d /\
    (lbl <> (-1)%Z -> fleb d distanceThreshold = true) /\
    (fltb m magnitudeThreshold = true -> lbl = (-1)%Z) /\
    (forall trace,
        nth_error
          (scaled_pixel_traces GaussianBlur imageData
             match scaleFactors with None => _scaleFactors self | Some s => s end
             match backgrounds with None => _backgrounds self | Some b => b end
             lowPassSigma) p = Some trace ->
        m = pixel_magnitude trace).
Proof.
  unfold decode_pixels.
  destruct (negb _); [discriminate |].
  intros [= <- <- <- <-]. cbn [data].
  intros Hl.
  apply nth_error_map_some in Hl as ([l0 m] & Hl & ->).
  apply nth_error_combine in Hl as [Hl0 Hm].
  apply nth_error_map_some in Hl0 as ([i d] & Hid & ->).
  apply nth_error_combine in Hid as [Hi Hd].
  exists m, d. cbn [fst snd]. repeat split; auto.
  - destruct (fltb m magnitudeThreshold); [congruence |].
    destruct (fleb d distanceThreshold); [reflexivity | congruence].
  - intros ->. reflexivity.
  - intros trace Htrace. rewrite nth_error_map, Htrace in Hm.
    now injection Hm as <-.
Qed.


End Decode.

Lemma decoded_labels_respect_thresholds_witness :
  exists m d,
    nth_error [Fin 5] 0 = Some m /\
    nth_error [Fin 0] 0 = Some d /\
    (0%Z <> (-1)%Z -> fleb d default_distanceThreshold = true) /\
    (fltb m default_magnitudeThreshold = true -> 0%Z = (-1)%Z) /\
    (forall trace,
        nth_error
          (scaled_pixel_traces no_blur hot_pixel [Fin 1; Fin 1] [Fin 0; Fin 0]
                               default_lowPassSigma) 0 = Some trace ->
        m = pixel_magnitude trace).
Proof.
  exact (@decoded_labels_respect_thresholds no_blur nearest_row
           identity2_decoder hot_pixel None None default_distanceThreshold
           default_magnitudeThreshold default_lowPassSigma
           _ _ _ _ 0%nat 0%Z decode_hot_pixel eq_refl).
Defined.


End DecodeFacts.

(* ------------------------------------------------------------------ *)
(** * extract_barcodes_with_index *)

Module ExtractFacts.

Import Np.
Import Exc.
Import Decoding.
Import Examples.
Import NpFacts.
Open Scope R_scope.

Lemma comprehension_In {A B : Type} (cond : A -> option bool)
  (f : A -> option B) (l : list A) (r : list B) (b : B) :
  comprehension cond f l = Some r -> In b r ->
  exists a, In a l /\ cond a = Some true /\ f a = Some b.
Proof.
  revert r. induction l as [| a l IH]; intros r; simpl.
  - intros [= <-] [].
  - unfold bind at 1. destruct (cond a) as [[|] |] eqn:Hc; try discriminate.
    + unfold bind. destruct (f a) as [b' |] eqn:Hf; [| discriminate].
      destruct (comprehension cond f l) as [bs |] eqn:Hl; [| discriminate].
      intros [= <-] [<- | Hin].
      * exists a. auto.
      * destruct (IH bs eq_refl Hin) as (a' & ? & ? & ?). exists a'. auto.
    + intros Hr Hin. destruct (IH r Hr Hin) as (a' & ? & ? & ?).
      exists a'. auto.
Qed.

Ltac inv_bind H :=
  unfold bind in H;
  repeat match type of H with
         | match ?e with Some _ => _ | None => _ end = Some _ =>
             let E := fresh "E" in destruct e eqn:E; [| discriminate H]
         end.

(** What [_bc_properties_to_dict] puts in a record. *)
Lemma dict_fields (p : Skimage.RegionProperties) (bcIndex fov : Z)
  (distances pixelTraces : ndarray npfloat) (zIndex : option Z)
  (globalAligner : option Aligner) (segmenter : option Segmenter)
  (info : BarcodeInfo) :
  _bc_properties_to_dict p bcIndex fov distances pixelTraces zIndex
                         globalAligner segmenter = Some info ->
  exists inputCentroid globalCentroid,
    Skimage.weighted_centroid p = Some inputCentroid /\
    [z info; x info; y info] =
      (if (length inputCentroid =? 2)%nat
       then [option_map of_Z zIndex; nth_error inputCentroid 1;
             nth_error inputCentroid 0]
       else [nth_error inputCentroid 0; nth_error inputCentroid 2;
             nth_error inputCentroid 1]) /\
    globalCentroid =
      match globalAligner with
      | Some aligner => aligner fov [z info; x info; y info]
      | None => [z info; x info; y info]
      end /\
    nth_error globalCentroid 0 = Some (global_z info) /\
    nth_error globalCentroid 1 = Some (global_x info) /\
    nth_error globalCentroid 2 = Some (global_y info) /\
    cell_index info =
      match segmenter with
      | Some seg => seg (global_z info) (global_x info)
      | None => Some (-1)%Z
      end /\
    barcode_id info = bcIndex /\
    area info = Skimage.area p.
Proof.
  unfold _bc_properties_to_dict. intros H.
  unfold bind in H at 1.
  destruct (Skimage.weighted_centroid p) as [ic |] eqn:Hic; [| discriminate].
  unfold bind in H at 1.
  match type of H with
  | match ?e with Some _ => _ | None => _ end = _ =>
      destruct e as [centroid |] eqn:Hc; [| discriminate]
  end.
  assert (Hcent : exists a b c, centroid = [a; b; c] /\
            [a; b; c] =
            (if (length ic =? 2)%nat
             then [option_map of_Z zIndex; nth_error ic 1; nth_error ic 0]
             else [nth_error ic 0; nth_error ic 2; nth_error ic 1])).
  { destruct (length ic =? 2)%nat; inv_bind Hc; injection Hc as <-;
      do 3 eexists; split; reflexivity. }
  destruct Hcent as (a & b & c & -> & Hshape).
  inv_bind H.
  injection H as <-. cbn [z x y global_x global_y global_z cell_index
                            barcode_id area].
  repeat match goal with
         | E : nth_error [_; _; _] _ = Some _ |- _ =>
             simpl in E; injection E as <-
         end.
  eexists ic, _. split; [reflexivity |]. split; [exact Hshape |].
  split; [reflexivity |].
  repeat split; auto.
  destruct segmenter as [seg |]; congruence.
Qed.

(** The records returned by [extract_barcodes_with_index] are those of
    the regions that pass the two tests of the comprehension. *)
Lemma extracted_record (barcodeIndex : Z) (decodedImage : ndarray Z)
  (pixelMagnitudes pixelTraces distances : ndarray npfloat)
  (fov : Z) (cropWidth : npfloat) (zIndex : option Z)
  (globalAligner : option Aligner) (segmenter : option Segmenter)
  (minimumArea : Z) (result : list BarcodeInfo) (info : BarcodeInfo) :
  extract_barcodes_with_index barcodeIndex decodedImage pixelMagnitudes
    pixelTraces distances fov cropWidth zIndex globalAligner segmenter
    minimumArea = Some result ->
  In info result ->
  exists p regions,
    Skimage.regionprops (Skimage.label (eq_mask decodedImage barcodeIndex))
                        (Some pixelMagnitudes) = Some regions /\
    In p regions /\
    _position_within_crop (Skimage.centroid p) cropWidth (shape decodedImage)
      = Some true /\
    (minimumArea <= Z.of_nat (Skimage.area p))%Z /\
    _bc_properties_to_dict p barcodeIndex fov distances pixelTraces zIndex
                           globalAligner segmenter = Some info.
Proof.
  unfold extract_barcodes_with_index. unfold bind at 1.
  destruct (Skimage.regionprops _ _) as [regions |]; [| discriminate].
  intros Hres Hin.
  destruct (comprehension_In _ _ _ _ _ Hres Hin) as (p & Hp & Hcond & Hdict).
  exists p, regions. split; [reflexivity |]. split; [exact Hp |].
  unfold bind in Hcond.
  destruct (_position_within_crop _ _ _) as [[|] |]; try discriminate.
  injection Hcond as Hc. simpl in Hc. apply Z.leb_le in Hc. auto.
Qed.

Lemma crop_chain_true (position : list npfloat) (cropWidth : npfloat)
  (imageSize : list nat) (k : nat) :
  crop_chain position cropWidth imageSize k = Some true ->
  exists pk sk,
    nth_error position k = Some pk /\ nth_error imageSize k = Some sk /\
    fltb cropWidth pk = true /\ fltb pk (fsub (of_nat sk) cropWidth) = true.
Proof.
  unfold crop_chain, bind.
  destruct (nth_error position k) as [pk |]; [| discriminate].
  destruct (fltb cropWidth pk) eqn:Hlow; [| discriminate].
  destruct (nth_error imageSize k) as [sk |]; [| discriminate].
  intros [= Hhigh]. exists pk, sk. auto.
Qed.

Lemma within_crop_true (position : list npfloat) (cropWidth : npfloat)
  (imageSize : list nat) :
  _position_within_crop position cropWidth imageSize = Some true ->
  let i := if (length position =? 2)%nat then 0%nat else 1%nat in
  crop_chain position cropWidth imageSize i = Some true /\
  crop_chain position cropWidth imageSize (S i) = Some true.
Proof.
  unfold _position_within_crop, bind.
  destruct (length position =? 2)%nat; simpl;
    match goal with
    | |- match ?e with Some _ => _ | None => _ end = _ -> _ =>
        destruct e as [[|] |]; try discriminate; auto
    end.
Qed.

(** *** The example: a strip with a bright end *)

Lemma strip_regions :
  Skimage.regionprops (Skimage.label (eq_mask strip_image 0))
                      (Some strip_magnitudes) = Some [strip_region].
Proof. reflexivity. Qed.

(** The centroid of the strip is at column 3/2 ... *)
Lemma strip_centroid : Skimage.centroid strip_region = [Fin 2; Fin (3/2)].
Proof.
  unfold Skimage.centroid, Skimage.axis_values, strip_region, of_nat.
  cbn [Skimage.ndim Skimage.coords length seq map nth].
  change [Fin (INR 2); Fin (INR 2); Fin (INR 2); Fin (INR 2)]
    with (map Fin [INR 2; INR 2; INR 2; INR 2]).
  change [Fin (INR 0); Fin (INR 1); Fin (INR 2); Fin (INR 3)]
    with (map Fin [INR 0; INR 1; INR 2; INR 3]).
  rewrite !mean_Fin by discriminate.
  simpl. fin_list.
Qed.

Lemma strip_within_crop :
  _position_within_crop (Skimage.centroid strip_region) (Fin 1)
                        (shape strip_image) = Some true.
Proof.
  rewrite strip_centroid.
  unfold _position_within_crop, crop_chain, bind, of_nat.
  cbn [length Nat.eqb nth_error strip_image shape fsub fopp fadd].
  rewrite !(proj2 (fltb_Fin _ _)); try reflexivity; simpl; lra.
Qed.

Lemma vmap2_fmul_Fin (a b : list R) :
  vmap2 fmul (map Fin a) (map Fin b)
  = map Fin (map (fun ab => fst ab * snd ab) (combine a b)).
Proof.
  unfold vmap2. revert b. induction a as [| u a IH]; intros [| v b]; simpl; auto.
  now rewrite IH.
Qed.

Lemma strip_intensities :
  Skimage.intensities strip_region = Some (map Fin [9; 1; 1; 1]).
Proof. reflexivity. Qed.

(** ... and its centroid weighted by the magnitudes at column 1/2. *)
Lemma strip_weighted_centroid :
  Skimage.weighted_centroid strip_region = Some [Fin 2; Fin (1/2)].
Proof.
  unfold Skimage.weighted_centroid. rewrite strip_intensities.
  unfold Skimage.axis_values, strip_region, of_nat.
  cbn [Skimage.ndim Skimage.coords length seq map nth].
  change [Fin (INR 2); Fin (INR 2); Fin (INR 2); Fin (INR 2)]
    with (map Fin [INR 2; INR 2; INR 2; INR 2]).
  change [Fin (INR 0); Fin (INR 1); Fin (INR 2); Fin (INR 3)]
    with (map Fin [INR 0; INR 1; INR 2; INR 3]).
  change [Fin 9; Fin 1; Fin 1; Fin 1] with (map Fin [9; 1; 1; 1]).
  rewrite !vmap2_fmul_Fin, !fsum_Fin.
  rewrite !fdiv_Fin by (simpl; lra).
  simpl. fin_list.
Qed.

Lemma strip_record (segmenter : option Segmenter) :
  exists info,
    _bc_properties_to_dict strip_region 0 0 strip_distances strip_traces
                           None None segmenter = Some info /\
    x info = Some (Fin (1/2)) /\ y info = Some (Fin 2) /\ z info = None /\
    area info = 4%nat.
Proof.
  unfold _bc_properties_to_dict. rewrite strip_weighted_centroid.
  destruct segmenter as [seg |];
    (eexists; split; [reflexivity | repeat split; reflexivity]).
Qed.

Lemma strip_extracted (segmenter : option Segmenter) :
  exists info,
    extract_barcodes_with_index 0 strip_image strip_magnitudes strip_traces
      strip_distances 0 (Fin 1) None None segmenter 0 = Some [info] /\
    x info = Some (Fin (1/2)) /\ y info = Some (Fin 2) /\ z info = None /\
    area info = 4%nat.
Proof.
  destruct (strip_record segmenter) as (info & Hinfo & Hfields).
  exists info. split; [| exact Hfields].
  unfold extract_barcodes_with_index. rewrite strip_regions.
  unfold bind at 1. cbn [comprehension].
  rewrite strip_within_crop. unfold bind at 1.
  cbn [andb Skimage.area strip_region Skimage.coords length].
  change (0 <=? Z.of_nat 4)%Z with true. cbv iota.
  rewrite Hinfo. reflexivity.
Qed.

(** *** The tests on the returned calls *)




(** *** The cell of a call *)

(** C10.  The global centroid of a call is the list [z, x, y] of its
    local centroid, sent through the aligner when there is one; its
    entries are stored as [global_z], [global_x], [global_y] in that
    order, and with a segmenter the cell of the call is the answer of
    [get_cell_containing_position] on the first two entries: the global z
    and the global x. *)
Theorem cell_lookup_takes_global_z_and_x (barcodeIndex : Z)
  (decodedImage : ndarray Z)
  (pixelMagnitudes pixelTraces distances : ndarray npfloat)
  (fov : Z) (cropWidth : npfloat) (zIndex : option Z)
  (globalAligner : option Aligner) (segmenter : Segmenter)
  (minimumArea : Z) (result : list BarcodeInfo) (info : BarcodeInfo) :
  extract_barcodes_with_index barcodeIndex decodedImage pixelMagnitudes
    pixelTraces distances fov cropWidth zIndex globalAligner (Some segmenter)
    minimumArea = Some result ->
  In info result ->
  exists globalCentroid,
    globalCentroid =
      match globalAligner with
      | Some aligner => aligner fov [z info; x info; y info]
      | None => [z info; x info; y info]
      end /\
    nth_error globalCentroid 0 = Some (global_z info) /\
    nth_error globalCentroid 1 = Some (global_x info) /\
    nth_error globalCentroid 2 = Some (global_y info) /\
    cell_index info = segmenter (global_z info) (global_x info).
Proof.
  intros Hres Hin.
  destruct (extracted_record _ _ _ _ _ _ _ _ _ _ _ _ _ Hres Hin)
    as (p & regions & _ & _ & _ & _ & Hdict).
  destruct (dict_fields _ _ _ _ _ _ _ _ _ Hdict)
    as (ic & g & _ & _ & Hg & Hz & Hx & Hy & Hcell & _).
  exists g. auto.
Qed.

Lemma cell_lookup_takes_global_z_and_x_witness :
  exists info,
    extract_barcodes_with_index 0 strip_image strip_magnitudes strip_traces
      strip_distances 0 (Fin 1) None None (Some one_cell) 0 = Some [info] /\
    global_z info = None /\
    global_x info = Some (Fin (1/2)) /\
    cell_index info = one_cell (global_z info) (global_x info) /\
    cell_index info = Some 3%Z.
Proof.
  destruct (strip_extracted (Some one_cell)) as (info & Hinfo & Hx & _ & Hz & _).
  destruct (@cell_lookup_takes_global_z_and_x 0%Z strip_image
              strip_magnitudes strip_traces strip_distances 0%Z (Fin 1)
              None None one_cell 0%Z [info] info Hinfo (or_introl eq_refl))
    as (g & Hg & Hgz & Hgx & _ & Hcell).
  rewrite Hg, Hz in Hgz. rewrite Hg, Hx in Hgx.
  injection Hgz as Hgz. injection Hgx as Hgx.
  exists info. rewrite Hcell, <- Hgz, <- Hgx. repeat split; auto.
Defined.

End ExtractFacts.

(* ------------------------------------------------------------------ *)
(** * extract_refactors *)

Module RefactorFacts.

Import Np.
Import Exc.
Import Decoding.
Import Examples.
Import NpFacts.
Open Scope R_scope.

Lemma mapM_nth {A B : Type} (f : A -> option B) (l : list A) (r : list B)
  (i : nat) (a : A) :
  mapM f l = Some r -> nth_error l i = Some a ->
  exists b, f a = Some b /\ nth_error r i = Some b.
Proof.
  revert r i. induction l as [| a0 l IH]; intros r i; simpl.
  - intros _ H. destruct i; discriminate.
  - destruct (f a0) as [b0 |] eqn:Hf; [| discriminate].
    destruct (mapM f l) as [bs |]; [| discriminate].
    intros [= <-]. destruct i as [| i]; simpl.
    + intros [= <-]. eauto.
    + intros Ha. apply (IH bs i eq_refl Ha).
Qed.

Lemma mapM_all {A B : Type} (f : A -> option B) (g : A -> B) (l : list A) :
  (forall a, In a l -> f a = Some (g a)) -> mapM f l = Some (map g l).
Proof.
  induction l as [| a l IH]; intros H; simpl; [reflexivity |].
  rewrite (H a (or_introl eq_refl)), IH; [reflexivity |].
  intros a' Ha'. apply H. now right.
Qed.

Lemma map_const_seq {B : Type} (v : B) (s n : nat) :
  map (fun _ => v) (seq s n) = repeat v n.
Proof.
  revert s. induction n as [| n IH]; intros s; simpl; [reflexivity |].
  now rewrite IH.
Qed.

Lemma mask_zero_row (test : npfloat -> bool) (mrow : list npfloat) :
  map (fun ms => if test (fst ms) then NaN else snd ms)
      (combine mrow (repeat (Fin 0) (length mrow)))
  = map (fun m => if test m then NaN else Fin 0) mrow.
Proof.
  induction mrow as [| m mrow IH]; simpl; [reflexivity | now rewrite IH].
Qed.

(** The entry of the accumulator for a barcode without a region: the row
    of zeros it started from, and the count 0. *)
Lemma regionless_entry (self : PixelBasedDecoder) (decodedImage : ndarray Z)
  (pixelMagnitudes normalizedPixelTraces : ndarray npfloat)
  (backgroundRefactors : list npfloat) (b : nat) :
  barcode_regions decodedImage b (refactorAreaThreshold self) = Some [] ->
  (barcodeRegions <- barcode_regions decodedImage b
                                     (refactorAreaThreshold self) ;;
   let seen := of_nat (length barcodeRegions) in
   terms <-
     mapM (fun br =>
             traces <- mapM (unnormalized_trace normalizedPixelTraces
                                                pixelMagnitudes)
                            (Skimage.coords br) ;;
             meanPixelTrace <-
               broadcast fsub
                 (reduce_axis0 mean (hd O (shape normalizedPixelTraces))
                               traces)
                 backgroundRefactors ;;
             let normPixelTrace :=
               vscale fdiv meanPixelTrace (norm meanPixelTrace) in
             Some (vscale fdiv normPixelTrace seen))
          barcodeRegions ;;
   row <- accumulate (repeat (Fin 0) (_bitCount self)) terms ;;
   Some (row, seen))
  = Some (repeat (Fin 0) (_bitCount self), Fin 0).
Proof.
  intros ->. reflexivity.
Qed.

(** C6, as the code has it.  A barcode without a qualifying region keeps
    the row of zeros of the accumulator; the mask puts [nan] where the
    decoding matrix is 0 only, so at the bits that are on for the barcode
    the row holds 0, which [nanmean] then averages with the other
    barcodes.  And when no barcode has a qualifying region the function
    returns, with all the counts at 0: there is no error. *)
Theorem regionless_barcodes_count_as_zero (self : PixelBasedDecoder)
  (decodedImage : ndarray Z)
  (pixelMagnitudes normalizedPixelTraces : ndarray npfloat)
  (matrix : list (list npfloat)) :
  _decodingMatrix self = Array2 matrix ->
  (forall backgroundRefactors sums b mrow,
      sum_pixel_traces self decodedImage pixelMagnitudes normalizedPixelTraces
                       backgroundRefactors = Some sums ->
      (b < _barcodeCount self)%nat ->
      barcode_regions decodedImage b (refactorAreaThreshold self) = Some [] ->
      nth_error matrix b = Some mrow ->
      length mrow = _bitCount self ->
      nth_error sums b = Some (repeat (Fin 0) (_bitCount self), Fin 0) /\
      exists masked,
        masked_pixel_traces self (map fst sums) = Some masked /\
        nth_error masked b =
          Some (map (fun m => if feqb m (Fin 0) then NaN else Fin 0) mrow)) /\
  ((forall b, (b < _barcodeCount self)%nat ->
              barcode_regions decodedImage b (refactorAreaThreshold self)
                = Some []) ->
   exists refactors,
     extract_refactors self decodedImage pixelMagnitudes normalizedPixelTraces
                       false
       = Some (refactors, repeat (Fin 0) (_bitCount self),
               repeat (Fin 0) (_barcodeCount self))).
Proof.
  intros Hmatrix. split.
  - intros bgs sums b mrow Hsums Hb Hnone Hmrow Hlen.
    unfold sum_pixel_traces in Hsums.
    assert (Hseq : nth_error (seq 0 (_barcodeCount self)) b = Some b).
    { rewrite nth_error_seq. apply Nat.ltb_lt in Hb. now rewrite Hb. }
    destruct (mapM_nth _ _ _ _ _ Hsums Hseq) as (entry & Hentry & Hnth).
    rewrite regionless_entry in Hentry by exact Hnone.
    injection Hentry as <-. split; [exact Hnth |].
    unfold masked_pixel_traces. rewrite Hmatrix.
    eexists. split; [reflexivity |].
    unfold mask_nan.
    erewrite map_nth_error.
    2:{ apply DecodeFacts.nth_error_combine. split; [exact Hmrow |].
        rewrite nth_error_map, Hnth. reflexivity. }
    cbn [fst snd]. rewrite <- Hlen. f_equal.
    apply (mask_zero_row (fun m => feqb m (Fin 0))).
  - intros Hall. unfold extract_refactors.
    cbn [bind].
    assert (Hsums : sum_pixel_traces self decodedImage pixelMagnitudes
                      normalizedPixelTraces (repeat (Fin 0) (_bitCount self))
                    = Some (map (fun _ => (repeat (Fin 0) (_bitCount self), Fin 0))
                                (seq 0 (_barcodeCount self)))).
    { unfold sum_pixel_traces. apply mapM_all. intros b Hb.
      apply in_seq in Hb. apply regionless_entry, Hall. lia. }
    rewrite Hsums. cbn [bind].
    unfold masked_pixel_traces. rewrite Hmatrix. cbn [bind].
    rewrite !map_map. cbn [fst snd]. rewrite !map_const_seq.
    eexists. reflexivity.
Qed.

(** *** The example: an image without a decoded pixel *)

Lemma blank_regions (b : nat) :
  (b < 2)%nat -> barcode_regions blank_image b 4 = Some [].
Proof.
  intros Hb. destruct b as [| [| b]]; [reflexivity | reflexivity | lia].
Qed.

Lemma blank_masked :
  masked_pixel_traces identity2_decoder [[Fin 0; Fin 0]; [Fin 0; Fin 0]]
  = Some [[Fin 0; NaN]; [NaN; Fin 0]].
Proof.
  unfold masked_pixel_traces, mask_nan.
  cbn [identity2_decoder _decodingMatrix map combine fst snd].
  rewrite !(proj2 (feqb_Fin 0 0)) by reflexivity.
  rewrite !(proj2 (feqb_Fin_false 1 0)) by lra.
  reflexivity.
Qed.

Lemma blank_refactors :
  extract_refactors identity2_decoder blank_image blank_magnitudes
                    blank_traces false
  = Some ([NaN; NaN], [Fin 0; Fin 0], [Fin 0; Fin 0]).
Proof.
  unfold extract_refactors. cbn [bind identity2_decoder _bitCount repeat].
  assert (Hsums : sum_pixel_traces identity2_decoder blank_image
                    blank_magnitudes blank_traces [Fin 0; Fin 0]
                  = Some [([Fin 0; Fin 0], Fin 0); ([Fin 0; Fin 0], Fin 0)])
    by reflexivity.
  rewrite Hsums. cbn [bind map fst snd].
  rewrite blank_masked. cbn [bind].
  unfold reduce_axis0, column, nanmean.
  cbn [seq map nth filter isnan negb].
  assert (Hmean : mean [Fin 0] = Fin 0).
  { change [Fin 0] with (map Fin [0]).
    rewrite mean_Fin by discriminate. apply Fin_eq. simpl. lra. }
  rewrite Hmean.
  assert (Hmean2 : mean [Fin 0; Fin 0] = Fin 0).
  { change [Fin 0; Fin 0] with (map Fin [0; 0]).
    rewrite mean_Fin by discriminate. apply Fin_eq. simpl. lra. }
  rewrite Hmean2. unfold vscale. cbn [map].
  rewrite fdiv_zero_zero. reflexivity.
Qed.

Lemma blank_sums :
  sum_pixel_traces identity2_decoder blank_image blank_magnitudes blank_traces
                   [Fin 0; Fin 0]
  = Some [([Fin 0; Fin 0], Fin 0); ([Fin 0; Fin 0], Fin 0)].
Proof. reflexivity. Qed.

Lemma regionless_barcodes_count_as_zero_witness :
  (nth_error [([Fin 0; Fin 0], Fin 0); ([Fin 0; Fin 0], Fin 0)] 0
     = Some ([Fin 0; Fin 0], Fin 0) /\
   exists masked,
     masked_pixel_traces identity2_decoder [[Fin 0; Fin 0]; [Fin 0; Fin 0]]
       = Some masked /\
     nth_error masked 0 =
       Some (map (fun m => if feqb m (Fin 0) then NaN else Fin 0)
                 [Fin 1; Fin 0])) /\
  exists refactors,
    extract_refactors identity2_decoder blank_image blank_magnitudes
                      blank_traces false
    = Some (refactors, [Fin 0; Fin 0], [Fin 0; Fin 0]).
Proof.
  pose proof (regionless_barcodes_count_as_zero identity2_decoder
                blank_image blank_magnitudes blank_traces
                [[Fin 1; Fin 0]; [Fin 0; Fin 1]] eq_refl) as [Hrow Hall].
  split.
  - apply (Hrow [Fin 0; Fin 0] _ 0%nat [Fin 1; Fin 0] blank_sums).
    + simpl. lia.
    + apply blank_regions. lia.
    + reflexivity.
    + reflexivity.
  - apply Hall, blank_regions.
Defined.

(** C6 as the specification states it fails.  On the image without a
    decoded pixel no barcode has a region; the rows of the accumulator
    after the mask hold 0, not [nan], at the bit that is on for each
    barcode, and the function returns instead of raising (the refactors
    are the [nan] of 0/0). *)
Lemma regionless_refactors_return_without_error :
  (forall b, (b < _barcodeCount identity2_decoder)%nat ->
             barcode_regions blank_image b
               (refactorAreaThreshold identity2_decoder) = Some []) /\
  masked_pixel_traces identity2_decoder [[Fin 0; Fin 0]; [Fin 0; Fin 0]]
    = Some [[Fin 0; NaN]; [NaN; Fin 0]] /\
  extract_refactors identity2_decoder blank_image blank_magnitudes
                    blank_traces false
    = Some ([NaN; NaN], [Fin 0; Fin 0], [Fin 0; Fin 0]).
Proof.
  split; [exact blank_regions |].
  split; [exact blank_masked | exact blank_refactors].
Qed.

End RefactorFacts.

(* ------------------------------------------------------------------ *)
(** * CleanCellBoundaries *)

Module SegmentFacts.

Import Np.
Import Exc.
Import Segment.
Import Examples.
Import NpFacts.
Open Scope R_scope.

Lemma filter_idempotent {A : Type} (f : A -> bool) (l : list A) :
  filter f (filter f l) = filter f l.
Proof.
  induction l as [| a l IH]; simpl; [reflexivity |].
  destruct (f a) eqn:Hf; simpl; [rewrite Hf |]; now rewrite IH.
Qed.

Lemma fold_left_ext_in {A B : Type} (f g : A -> B -> A) (l : list B) (a : A) :
  (forall x b, In b l -> f x b = g x b) -> fold_left f l a = fold_left g l a.
Proof.
  revert a. induction l as [| b l IH]; intros a H; simpl; [reflexivity |].
  rewrite (H a b (or_introl eq_refl)). apply IH.
  intros x b' Hb'. apply H. now right.
Qed.


Lemma simple_clean_cells_spec (cells : list SpatialFeature) (cell : SpatialFeature) :
  In cell (simple_clean_cells cells) <->
  In cell cells /\ length (get_bounding_box cell) = 4%nat /\
  fltb (Fin 0) (get_volume cell) = true.
Proof.
  unfold simple_clean_cells. rewrite filter_In, andb_true_iff, Nat.eqb_eq.
  tauto.
Qed.

Section Facts.

Variables SpatialIndex IdToNum Graph Box DataFrame : Type.
Variable rtree_Index : SpatialIndex.
Variable empty_dict : IdToNum.
Variable nx_Graph : Graph.
Variable geometry_box : npfloat -> npfloat -> npfloat -> npfloat -> Box.
Variable construct_tree :
  list SpatialFeature -> SpatialIndex -> Z -> IdToNum -> SpatialIndex * Z * IdToNum.
Variable construct_graph :
  Graph -> list SpatialFeature -> SpatialIndex -> Z -> list Z -> list Box -> Graph.
Variable remove_overlapping_cells : Graph -> DataFrame.





(** C7.  A candidate cell whose bounding box does not have exactly four
    entries, or whose volume is not strictly positive, is dropped by the
    cleaning step ([_intial_clean], and the [simple_clean_cells] that
    [_run_analysis] calls), which keeps the other cells and cannot fail.
    The spatial index and the overlap graph are built from the cleaned
    lists only: they are the ones built when the malformed cells are not
    in the feature database at all, whatever the functions that build
    them do. *)
Theorem malformed_cells_never_reach_the_graph (w : World DataFrame)
  (currentFOV : Z) (cell : SpatialFeature) :
  In cell (read_features w currentFOV) ->
  length (get_bounding_box cell) <> 4%nat \/
  fltb (Fin 0) (get_volume cell) = false ->
  ~ In cell (_intial_clean w currentFOV) /\
  ~ In cell (simple_clean_cells (read_features w currentFOV)) /\
  (forall other, In other (read_features w currentFOV) ->
                 length (get_bounding_box other) = 4%nat ->
                 fltb (Fin 0) (get_volume other) = true ->
                 In other (_intial_clean w currentFOV)) /\
  spatial_tree rtree_Index empty_dict construct_tree w
    = spatial_tree rtree_Index empty_dict construct_tree (without_malformed w) /\
  (forall tree boxes,
      overlap_graph nx_Graph construct_graph w tree boxes
      = overlap_graph nx_Graph construct_graph (without_malformed w) tree boxes) /\
  option_map (@return_exported_data DataFrame) (_run_analysis rtree_Index empty_dict nx_Graph geometry_box
       construct_tree construct_graph remove_overlapping_cells w)
    = option_map (@return_exported_data DataFrame) (_run_analysis rtree_Index empty_dict nx_Graph geometry_box
       construct_tree construct_graph remove_overlapping_cells (without_malformed w)).
Proof.
  intros Hin Hbad.
  assert (Hout : ~ In cell (simple_clean_cells (read_features w currentFOV))).
  { rewrite simple_clean_cells_spec. intros (_ & Hbox & Hvol).
    destruct Hbad as [Hbad | Hbad]; congruence. }
  assert (Htree : spatial_tree rtree_Index empty_dict construct_tree w
                  = spatial_tree rtree_Index empty_dict construct_tree
                                 (without_malformed w)).
  { unfold spatial_tree. cbn [without_malformed get_fovs read_features].
    apply fold_left_ext_in. intros [[t c] d] f _.
    unfold simple_clean_cells. now rewrite filter_idempotent. }
  assert (Hgraph : forall tree boxes,
             overlap_graph nx_Graph construct_graph w tree boxes
             = overlap_graph nx_Graph construct_graph (without_malformed w)
                             tree boxes).
  { intros tree boxes. unfold overlap_graph.
    cbn [without_malformed get_fovs read_features].
    apply fold_left_ext_in. intros g f _.
    unfold simple_clean_cells. now rewrite filter_idempotent. }
  split; [exact Hout |]. split; [exact Hout |].
  split.
  { intros other Ho Hbox Hvol. apply simple_clean_cells_spec. auto. }
  split; [exact Htree |]. split; [exact Hgraph |].
  unfold _run_analysis. rewrite <- Htree.
  change (get_fov_boxes geometry_box (without_malformed w))
    with (get_fov_boxes geometry_box w).
  destruct (get_fov_boxes geometry_box w) as [boxes |]; [| reflexivity].
  cbn [bind option_map]. rewrite <- Hgraph.
  reflexivity.
Qed.


End Facts.

(** *** The example: two fields of view *)

Lemma two_tiles_cleaned :
  simple_clean_cells (read_features two_tiles 0) = [good_cell] /\
  simple_clean_cells (read_features two_tiles 1) = [other_cell].
Proof.
  unfold simple_clean_cells.
  cbn [two_tiles read_features Z.eqb filter good_cell boxless_cell flat_cell
       other_cell get_bounding_box get_volume length Nat.eqb andb].
  rewrite (proj2 (fltb_Fin 0 2)), (proj2 (fltb_Fin 0 3)) by lra.
  rewrite (proj2 (fltb_Fin_false 0 0)) by lra.
  split; reflexivity.
Qed.

(** The index over the two fields of view holds the two well-formed cells. *)
Lemma two_tiles_index :
  spatial_tree [] [] list_tree two_tiles
  = ([(0%Z, good_cell); (1%Z, other_cell)], 2%Z,
     [("a"%string, 0%Z); ("d"%string, 1%Z)]).
Proof.
  destruct two_tiles_cleaned as [H0 H1].
  unfold spatial_tree. cbn [two_tiles get_fovs fold_left].
  change (read_features _ 0%Z) with (read_features two_tiles 0).
  change (read_features _ 1%Z) with (read_features two_tiles 1).
  rewrite H0. cbn [list_tree fold_left app].
  rewrite H1. reflexivity.
Qed.

Lemma malformed_cells_never_reach_the_graph_witness :
  ~ In boxless_cell (_intial_clean two_tiles 0) /\
  spatial_tree [] [] list_tree two_tiles
    = spatial_tree [] [] list_tree (without_malformed two_tiles).
Proof.
  destruct (malformed_cells_never_reach_the_graph
              _ _ _ _ _ [] [] [] box4 list_tree list_graph keep_all
              two_tiles 0%Z boxless_cell)
    as (Hout & _ & _ & Htree & _).
  - right. left. reflexivity.
  - left. discriminate.
  - split; [exact Hout | exact Htree].
Defined.


End SegmentFacts.

(* ------------------------------------------------------------------ *)
(** * Arrays and regions *)

Module ArrayFacts.

Import Np.
Import Exc.
Import Decoding.
Import NpFacts.
Import SkimageFacts.

Lemma ndindex_length (shp : list nat) :
  length (ndindex shp) = fold_right Nat.mul 1%nat shp.
Proof.
  induction shp as [| d rest IH]; simpl; [reflexivity |].
  rewrite <- IH. generalize 0%nat as s.
  induction d as [| d IHd]; intros s; simpl; [reflexivity |].
  now rewrite length_app, length_map, IHd.
Qed.

Lemma nth_error_flat_map_block {A : Type} (g : nat -> list A) (L : nat)
  (d s i j : nat) :
  (forall k, length (g k) = L) -> (i < d)%nat -> (j < L)%nat ->
  nth_error (flat_map g (seq s d)) (i * L + j) = nth_error (g (s + i)%nat) j.
Proof.
  intros Hlen. revert s i. induction d as [| d IH]; intros s i Hi Hj; [lia |].
  simpl. destruct i as [| i].
  - simpl. rewrite nth_error_app1 by (rewrite Hlen; exact Hj).
    now rewrite Nat.add_0_r.
  - rewrite nth_error_app2 by (rewrite Hlen; simpl; lia).
    rewrite Hlen. replace (S i * L + j - L)%nat with (i * L + j)%nat by (simpl; lia).
    rewrite IH by lia. f_equal. f_equal. lia.
Qed.

Lemma ndindex_In (shp : list nat) (c : coord) :
  In c (ndindex shp) ->
  exists off, ravel shp c = Some off /\ nth_error (ndindex shp) off = Some c.
Proof.
  revert c. induction shp as [| d rest IH]; intros c Hc.
  - destruct Hc as [<- | []]. exists 0%nat. split; reflexivity.
  - simpl in Hc. apply in_flat_map in Hc. destruct Hc as (i & Hi & Hc).
    apply in_map_iff in Hc. destruct Hc as (c' & <- & Hc').
    apply in_seq in Hi.
    destruct (IH c' Hc') as (off & Hoff & Hnth).
    exists (i * fold_right Nat.mul 1%nat rest + off)%nat. split.
    + simpl. assert (Hlt : (i <? d)%nat = true) by (apply Nat.ltb_lt; lia).
      now rewrite Hlt, Hoff.
    + assert (Hoff_lt : (off < fold_right Nat.mul 1%nat rest)%nat).
      { rewrite <- ndindex_length. apply nth_error_Some. congruence. }
      change (ndindex (d :: rest))
        with (flat_map (fun i0 => map (cons i0) (ndindex rest)) (seq 0 d)).
      etransitivity.
      * apply (nth_error_flat_map_block
                 (fun i0 => map (cons i0) (ndindex rest))
                 (fold_right Nat.mul 1%nat rest) d 0 i off).
        -- intros k. now rewrite length_map, ndindex_length.
        -- lia.
        -- exact Hoff_lt.
      * unfold coord in *. simpl. now rewrite nth_error_map, Hnth.
Qed.

Lemma ndindex_dims (shp : list nat) (c : coord) :
  In c (ndindex shp) -> length c = length shp.
Proof.
  revert c. induction shp as [| d rest IH]; intros c Hc.
  - destruct Hc as [<- | []]. reflexivity.
  - simpl in Hc. apply in_flat_map in Hc. destruct Hc as (i & Hi & Hc).
    apply in_map_iff in Hc. destruct Hc as (c' & <- & Hc').
    simpl. f_equal. now apply IH.
Qed.

(** Reading an array built over the index tuples of its shape. *)
Lemma getitem_tabulate {A : Type} (shp : list nat) (f : coord -> A) (c : coord) :
  In c (ndindex shp) ->
  getitem (mk_ndarray shp (map f (ndindex shp))) c = Some (f c).
Proof.
  intros Hc. destruct (ndindex_In shp c Hc) as (off & Hoff & Hnth).
  unfold getitem. cbn [shape data]. rewrite Hoff, nth_error_map, Hnth.
  reflexivity.
Qed.

Lemma label_of_found (c : coord) (comps : list (list coord)) (k : nat) :
  Skimage.label_of c comps k <> 0%nat ->
  exists comp, In comp comps /\ In c comp.
Proof.
  revert k. induction comps as [| comp rest IH]; intros k; simpl; [congruence |].
  destruct (Skimage.mem c comp) eqn:Hmem.
  - intros _. exists comp. split; [now left | now apply mem_In].
  - intros H. destruct (IH _ H) as (comp' & Hin & Hc). exists comp'. auto.
Qed.

(** The pixels of a labelled region are foreground pixels of the image. *)
Lemma region_pixels_foreground (image : ndarray bool)
  (intensity : option (ndarray npfloat))
  (regions : list Skimage.RegionProperties) (p : Skimage.RegionProperties)
  (c : coord) :
  Skimage.regionprops (Skimage.label image) intensity = Some regions ->
  In p regions -> In c (Skimage.coords p) ->
  In c (ndindex (shape image)) /\ getitem image c = Some true /\
  Skimage.intensity_image p = intensity /\
  match intensity with
  | Some im => shape im = shape image
  | None => True
  end.
Proof.
  unfold Skimage.regionprops.
  destruct (negb _); [discriminate |].
  set (pxs := filter _ (map _ _)).
  intros Hreg Hp Hc.
  assert (Hmap : In p (map (fun px => Skimage.mk_region px intensity) pxs) /\
                 match intensity with
                 | Some im => shape im = shape image
                 | None => True
                 end).
  { destruct pxs as [| px0 pxs'] eqn:Hpxs.
    - destruct intensity; injection Hreg as <-; destruct Hp.
    - destruct intensity as [im |].
      + destruct (list_eq_dec Nat.eq_dec (shape im) (shape (Skimage.label image)))
          as [Hs | Hs]; [| discriminate].
        injection Hreg as <-. split; [exact Hp | exact Hs].
      + injection Hreg as <-. split; [exact Hp | exact I]. }
  destruct Hmap as [Hmap Hshape].
  apply in_map_iff in Hmap. destruct Hmap as (px & <- & Hpx).
  cbn [Skimage.coords Skimage.intensity_image] in *.
  subst pxs. apply filter_In in Hpx. destruct Hpx as [Hpx _].
  apply in_map_iff in Hpx. destruct Hpx as (l & <- & Hl).
  apply in_seq in Hl.
  unfold Skimage.pixels_of in Hc. apply filter_In in Hc.
  destruct Hc as [Hidx Hlab].
  change (shape (Skimage.label image)) with (shape image) in Hidx.
  unfold Skimage.label in Hlab.
  rewrite getitem_tabulate in Hlab by exact Hidx.
  apply Nat.eqb_eq in Hlab.
  match type of Hlab with
  | Skimage.label_of _ ?comps _ = _ =>
      destruct (label_of_found c comps 1%nat) as (comp & Hcomp & Hcc); [lia |]
  end.
  apply components_within in Hcomp. apply Hcomp in Hcc.
  unfold Skimage.foreground in Hcc. apply filter_In in Hcc.
  destruct Hcc as [_ Hfg].
  repeat split; auto.
  destruct (getitem image c) as [[|] |]; try discriminate. reflexivity.
Qed.

Lemma getitem_map {A B : Type} (f : A -> B) (a : ndarray A) (c : coord) :
  getitem (mk_ndarray (shape a) (map f (data a))) c = option_map f (getitem a c).
Proof.
  unfold getitem. cbn [shape data].
  destruct (ravel (shape a) c); [apply nth_error_map | reflexivity].
Qed.

(** The regions measured for a barcode hold only pixels decoded to it. *)
Lemma region_pixels_decoded (decodedImage : ndarray Z) (barcodeIndex : Z)
  (intensity : option (ndarray npfloat))
  (regions : list Skimage.RegionProperties) (p : Skimage.RegionProperties)
  (c : coord) :
  Skimage.regionprops (Skimage.label (eq_mask decodedImage barcodeIndex))
                      intensity = Some regions ->
  In p regions -> In c (Skimage.coords p) ->
  In c (ndindex (shape decodedImage)) /\
  getitem decodedImage c = Some barcodeIndex.
Proof.
  intros Hreg Hp Hc.
  destruct (region_pixels_foreground _ _ _ _ _ Hreg Hp Hc) as (Hidx & Hfg & _).
  split; [exact Hidx |].
  unfold eq_mask in Hfg. rewrite getitem_map in Hfg.
  destruct (getitem decodedImage c) as [v |]; [| discriminate].
  simpl in Hfg. injection Hfg as Hv. apply Z.eqb_eq in Hv. now subst.
Qed.

End ArrayFacts.

(* ------------------------------------------------------------------ *)
(** * More on the decoding matrix *)

Module DecoderProps.

Import Np.
Import Exc.
Import Decoding.
Import Examples.
Import Inputs.
Import NpFacts.
Import DecoderFacts.
Open Scope R_scope.

Lemma normalize_Fin (l : list R) :
  normalize (map Fin l) =
  if Rlt_dec 0 (sumsq l) then map Fin (map (fun r => r / sqrt (sumsq l)) l)
  else map Fin l.
Proof.
  unfold normalize. rewrite norm_Fin.
  pose proof (sumsq_nonneg l) as H0.
  destruct (Rlt_dec 0 (sumsq l)) as [Hpos | Hz].
  - assert (Hs : 0 < sqrt (sumsq l)) by now apply sqrt_lt_R0.
    rewrite (proj2 (fltb_Fin 0 _)) by exact Hs.
    apply vscale_fdiv_Fin. lra.
  - replace (sumsq l) with 0 by lra. rewrite sqrt_0.
    now rewrite (proj2 (fltb_Fin_false 0 0)) by lra.
Qed.

(** X1.  [normalize] is idempotent on vectors of finite numbers:
    normalizing a normalized vector gives it back (a vector of norm 0 is
    returned as it is, both times). *)
Theorem normalize_idempotent (l : list R) :
  normalize (normalize (map Fin l)) = normalize (map Fin l).
Proof.
  rewrite (normalize_Fin l).
  destruct (Rlt_dec 0 (sumsq l)) as [Hpos | Hz].
  - rewrite normalize_Fin.
    pose proof (unit_after_scaling l Hpos) as Hunit.
    set (u := map (fun r => r / sqrt (sumsq l)) l) in *.
    assert (Hu : sumsq u = 1).
    { pose proof (sumsq_nonneg u) as Hn.
      apply sqrt_lem_0 in Hunit; lra. }
    rewrite Hu, sqrt_1.
    destruct (Rlt_dec 0 1) as [_ | H]; [| lra].
    f_equal. rewrite <- (map_id u) at 2. apply map_ext. intros r. field.
  - rewrite normalize_Fin.
    destruct (Rlt_dec 0 (sumsq l)); [contradiction | reflexivity].
Qed.

Lemma sumsq_mult (c : R) (l : list R) :
  sumsq (map (fun r => c * r) l) = c * c * sumsq l.
Proof.
  unfold sumsq. induction l as [| r l IH]; simpl; [ring |].
  rewrite IH. ring.
Qed.

Lemma normalize_scale (c : R) (l : list R) :
  0 < c -> normalize (map Fin (map (fun r => c * r) l)) = normalize (map Fin l).
Proof.
  intros Hc. rewrite !normalize_Fin, sumsq_mult.
  pose proof (sumsq_nonneg l) as H0.
  destruct (Rlt_dec 0 (sumsq l)) as [Hpos | Hz].
  - assert (Hcc : 0 < c * c) by now apply Rmult_lt_0_compat.
    destruct (Rlt_dec 0 (c * c * sumsq l)) as [_ | H];
      [| exfalso; apply H; now apply Rmult_lt_0_compat].
    rewrite sqrt_mult by lra. rewrite sqrt_square by lra.
    assert (Hs : 0 < sqrt (sumsq l)) by now apply sqrt_lt_R0.
    f_equal. rewrite map_map. apply map_ext. intros r. field. lra.
  - assert (Hzero : sumsq l = 0) by lra.
    destruct (Rlt_dec 0 (c * c * sumsq l)) as [H | _];
      [exfalso; rewrite Hzero, Rmult_0_r in H; lra |].
    apply sumsq_zero in Hzero.
    f_equal. rewrite <- (map_id l) at 2. apply map_ext_in. intros r Hr.
    rewrite Forall_forall in Hzero. rewrite (Hzero r Hr). lra.
Qed.

(** X2.  The decoding matrix does not depend on the scale of the
    codebook: when every entry of every barcode is multiplied by the same
    positive integer, [_calculate_normalized_barcodes] without error
    variants returns the same matrix. *)
Theorem decoding_matrix_ignores_positive_scale (cb cb' : Codebook)
  (ignoreBlanks : bool) (k : Z) :
  (0 < k)%Z ->
  get_barcodes cb' ignoreBlanks
    = map (map (fun v => (k * v)%Z)) (get_barcodes cb ignoreBlanks) ->
  _calculate_normalized_barcodes cb' ignoreBlanks false
    = _calculate_normalized_barcodes cb ignoreBlanks false.
Proof.
  intros Hk Hcb. rewrite !weighted_barcodes, Hcb, map_map. f_equal.
  apply map_ext. intros b.
  rewrite !of_Z_rows.
  replace (map IZR (map (fun v => (k * v)%Z) b))
    with (map (fun r => IZR k * r) (map IZR b)).
  - apply normalize_scale. now apply IZR_lt.
  - rewrite !map_map. apply map_ext. intros v. symmetry. apply mult_IZR.
Qed.

Lemma decoding_matrix_ignores_positive_scale_witness :
  _calculate_normalized_barcodes doubled2 false false
    = _calculate_normalized_barcodes identity2 false false.
Proof.
  apply (decoding_matrix_ignores_positive_scale identity2 doubled2 false 2%Z).
  - lia.
  - reflexivity.
Defined.

(** X3.  [__init__] raises exactly when the codebook has no barcode
    (the read of [shape[1]] of the empty matrix).  When it returns, the
    barcode count is the number of barcodes, the bit count is the length
    of the first barcode, the scale factors and the backgrounds are the
    vectors given or else ones and zeros of length bit count, and
    [refactorAreaThreshold] is 4. *)
Theorem init_fails_on_empty_codebook_only (cb : Codebook)
  (sf bg : option (list npfloat)) :
  (__init__ cb sf bg = None <-> get_barcodes cb false = []) /\
  forall dec, __init__ cb sf bg = Some dec ->
    _barcodeCount dec = length (get_barcodes cb false) /\
    _bitCount dec = length (hd [] (get_barcodes cb false)) /\
    _scaleFactors dec =
      match sf with Some s => s | None => repeat (Fin 1) (_bitCount dec) end /\
    _backgrounds dec =
      match bg with Some s => s | None => repeat (Fin 0) (_bitCount dec) end /\
    refactorAreaThreshold dec = 4%nat.
Proof.
  split.
  - split.
    + intros Hnone. destruct (get_barcodes cb false) as [| b bs] eqn:Hcb;
        [reflexivity |].
      destruct (init_some cb sf bg) as [dec Hdec]; [congruence | congruence].
    + intros Hcb. unfold __init__. rewrite weighted_barcodes, Hcb. reflexivity.
  - intros dec Hdec.
    destruct (init_fields _ _ _ _ Hdec)
      as (b & bs & Hcb & Hm & Hbc & Hbits & Hs & Hb & Ht).
    rewrite Hcb, Hbits. cbn [hd]. repeat split; auto.
Qed.





(** [single_decoder] is the decoder that [__init__] builds for [single]. *)
Lemma init_single : __init__ single None None = Some single_decoder.
Proof.
  unfold __init__. rewrite weighted_barcodes.
  assert (Hrow : normalize [of_Z 1] = [Fin 1]).
  { unfold normalize. change [of_Z 1] with (map Fin [1]).
    rewrite norm_Fin.
    replace (sumsq [1]) with 1 by (unfold sumsq; simpl; lra).
    rewrite sqrt_1, (proj2 (fltb_Fin 0 1)) by lra.
    rewrite vscale_fdiv_Fin by lra. simpl.
    repeat f_equal; lra. }
  with_strategy opaque [normalize] simpl.
  rewrite Hrow. reflexivity.
Qed.

End DecoderProps.

(* ------------------------------------------------------------------ *)
(** * More on decode_pixels *)

Module DecodeProps.

Import Np.
Import Exc.
Import Decoding.
Import Examples.
Import Inputs.
Import NpFacts.
Import DecodeFacts.
Open Scope R_scope.

Lemma zip3_length {A B C : Type} (a : list A) (b : list B) (c : list C) :
  length (zip3 a b c) = Nat.min (length a) (Nat.min (length b) (length c)).
Proof.
  revert b c. induction a as [| x a IH]; intros [| y b] [| z c]; simpl; auto.
Qed.

Lemma zip3_firstn {A B C : Type} (a : list A) (b : list B) (c : list C) :
  zip3 a (firstn (length a) b) (firstn (length a) c) = zip3 a b c.
Proof.
  revert b c. induction a as [| x a IH]; intros [| y b] [| z c]; simpl; auto.
  now rewrite IH.
Qed.

Section Decode.

Variable GaussianBlur : ndarray npfloat -> Z * Z -> R -> ndarray npfloat.
Variable kneighbors : array23 -> list npfloat -> npfloat * Z.

Lemma filtered_images_length (imageData : ndarray npfloat) (lowPassSigma : R) :
  length (filtered_images GaussianBlur imageData lowPassSigma)
  = hd O (shape imageData).
Proof. unfold filtered_images. now rewrite length_map, length_seq. Qed.

Lemma scaled_rows_length (imageData : ndarray npfloat)
  (sf bg : list npfloat) (lowPassSigma : R) :
  length (scaled_rows GaussianBlur imageData sf bg lowPassSigma)
  = Nat.min (hd O (shape imageData)) (Nat.min (length sf) (length bg)).
Proof.
  unfold scaled_rows. now rewrite length_map, zip3_length, filtered_images_length.
Qed.

Lemma scaled_pixel_traces_length (imageData : ndarray npfloat)
  (sf bg : list npfloat) (lowPassSigma : R) :
  length (scaled_pixel_traces GaussianBlur imageData sf bg lowPassSigma)
  = prod (tl (shape imageData)).
Proof.
  unfold scaled_pixel_traces, transpose. now rewrite length_map, length_seq.
Qed.

(** What [decode_pixels] stores for one pixel. *)
Lemma decode_at (self : PixelBasedDecoder)
  (imageData : ndarray npfloat) (scaleFactors backgrounds : option (list npfloat))
  (distanceThreshold magnitudeThreshold : npfloat) (lowPassSigma : R)
  (decodedImage : ndarray Z) (pixelMagnitudes traces distances : ndarray npfloat) :
  let sf := match scaleFactors with None => _scaleFactors self | Some s => s end in
  let bg := match backgrounds with None => _backgrounds self | Some b => b end in
  decode_pixels GaussianBlur kneighbors self imageData scaleFactors backgrounds
                distanceThreshold magnitudeThreshold lowPassSigma
    = Some (decodedImage, pixelMagnitudes, traces, distances) ->
  shape decodedImage = tl (shape imageData) /\
  shape pixelMagnitudes = tl (shape imageData) /\
  shape distances = tl (shape imageData) /\
  shape traces = shape imageData /\
  forall p,
    match nth_error (scaled_pixel_traces GaussianBlur imageData sf bg
                                         lowPassSigma) p with
    | Some trace =>
        let m := pixel_magnitude trace in
        let di := kneighbors (_decodingMatrix self) (vscale fdiv trace m) in
        nth_error (data pixelMagnitudes) p = Some m /\
        nth_error (data distances) p = Some (fst di) /\
        nth_error (data decodedImage) p =
          Some (if fltb m magnitudeThreshold then (-1)%Z
                else if fleb (fst di) distanceThreshold then int16 (snd di)
                     else (-1)%Z)
    | None =>
        nth_error (data pixelMagnitudes) p = None /\
        nth_error (data distances) p = None /\
        nth_error (data decodedImage) p = None
    end.
Proof.
  intros sf bg. unfold decode_pixels. fold sf bg.
  destruct (negb _); [discriminate |].
  intros [= <- <- <- <-]. cbn [shape data].
  repeat split; try reflexivity.
  intros p.
  set (S := scaled_pixel_traces GaussianBlur imageData sf bg lowPassSigma).
  assert (Hzip : forall {A B : Type} (l : list A) (f : A -> B),
             combine l (map f l) = map (fun a => (a, f a)) l).
  { intros A B l f. induction l as [| a l IH]; simpl; [reflexivity | now rewrite IH]. }
  rewrite (Hzip _ _ S pixel_magnitude).
  rewrite !map_map. cbn [fst snd].
  assert (Hzip2 : forall {A B C : Type} (l : list A) (f : A -> B) (g : A -> C),
             combine (map f l) (map g l) = map (fun a => (f a, g a)) l).
  { intros A B C l f g. induction l as [| a l IH]; simpl; [reflexivity | now rewrite IH]. }
  rewrite Hzip2, map_map. cbn [fst snd].
  rewrite Hzip2, map_map. cbn [fst snd].
  rewrite !nth_error_map.
  destruct (nth_error S p) as [trace |]; cbn [option_map]; [| auto].
  repeat split.
Qed.

(** X5.  A pixel that passes both tests is assigned.  In the images
    returned by [decode_pixels], a pixel whose magnitude is not below the
    magnitude threshold and whose distance is at most the distance
    threshold carries the index, cast to [int16], that the
    nearest-neighbour query returned for its scaled trace divided by its
    magnitude; its magnitude and its distance are those of that trace and
    of that query. *)
Theorem pixels_passing_both_thresholds_are_assigned (self : PixelBasedDecoder)
  (imageData : ndarray npfloat) (scaleFactors backgrounds : option (list npfloat))
  (distanceThreshold magnitudeThreshold : npfloat) (lowPassSigma : R)
  (decodedImage : ndarray Z) (pixelMagnitudes traces distances : ndarray npfloat)
  (p : nat) (m d : npfloat) :
  decode_pixels GaussianBlur kneighbors self imageData scaleFactors backgrounds
                distanceThreshold magnitudeThreshold lowPassSigma
    = Some (decodedImage, pixelMagnitudes, traces, distances) ->
  nth_error (data pixelMagnitudes) p = Some m ->
  nth_error (data distances) p = Some d ->
  fltb m magnitudeThreshold = false ->
  fleb d distanceThreshold = true ->
  exists trace,
    nth_error
      (scaled_pixel_traces GaussianBlur imageData
         match scaleFactors with None => _scaleFactors self | Some s => s end
         match backgrounds with None => _backgrounds self | Some b => b end
         lowPassSigma) p = Some trace /\
    m = pixel_magnitude trace /\
    d = fst (kneighbors (_decodingMatrix self) (vscale fdiv trace m)) /\
    nth_error (data decodedImage) p =
      Some (int16 (snd (kneighbors (_decodingMatrix self)
                                   (vscale fdiv trace m)))).
Proof.
  intros Hdec Hm Hd Hmag Hdist.
  destruct (decode_at _ _ _ _ _ _ _ _ _ _ _ Hdec) as (_ & _ & _ & _ & Hat).
  specialize (Hat p).
  destruct (nth_error (scaled_pixel_traces _ _ _ _ _) p) as [trace |].
  - cbv zeta in Hat. destruct Hat as (Hm' & Hd' & Hl).
    rewrite Hm in Hm'. injection Hm' as Hm'.
    rewrite Hd in Hd'. injection Hd' as Hd'.
    exists trace. rewrite <- Hm' in *. rewrite <- Hd' in *.
    rewrite Hmag, Hdist in Hl. auto.
  - destruct Hat as (Hm' & _). congruence.
Qed.

Lemma unit_query (l : list R) :
  0 < sumsq l ->
  norm (vscale fdiv (map Fin l) (pixel_magnitude (map Fin l))) = Fin 1.
Proof.
  intros Hpos. unfold pixel_magnitude. rewrite norm_Fin.
  assert (Hs : 0 < sqrt (sumsq l)) by now apply sqrt_lt_R0.
  rewrite (proj2 (feqb_Fin_false _ 0)) by lra.
  rewrite vscale_fdiv_Fin by lra. rewrite norm_Fin.
  f_equal. now apply unit_after_scaling.
Qed.

Lemma zero_query (l : list R) :
  sumsq l = 0 ->
  vscale fdiv (map Fin l) (pixel_magnitude (map Fin l)) = map Fin l.
Proof.
  intros Hz. unfold pixel_magnitude. rewrite norm_Fin, Hz, sqrt_0.
  rewrite (proj2 (feqb_Fin 0 0)) by reflexivity.
  rewrite vscale_fdiv_Fin by lra. f_equal.
  rewrite <- (map_id l) at 2. apply map_ext. intros r. field.
Qed.

(** X6.  The vector sent to the nearest-neighbour query for a pixel
    whose scaled trace holds finite numbers has norm 1 when the trace is
    not all zero, and is the all-zero trace itself otherwise; the distance
    stored for the pixel is the one returned for that vector. *)
Theorem neighbour_queries_are_unit_vectors (self : PixelBasedDecoder)
  (imageData : ndarray npfloat) (scaleFactors backgrounds : option (list npfloat))
  (distanceThreshold magnitudeThreshold : npfloat) (lowPassSigma : R)
  (decodedImage : ndarray Z) (pixelMagnitudes traces distances : ndarray npfloat)
  (p : nat) (l : list R) :
  decode_pixels GaussianBlur kneighbors self imageData scaleFactors backgrounds
                distanceThreshold magnitudeThreshold lowPassSigma
    = Some (decodedImage, pixelMagnitudes, traces, distances) ->
  nth_error
    (scaled_pixel_traces GaussianBlur imageData
       match scaleFactors with None => _scaleFactors self | Some s => s end
       match backgrounds with None => _backgrounds self | Some b => b end
       lowPassSigma) p = Some (map Fin l) ->
  exists query,
    nth_error (data distances) p
      = Some (fst (kneighbors (_decodingMatrix self) query)) /\
    (~ Forall (fun v => v = 0) l -> norm query = Fin 1) /\
    (Forall (fun v => v = 0) l -> query = map Fin l).
Proof.
  intros Hdec Htrace.
  destruct (decode_at _ _ _ _ _ _ _ _ _ _ _ Hdec) as (_ & _ & _ & _ & Hat).
  specialize (Hat p). rewrite Htrace in Hat. cbv zeta in Hat.
  destruct Hat as (_ & Hd & _).
  eexists. split; [exact Hd |]. split.
  - intros Hnz. apply unit_query.
    pose proof (sumsq_nonneg l) as H0.
    destruct (Req_dec_T (sumsq l) 0) as [E | E]; [| lra].
    exfalso. apply Hnz. now apply sumsq_zero.
  - intros Hz. apply zero_query. now apply sumsq_zero.
Qed.

(** X7.  [decode_pixels] needs a scale factor and a background for
    every image of the stack: with fewer of either, and at least one pixel
    per image, it raises (the traces cannot be given the shape of the
    stack). *)
Theorem decode_needs_a_value_per_bit (self : PixelBasedDecoder)
  (imageData : ndarray npfloat) (scaleFactors backgrounds : option (list npfloat))
  (distanceThreshold magnitudeThreshold : npfloat) (lowPassSigma : R) :
  let sf := match scaleFactors with None => _scaleFactors self | Some s => s end in
  let bg := match backgrounds with None => _backgrounds self | Some b => b end in
  (length sf < hd O (shape imageData) \/ length bg < hd O (shape imageData))%nat ->
  prod (tl (shape imageData)) <> 0%nat ->
  decode_pixels GaussianBlur kneighbors self imageData scaleFactors backgrounds
                distanceThreshold magnitudeThreshold lowPassSigma = None.
Proof.
  intros sf bg Hshort Hpix.
  destruct (decode_pixels _ _ _ _ _ _ _ _ _) as [result |] eqn:Hdec;
    [| reflexivity].
  exfalso.
  assert (Hex : exists result,
             decode_pixels GaussianBlur kneighbors self imageData scaleFactors
               backgrounds distanceThreshold magnitudeThreshold lowPassSigma
             = Some result) by eauto.
  apply decode_pixels_fails_only_on_reshape in Hex.
  fold sf bg in Hex. rewrite scaled_rows_length in Hex.
  apply Nat.mul_cancel_r in Hex; [| exact Hpix]. lia.
Qed.

(** X8.  [decode_pixels] reads one scale factor and one background
    per image of the stack: the entries beyond the number of images are
    ignored. *)
Theorem decode_reads_one_value_per_bit (self : PixelBasedDecoder)
  (imageData : ndarray npfloat) (scaleFactors backgrounds : list npfloat)
  (distanceThreshold magnitudeThreshold : npfloat) (lowPassSigma : R) :
  decode_pixels GaussianBlur kneighbors self imageData
                (Some (firstn (hd O (shape imageData)) scaleFactors))
                (Some (firstn (hd O (shape imageData)) backgrounds))
                distanceThreshold magnitudeThreshold lowPassSigma
  = decode_pixels GaussianBlur kneighbors self imageData
                  (Some scaleFactors) (Some backgrounds)
                  distanceThreshold magnitudeThreshold lowPassSigma.
Proof.
  assert (Hrows :
            scaled_rows GaussianBlur imageData
              (firstn (hd O (shape imageData)) scaleFactors)
              (firstn (hd O (shape imageData)) backgrounds) lowPassSigma
            = scaled_rows GaussianBlur imageData scaleFactors backgrounds
                          lowPassSigma).
  { unfold scaled_rows.
    rewrite <- (filtered_images_length imageData lowPassSigma).
    now rewrite zip3_firstn. }
  unfold decode_pixels, scaled_pixel_traces. now rewrite Hrows.
Qed.

Lemma concat_columns_length (n : nat) (m : list (list npfloat)) :
  length (concat (transpose n m)) = (n * length m)%nat.
Proof.
  unfold transpose. generalize 0%nat as s.
  induction n as [| n IH]; intros s; simpl; [reflexivity |].
  rewrite length_app, IH. unfold column. now rewrite length_map.
Qed.

(** X9.  The arrays returned by [decode_pixels] are well formed: the
    label, magnitude and distance images have the shape of one image of
    the stack and one entry per pixel; the normalized traces have the
    shape of the stack and one entry per bit and pixel. *)
Theorem decoded_images_have_the_input_shape (self : PixelBasedDecoder)
  (imageData : ndarray npfloat) (scaleFactors backgrounds : option (list npfloat))
  (distanceThreshold magnitudeThreshold : npfloat) (lowPassSigma : R)
  (decodedImage : ndarray Z) (pixelMagnitudes traces distances : ndarray npfloat) :
  decode_pixels GaussianBlur kneighbors self imageData scaleFactors backgrounds
                distanceThreshold magnitudeThreshold lowPassSigma
    = Some (decodedImage, pixelMagnitudes, traces, distances) ->
  shape imageData <> [] ->
  (shape decodedImage = tl (shape imageData) /\
   length (data decodedImage) = prod (tl (shape imageData))) /\
  (shape pixelMagnitudes = tl (shape imageData) /\
   length (data pixelMagnitudes) = prod (tl (shape imageData))) /\
  (shape distances = tl (shape imageData) /\
   length (data distances) = prod (tl (shape imageData))) /\
  (shape traces = shape imageData /\
   length (data traces) = prod (shape imageData)).
Proof.
  intros Hdec Hshape.
  assert (Hex : exists result,
             decode_pixels GaussianBlur kneighbors self imageData scaleFactors
               backgrounds distanceThreshold magnitudeThreshold lowPassSigma
             = Some result) by eauto.
  apply decode_pixels_fails_only_on_reshape in Hex. cbv zeta in Hex.
  revert Hdec. unfold decode_pixels.
  destruct (negb _); [discriminate |].
  intros [= <- <- <- <-]. cbn [shape data].
  rewrite concat_columns_length.
  repeat rewrite ?length_map, ?length_combine, ?scaled_pixel_traces_length,
    ?Nat.min_id.
  repeat split; try reflexivity.
  rewrite Hex. destruct (shape imageData) as [| d rest]; [contradiction |].
  reflexivity.
Qed.

End Decode.

Lemma pixels_passing_both_thresholds_are_assigned_witness :
  exists trace,
    nth_error (scaled_pixel_traces no_blur hot_pixel [Fin 1; Fin 1]
                 [Fin 0; Fin 0] default_lowPassSigma) 0 = Some trace /\
    Fin 5 = pixel_magnitude trace /\
    Fin 0 = fst (nearest_row (Array2 [[Fin 1; Fin 0]; [Fin 0; Fin 1]])
                             (vscale fdiv trace (Fin 5))) /\
    nth_error [0%Z] 0 =
      Some (int16 (snd (nearest_row (Array2 [[Fin 1; Fin 0]; [Fin 0; Fin 1]])
                                    (vscale fdiv trace (Fin 5))))).
Proof.
  refine (@pixels_passing_both_thresholds_are_assigned no_blur nearest_row
            identity2_decoder hot_pixel None None default_distanceThreshold
            default_magnitudeThreshold default_lowPassSigma
            _ _ _ _ 0%nat (Fin 5) (Fin 0) decode_hot_pixel eq_refl eq_refl _ _).
  - apply fltb_Fin_false. lra.
  - apply fleb_Fin. lra.
Defined.

Lemma neighbour_queries_are_unit_vectors_witness :
  exists query,
    nth_error [Fin 0] 0
      = Some (fst (nearest_row (Array2 [[Fin 1; Fin 0]; [Fin 0; Fin 1]]) query)) /\
    (~ Forall (fun v => v = 0) [5; 0] -> norm query = Fin 1) /\
    (Forall (fun v => v = 0) [5; 0] -> query = map Fin [5; 0]).
Proof.
  exact (@neighbour_queries_are_unit_vectors no_blur nearest_row
           identity2_decoder hot_pixel None None default_distanceThreshold
           default_magnitudeThreshold default_lowPassSigma
           _ _ _ _ 0%nat [5; 0] decode_hot_pixel scaled_hot_pixel_at).
Defined.

Lemma decode_needs_a_value_per_bit_witness :
  decode_pixels no_blur nearest_row identity2_decoder hot_pixel
                (Some [Fin 1]) None default_distanceThreshold
                default_magnitudeThreshold default_lowPassSigma = None.
Proof.
  apply (@decode_needs_a_value_per_bit no_blur nearest_row identity2_decoder
           hot_pixel (Some [Fin 1]) None).
  - left. simpl. lia.
  - simpl. lia.
Defined.

Lemma decoded_images_have_the_input_shape_witness :
  ([1; 1]%nat = tl (shape hot_pixel) /\
   length [0%Z] = prod (tl (shape hot_pixel))) /\
  ([1; 1]%nat = tl (shape hot_pixel) /\
   length [Fin 5] = prod (tl (shape hot_pixel))) /\
  ([1; 1]%nat = tl (shape hot_pixel) /\
   length [Fin 0] = prod (tl (shape hot_pixel))) /\
  ([2; 1; 1]%nat = shape hot_pixel /\
   length [Fin 1; Fin 0] = prod (shape hot_pixel)).
Proof.
  apply (@decoded_images_have_the_input_shape no_blur nearest_row
           identity2_decoder hot_pixel None None default_distanceThreshold
           default_magnitudeThreshold default_lowPassSigma
           _ _ _ _ decode_hot_pixel).
  simpl. discriminate.
Defined.

Lemma ceil_bounds (r : R) : r <= IZR (ceil r) < r + 1.
Proof.
  unfold ceil. rewrite minus_IZR.
  destruct (archimed (- r)) as [Hlow Hhigh]. lra.
Qed.

(** X10.  For a standard deviation [sigma >= 0] the side of the
    Gaussian kernel, [int(2*ceil(2*sigma)+1)], is an odd positive integer
    [k] with [4 sigma + 1 <= k < 4 sigma + 3]; [decode_pixels] and
    [_read_and_filter_image_stack] blur every image with the square kernel
    [(k, k)] and that [sigma]. *)
Theorem blur_kernel_is_odd_and_covers_two_sigma (sigma : R) :
  0 <= sigma ->
  exists k : Z,
    Z.odd k = true /\ (0 < k)%Z /\
    4 * sigma + 1 <= IZR k < 4 * sigma + 3 /\
    (forall GaussianBlur imageData,
        filtered_images GaussianBlur imageData sigma
        = map (fun i =>
                 data (GaussianBlur
                         (mk_ndarray (tl (shape imageData))
                            (flat_row (prod (tl (shape imageData)))
                                      (data imageData) i))
                         (k, k) sigma))
              (seq 0 (hd O (shape imageData)))) /\
    (forall GaussianBlur get_aligned_image get_z_positions fov channelIndex,
        WatershedSegment._read_and_filter_image_stack
          GaussianBlur get_aligned_image get_z_positions fov channelIndex sigma
        = map (fun z => GaussianBlur (get_aligned_image fov channelIndex z)
                                     (k, k) sigma)
              (seq 0 (length get_z_positions))).
Proof.
  intros Hsigma.
  exists (2 * ceil (2 * sigma) + 1)%Z.
  pose proof (ceil_bounds (2 * sigma)) as [Hlow Hhigh].
  assert (Hc : (0 <= ceil (2 * sigma))%Z) by (apply le_IZR; lra).
  split; [| split; [| split; [| split]]].
  - rewrite Z.add_comm, Z.odd_add_mul_2. reflexivity.
  - lia.
  - rewrite plus_IZR, mult_IZR. lra.
  - reflexivity.
  - reflexivity.
Qed.

Lemma blur_kernel_is_odd_and_covers_two_sigma_witness :
  exists k : Z,
    Z.odd k = true /\ (0 < k)%Z /\ 4 * 5 + 1 <= IZR k < 4 * 5 + 3 /\
    (forall GaussianBlur get_aligned_image get_z_positions fov channelIndex,
        WatershedSegment._read_and_filter_image_stack
          GaussianBlur get_aligned_image get_z_positions fov channelIndex 5
        = map (fun z => GaussianBlur (get_aligned_image fov channelIndex z)
                                     (k, k) 5)
              (seq 0 (length get_z_positions))).
Proof.
  destruct (blur_kernel_is_odd_and_covers_two_sigma 5) as (k & H1 & H2 & H3 & _ & H5).
  - lra.
  - exists k. auto.
Defined.

End DecodeProps.

(* ------------------------------------------------------------------ *)
(** * More on extract_barcodes_with_index *)

Module ExtractProps.

Import Np.
Import Exc.
Import Decoding.
Import Examples.
Import Inputs.
Import NpFacts.
Import SkimageFacts.
Import DecodeFacts.
Import ExtractFacts.
Import ArrayFacts.
Import DecodeProps.
Open Scope R_scope.

Lemma dict_stats (p : Skimage.RegionProperties) (bcIndex fov : Z)
  (distances pixelTraces : ndarray npfloat) (zIndex : option Z)
  (globalAligner : option Aligner) (segmenter : option Segmenter)
  (info : BarcodeInfo) :
  _bc_properties_to_dict p bcIndex fov distances pixelTraces zIndex
                         globalAligner segmenter = Some info ->
  exists d,
    (if (length (shape distances) =? 2)%nat then
       mapM (fun xs => ix <- pick xs [0; 1]%nat ;; getitem distances ix)
            (Skimage.coords p)
     else
       mapM (fun xs => ix <- pick xs [0; 1; 2]%nat ;; getitem distances ix)
            (Skimage.coords p)) = Some d /\
    amin d = Some (min_distance info) /\
    mean_distance info = mean d /\
    Skimage.mean_intensity p = Some (mean_intensity info) /\
    Skimage.max_intensity p = Some (max_intensity info) /\
    Decoding.fov info = fov.
Proof.
  unfold _bc_properties_to_dict. intros H.
  unfold bind in H at 1.
  destruct (Skimage.weighted_centroid p) as [ic |] eqn:Hic; [| discriminate].
  unfold bind in H at 1.
  match type of H with
  | match ?e with Some _ => _ | None => _ end = _ =>
      destruct e as [centroid |] eqn:Hc; [| discriminate]
  end.
  unfold bind in H at 1.
  match type of H with
  | match ?e with Some _ => _ | None => _ end = _ =>
      destruct e as [d |] eqn:Hd; [| discriminate]
  end.
  inv_bind H. injection H as <-.
  cbn [min_distance mean_distance mean_intensity max_intensity Decoding.fov].
  exists d. repeat split; auto.
Qed.

Lemma mapM_In {A B : Type} (f : A -> option B) (l : list A) (r : list B) (b : B) :
  mapM f l = Some r -> In b r -> exists a, In a l /\ f a = Some b.
Proof.
  revert r. induction l as [| a l IH]; intros r; simpl.
  - intros [= <-] [].
  - destruct (f a) as [b0 |] eqn:Hf; [| discriminate].
    destruct (mapM f l) as [bs |]; [| discriminate].
    intros [= <-] [<- | Hin].
    + exists a. auto.
    + destruct (IH bs eq_refl Hin) as (a' & ? & ?). exists a'. auto.
Qed.

Lemma mapM_length {A B : Type} (f : A -> option B) (l : list A) (r : list B) :
  mapM f l = Some r -> length r = length l.
Proof.
  revert r. induction l as [| a l IH]; intros r; simpl.
  - now intros [= <-].
  - destruct (f a); [| discriminate].
    destruct (mapM f l) as [bs |]; [| discriminate].
    intros [= <-]. simpl. now rewrite (IH bs eq_refl).
Qed.

Lemma fold_fmin_In (l : list npfloat) (x : npfloat) :
  fold_left fmin l x = x \/ In (fold_left fmin l x) l.
Proof.
  revert x. induction l as [| y l IH]; intros x; simpl; [now left |].
  destruct (IH (fmin x y)) as [H | H]; [| now right; right].
  rewrite H. unfold fmin.
  destruct (isnan x); [now left |].
  destruct (isnan y); [now right; left |].
  destruct (fltb y x); [now right; left | now left].
Qed.

Lemma fold_fmax_In (l : list npfloat) (x : npfloat) :
  fold_left fmax l x = x \/ In (fold_left fmax l x) l.
Proof.
  revert x. induction l as [| y l IH]; intros x; simpl; [now left |].
  destruct (IH (fmax x y)) as [H | H]; [| now right; right].
  rewrite H. unfold fmax.
  destruct (isnan x); [now left |].
  destruct (isnan y); [now right; left |].
  destruct (fltb x y); [now right; left | now left].
Qed.

Lemma amin_In (l : list npfloat) (v : npfloat) : amin l = Some v -> In v l.
Proof.
  destruct l as [| x l]; [discriminate |]. intros [= <-].
  destruct (fold_fmin_In l x) as [-> | H]; [now left | now right].
Qed.

Lemma amax_In (l : list npfloat) (v : npfloat) : amax l = Some v -> In v l.
Proof.
  destruct l as [| x l]; [discriminate |]. intros [= <-].
  destruct (fold_fmax_In l x) as [-> | H]; [now left | now right].
Qed.

Lemma intensities_In (p : Skimage.RegionProperties) (im : ndarray npfloat)
  (w : list npfloat) (v : npfloat) :
  Skimage.intensity_image p = Some im ->
  Skimage.intensities p = Some w -> In v w ->
  exists c, In c (Skimage.coords p) /\ getitem im c = Some v.
Proof.
  unfold Skimage.intensities. intros ->.
  revert w. induction (Skimage.coords p) as [| c cs IH]; intros w; simpl.
  - intros [= <-] [].
  - destruct (getitem im c) as [v0 |] eqn:Hg; [| discriminate].
    destruct (fold_right _ _ cs) as [l |]; [| discriminate].
    intros [= <-] [<- | Hin].
    + exists c. auto.
    + destruct (IH l eq_refl Hin) as (c' & ? & ?). exists c'. auto.
Qed.

Lemma pick_all (xs : coord) :
  (length xs = 2%nat -> pick xs [0; 1]%nat = Some xs) /\
  (length xs = 3%nat -> pick xs [0; 1; 2]%nat = Some xs).
Proof.
  split; intros H.
  - destruct xs as [| a [| b [| ? ?]]]; try discriminate. reflexivity.
  - destruct xs as [| a [| b [| c [| ? ?]]]]; try discriminate. reflexivity.
Qed.

Lemma regionprops_dims (labels : ndarray nat) (intensity : option (ndarray npfloat))
  (regions : list Skimage.RegionProperties) :
  Skimage.regionprops labels intensity = Some regions ->
  length (shape labels) = 2%nat \/ length (shape labels) = 3%nat.
Proof.
  unfold Skimage.regionprops.
  destruct (length (shape labels) =? 2)%nat eqn:H2.
  - intros _. left. now apply Nat.eqb_eq.
  - destruct (length (shape labels) =? 3)%nat eqn:H3; [| discriminate].
    intros _. right. now apply Nat.eqb_eq.
Qed.

(** The centroid of a region found in an image has one entry per axis of
    the image. *)
Lemma region_centroid_length (decodedImage : ndarray Z) (barcodeIndex : Z)
  (intensity : option (ndarray npfloat))
  (regions : list Skimage.RegionProperties) (p : Skimage.RegionProperties) :
  Skimage.regionprops (Skimage.label (eq_mask decodedImage barcodeIndex))
                      intensity = Some regions ->
  In p regions ->
  Skimage.ndim p = 0%nat \/ Skimage.ndim p = length (shape decodedImage).
Proof.
  intros Hreg Hp. unfold Skimage.ndim.
  destruct (Skimage.coords p) as [| c cs] eqn:Hc; [now left |].
  right.
  assert (Hin : In c (Skimage.coords p)) by (rewrite Hc; now left).
  destruct (region_pixels_decoded _ _ _ _ _ _ Hreg Hp Hin) as [Hidx _].
  now apply ndindex_dims.
Qed.

Lemma centroid_length (p : Skimage.RegionProperties) :
  length (Skimage.centroid p) = Skimage.ndim p.
Proof. unfold Skimage.centroid. now rewrite length_map, length_seq. Qed.

Lemma crop_chain_room (position : list npfloat) (cropWidth : R)
  (imageSize : list nat) (k sk : nat) :
  crop_chain position (Fin cropWidth) imageSize k = Some true ->
  nth_error imageSize k = Some sk ->
  2 * cropWidth < INR sk.
Proof.
  intros H Hsk. apply crop_chain_true in H.
  destruct H as (pk & sk' & _ & Hsk' & Hlow & Hhigh).
  rewrite Hsk in Hsk'. injection Hsk' as <-.
  destruct pk as [r | | |]; try discriminate.
  apply fltb_Fin in Hlow.
  unfold of_nat, fsub, fopp, fadd in Hhigh. apply fltb_Fin in Hhigh. lra.
Qed.

(** X11.  No call is returned when the crop margin covers the image:
    if twice the crop width is at least the number of rows or the number
    of columns of the decoded image (of two or three axes),
    [extract_barcodes_with_index] returns an empty list whenever it
    returns. *)
Theorem no_calls_when_the_crop_covers_the_image (barcodeIndex : Z)
  (decodedImage : ndarray Z)
  (pixelMagnitudes pixelTraces distances : ndarray npfloat)
  (fov : Z) (cropWidth : R) (zIndex : option Z)
  (globalAligner : option Aligner) (segmenter : option Segmenter)
  (minimumArea : Z) (result : list BarcodeInfo) (planes rows cols : nat) :
  extract_barcodes_with_index barcodeIndex decodedImage pixelMagnitudes
    pixelTraces distances fov (Fin cropWidth) zIndex globalAligner segmenter
    minimumArea = Some result ->
  shape decodedImage = [rows; cols]%nat \/
  shape decodedImage = [planes; rows; cols]%nat ->
  INR rows <= 2 * cropWidth \/ INR cols <= 2 * cropWidth ->
  result = [].
Proof.
  intros Hres Hshape Hcover.
  destruct result as [| info rest]; [reflexivity |]. exfalso.
  destruct (extracted_record _ _ _ _ _ _ _ _ _ _ _ _ _ Hres (or_introl eq_refl))
    as (p & regions & Hreg & Hp & Hcrop & _ & _).
  pose proof (region_centroid_length _ _ _ _ _ Hreg Hp) as Hdim.
  rewrite <- centroid_length in Hdim.
  apply within_crop_true in Hcrop. cbv zeta in Hcrop.
  destruct Hcrop as [H0 H1].
  assert (Hne : length (Skimage.centroid p) <> 0%nat).
  { apply crop_chain_true in H0. destruct H0 as (pk & _ & Hpk & _).
    destruct (Skimage.centroid p); [| discriminate].
    destruct (if (length (@nil npfloat) =? 2)%nat then 0%nat else 1%nat);
      discriminate. }
  destruct Hdim as [Hdim | Hdim]; [contradiction |].
  destruct Hshape as [Hs | Hs]; rewrite Hs in *; cbn [length] in Hdim;
    rewrite Hdim in H0, H1; cbn [Nat.eqb] in H0, H1.
  - pose proof (crop_chain_room _ _ _ _ _ H0 eq_refl).
    pose proof (crop_chain_room _ _ _ _ _ H1 eq_refl). lra.
  - pose proof (crop_chain_room _ _ _ _ _ H0 eq_refl).
    pose proof (crop_chain_room _ _ _ _ _ H1 eq_refl). lra.
Qed.

Lemma no_calls_when_the_crop_covers_the_image_witness :
  extract_barcodes_with_index 0 strip_image strip_magnitudes strip_traces
    strip_distances 0 (Fin 2) None None None 0 = Some [].
Proof.
  destruct (extract_barcodes_with_index 0 strip_image strip_magnitudes
              strip_traces strip_distances 0 (Fin 2) None None None 0)
    as [result |] eqn:Hres.
  - f_equal.
    apply (@no_calls_when_the_crop_covers_the_image 0%Z strip_image
             strip_magnitudes strip_traces strip_distances 0%Z 2 None None
             None 0%Z result 0%nat 4%nat 4%nat Hres).
    + left. reflexivity.
    + left. simpl. lra.
  - exfalso. revert Hres.
    unfold extract_barcodes_with_index. rewrite strip_regions.
    unfold bind at 1. cbn [comprehension].
    rewrite strip_centroid.
    unfold _position_within_crop, crop_chain, bind, of_nat.
    cbn [length Nat.eqb nth_error strip_image shape fsub fopp fadd].
    rewrite (proj2 (fltb_Fin_false 2 2)) by lra. discriminate.
Defined.

(** *** An image without the barcode *)

Lemma foreground_without (decodedImage : ndarray Z) (barcodeIndex : Z) :
  ~ In barcodeIndex (data decodedImage) ->
  Skimage.foreground (eq_mask decodedImage barcodeIndex) = [].
Proof.
  intros Hnot. unfold Skimage.foreground.
  rewrite <- (filter_false (ndindex (shape (eq_mask decodedImage barcodeIndex)))).
  apply filter_ext. intros c.
  unfold eq_mask. rewrite getitem_map.
  unfold getitem. destruct (ravel (shape decodedImage) c) as [off |];
    [| reflexivity].
  destruct (nth_error (data decodedImage) off) as [v |] eqn:Hv; [| reflexivity].
  cbn [option_map]. apply nth_error_In in Hv.
  destruct (Z.eqb_spec v barcodeIndex) as [-> | _]; [contradiction | reflexivity].
Qed.

Lemma max_label_zeros {A : Type} (l : list A) :
  fold_right Nat.max 0%nat (map (fun _ => 0%nat) l) = 0%nat.
Proof. induction l as [| a l IH]; simpl; auto. Qed.

Lemma regions_without (decodedImage : ndarray Z) (barcodeIndex : Z)
  (intensity : option (ndarray npfloat)) :
  ~ In barcodeIndex (data decodedImage) ->
  Skimage.regionprops (Skimage.label (eq_mask decodedImage barcodeIndex))
                      intensity
  = if ((length (shape decodedImage) =? 2)%nat
        || (length (shape decodedImage) =? 3)%nat)%bool
    then Some [] else None.
Proof.
  intros Hnot. unfold Skimage.regionprops, Skimage.label, Skimage.max_label.
  rewrite (foreground_without _ _ Hnot).
  cbn [length Skimage.components Skimage.label_of shape data].
  rewrite max_label_zeros. cbn [seq map filter].
  change (shape (eq_mask decodedImage barcodeIndex)) with (shape decodedImage).
  destruct ((length (shape decodedImage) =? 2)%nat
            || (length (shape decodedImage) =? 3)%nat)%bool; reflexivity.
Qed.

(** X12.  On a decoded image in which the barcode index does not
    occur, [extract_barcodes_with_index] returns no call when the image
    has two or three axes, and raises otherwise. *)
Theorem extraction_without_the_barcode_is_empty (barcodeIndex : Z)
  (decodedImage : ndarray Z)
  (pixelMagnitudes pixelTraces distances : ndarray npfloat)
  (fov : Z) (cropWidth : npfloat) (zIndex : option Z)
  (globalAligner : option Aligner) (segmenter : option Segmenter)
  (minimumArea : Z) :
  ~ In barcodeIndex (data decodedImage) ->
  extract_barcodes_with_index barcodeIndex decodedImage pixelMagnitudes
    pixelTraces distances fov cropWidth zIndex globalAligner segmenter
    minimumArea
  = if ((length (shape decodedImage) =? 2)%nat
        || (length (shape decodedImage) =? 3)%nat)%bool
    then Some [] else None.
Proof.
  intros Hnot. unfold extract_barcodes_with_index.
  rewrite (regions_without _ _ _ Hnot).
  destruct ((length (shape decodedImage) =? 2)%nat
            || (length (shape decodedImage) =? 3)%nat)%bool; reflexivity.
Qed.

Lemma extraction_without_the_barcode_is_empty_witness :
  extract_barcodes_with_index 0 blank_image blank_magnitudes blank_traces
    blank_magnitudes 0 (Fin 0) None None None 0 = Some [].
Proof.
  apply (@extraction_without_the_barcode_is_empty 0%Z blank_image
           blank_magnitudes blank_traces blank_magnitudes 0%Z (Fin 0)
           None None None 0%Z).
  simpl. intros [H | []]. discriminate.
Defined.

(** *** What a call carries *)

(** X13.  Without a global aligner and without a segmenter, the
    global coordinates of every returned call are its local coordinates
    and its cell index is -1; a call carries the barcode index and the
    field of view that were passed in. *)
Theorem calls_without_aligner_keep_local_coordinates (barcodeIndex : Z)
  (decodedImage : ndarray Z)
  (pixelMagnitudes pixelTraces distances : ndarray npfloat)
  (fov : Z) (cropWidth : npfloat) (zIndex : option Z) (minimumArea : Z)
  (result : list BarcodeInfo) (info : BarcodeInfo) :
  extract_barcodes_with_index barcodeIndex decodedImage pixelMagnitudes
    pixelTraces distances fov cropWidth zIndex None None minimumArea
    = Some result ->
  In info result ->
  global_x info = x info /\ global_y info = y info /\
  global_z info = z info /\
  cell_index info = Some (-1)%Z /\
  barcode_id info = barcodeIndex /\ Decoding.fov info = fov.
Proof.
  intros Hres Hin.
  destruct (extracted_record _ _ _ _ _ _ _ _ _ _ _ _ _ Hres Hin)
    as (p & regions & _ & _ & _ & _ & Hdict).
  destruct (dict_fields _ _ _ _ _ _ _ _ _ Hdict)
    as (ic & g & _ & _ & Hg & Hz & Hx & Hy & Hcell & Hid & _).
  destruct (dict_stats _ _ _ _ _ _ _ _ _ Hdict) as (_ & _ & _ & _ & _ & _ & Hfov).
  subst g. cbn [nth_error] in Hz, Hx, Hy.
  injection Hz as Hz. injection Hx as Hx. injection Hy as Hy.
  repeat split; auto.
Qed.

Lemma calls_without_aligner_keep_local_coordinates_witness :
  exists info,
    extract_barcodes_with_index 0 strip_image strip_magnitudes strip_traces
      strip_distances 0 (Fin 1) None None None 0 = Some [info] /\
    global_x info = x info /\ global_y info = y info /\
    global_z info = z info /\
    cell_index info = Some (-1)%Z /\
    barcode_id info = 0%Z /\ Decoding.fov info = 0%Z.
Proof.
  destruct (strip_extracted None) as (info & Hinfo & _).
  exists info. split; [exact Hinfo |].
  exact (@calls_without_aligner_keep_local_coordinates 0%Z strip_image
           strip_magnitudes strip_traces strip_distances 0%Z (Fin 1) None 0%Z
           [info] info Hinfo (or_introl eq_refl)).
Defined.

Lemma weighted_centroid_length (p : Skimage.RegionProperties)
  (wc : list npfloat) :
  Skimage.weighted_centroid p = Some wc -> length wc = Skimage.ndim p.
Proof.
  unfold Skimage.weighted_centroid.
  destruct (Skimage.intensities p); [| discriminate].
  intros [= <-]. now rewrite length_map, length_seq.
Qed.

(** X14.  The coordinates of a call are those of the
    intensity-weighted centroid of its region, with x the column and y the
    row: on a decoded image of two axes [z] is [zIndex], [x] the column
    and [y] the row of that centroid; on an image of three axes [z], [y]
    and [x] are its plane, row and column. *)
Theorem call_coordinates_follow_the_image_axes (barcodeIndex : Z)
  (decodedImage : ndarray Z)
  (pixelMagnitudes pixelTraces distances : ndarray npfloat)
  (fov : Z) (cropWidth : npfloat) (zIndex : option Z)
  (globalAligner : option Aligner) (segmenter : option Segmenter)
  (minimumArea : Z) (result : list BarcodeInfo) (info : BarcodeInfo) :
  extract_barcodes_with_index barcodeIndex decodedImage pixelMagnitudes
    pixelTraces distances fov cropWidth zIndex globalAligner segmenter
    minimumArea = Some result ->
  In info result ->
  exists p regions weighted,
    Skimage.regionprops (Skimage.label (eq_mask decodedImage barcodeIndex))
                        (Some pixelMagnitudes) = Some regions /\
    In p regions /\
    Skimage.weighted_centroid p = Some weighted /\
    (length (shape decodedImage) = 2%nat ->
     exists row col,
       weighted = [row; col] /\
       z info = option_map of_Z zIndex /\
       x info = Some col /\ y info = Some row) /\
    (length (shape decodedImage) = 3%nat ->
     exists plane row col,
       weighted = [plane; row; col] /\
       z info = Some plane /\ x info = Some col /\ y info = Some row).
Proof.
  intros Hres Hin.
  destruct (extracted_record _ _ _ _ _ _ _ _ _ _ _ _ _ Hres Hin)
    as (p & regions & Hreg & Hp & Hcrop & _ & Hdict).
  destruct (dict_fields _ _ _ _ _ _ _ _ _ Hdict)
    as (wc & g & Hwc & Hzxy & _).
  exists p, regions, wc. repeat split; auto.
  - intros H2.
    pose proof (weighted_centroid_length _ _ Hwc) as Hlen.
    pose proof (region_centroid_length _ _ _ _ _ Hreg Hp) as Hdim.
    assert (Hne : Skimage.ndim p <> 0%nat).
    { rewrite <- centroid_length.
      apply within_crop_true in Hcrop. destruct Hcrop as [H0 _].
      apply crop_chain_true in H0. destruct H0 as (pk & _ & Hpk & _).
      destruct (Skimage.centroid p); [| discriminate].
      destruct (if (length (@nil npfloat) =? 2)%nat then 0%nat else 1%nat);
        discriminate. }
    destruct Hdim as [Hdim | Hdim]; [contradiction |].
    rewrite Hdim, H2 in Hlen.
    destruct wc as [| row [| col [| ? ?]]]; try discriminate.
    exists row, col. cbn [length Nat.eqb nth_error] in Hzxy.
    injection Hzxy as Hz Hx Hy. auto.
  - intros H3.
    pose proof (weighted_centroid_length _ _ Hwc) as Hlen.
    pose proof (region_centroid_length _ _ _ _ _ Hreg Hp) as Hdim.
    assert (Hne : Skimage.ndim p <> 0%nat).
    { rewrite <- centroid_length.
      apply within_crop_true in Hcrop. destruct Hcrop as [H0 _].
      apply crop_chain_true in H0. destruct H0 as (pk & _ & Hpk & _).
      destruct (Skimage.centroid p); [| discriminate].
      destruct (if (length (@nil npfloat) =? 2)%nat then 0%nat else 1%nat);
        discriminate. }
    destruct Hdim as [Hdim | Hdim]; [contradiction |].
    rewrite Hdim, H3 in Hlen.
    destruct wc as [| plane [| row [| col [| ? ?]]]]; try discriminate.
    exists plane, row, col. cbn [length Nat.eqb nth_error] in Hzxy.
    injection Hzxy as Hz Hx Hy. auto.
Qed.

Lemma call_coordinates_follow_the_image_axes_witness :
  exists info p regions weighted,
    extract_barcodes_with_index 0 strip_image strip_magnitudes strip_traces
      strip_distances 0 (Fin 1) None None None 0 = Some [info] /\
    Skimage.regionprops (Skimage.label (eq_mask strip_image 0))
                        (Some strip_magnitudes) = Some regions /\
    In p regions /\
    Skimage.weighted_centroid p = Some weighted /\
    (length (shape strip_image) = 2%nat ->
     exists row col,
       weighted = [row; col] /\
       z info = option_map of_Z None /\
       x info = Some col /\ y info = Some row).
Proof.
  destruct (strip_extracted None) as (info & Hinfo & _).
  destruct (@call_coordinates_follow_the_image_axes 0%Z strip_image
              strip_magnitudes strip_traces strip_distances 0%Z (Fin 1) None
              None None 0%Z [info] info Hinfo (or_introl eq_refl))
    as (p & regions & weighted & H1 & H2 & H3 & H4 & _).
  exists info, p, regions, weighted. auto.
Defined.

(** *** Decoding, then extracting *)

Section Compose.
Variable GaussianBlur : ndarray npfloat -> Z * Z -> R -> ndarray npfloat.
Variable kneighbors : array23 -> list npfloat -> npfloat * Z.

(** X15.  Decoding, then extracting.  Every call extracted for a
    barcode index other than -1 from the images that [decode_pixels]
    returned has a [min_distance] that is at most the distance threshold
    and a [max_intensity] that is not below the magnitude threshold. *)
Theorem calls_of_a_decode_respect_thresholds (self : PixelBasedDecoder)
  (imageData : ndarray npfloat) (scaleFactors backgrounds : option (list npfloat))
  (distanceThreshold magnitudeThreshold : npfloat) (lowPassSigma : R)
  (decodedImage : ndarray Z) (pixelMagnitudes traces distances : ndarray npfloat)
  (barcodeIndex fov : Z) (cropWidth : npfloat) (zIndex : option Z)
  (globalAligner : option Aligner) (segmenter : option Segmenter)
  (minimumArea : Z) (result : list BarcodeInfo) (info : BarcodeInfo) :
  decode_pixels GaussianBlur kneighbors self imageData scaleFactors backgrounds
                distanceThreshold magnitudeThreshold lowPassSigma
    = Some (decodedImage, pixelMagnitudes, traces, distances) ->
  barcodeIndex <> (-1)%Z ->
  extract_barcodes_with_index barcodeIndex decodedImage pixelMagnitudes traces
    distances fov cropWidth zIndex globalAligner segmenter minimumArea
    = Some result ->
  In info result ->
  fleb (min_distance info) distanceThreshold = true /\
  fltb (max_intensity info) magnitudeThreshold = false.
Proof.
  intros Hdec Hb Hext Hin.
  destruct (decode_at GaussianBlur kneighbors _ _ _ _ _ _ _ _ _ _ _ Hdec)
    as (HsD & HsM & HsDs & _ & Hat).
  destruct (extracted_record _ _ _ _ _ _ _ _ _ _ _ _ _ Hext Hin)
    as (p & regions & Hreg & Hp & _ & _ & Hdict).
  destruct (dict_stats _ _ _ _ _ _ _ _ _ Hdict)
    as (d & Hd & Hmin & _ & _ & Hmax & _).
  assert (Hpixel : forall c, In c (Skimage.coords p) ->
            exists off m dv,
              ravel (tl (shape imageData)) c = Some off /\
              length c = length (tl (shape imageData)) /\
              nth_error (data pixelMagnitudes) off = Some m /\
              nth_error (data distances) off = Some dv /\
              fltb m magnitudeThreshold = false /\
              fleb dv distanceThreshold = true).
  { intros c Hc.
    destruct (region_pixels_decoded _ _ _ _ _ _ Hreg Hp Hc) as [Hidx Hget].
    pose proof (ndindex_dims _ _ Hidx) as Hlen.
    unfold getitem in Hget. rewrite HsD in Hget, Hlen.
    destruct (ravel (tl (shape imageData)) c) as [off |] eqn:Hoff;
      [| discriminate].
    specialize (Hat off).
    destruct (nth_error (scaled_pixel_traces _ _ _ _ _) off) as [trace |].
    - cbv zeta in Hat. destruct Hat as (HM & HDs & HD).
      rewrite HD in Hget. injection Hget as Hlbl.
      do 3 eexists. split; [reflexivity |]. split; [exact Hlen |].
      split; [exact HM |]. split; [exact HDs |].
      destruct (fltb (pixel_magnitude trace) magnitudeThreshold);
        [congruence |].
      split; [reflexivity |].
      destruct (fleb _ distanceThreshold); [reflexivity | congruence].
    - destruct Hat as (_ & _ & HD). rewrite HD in Hget. discriminate. }
  pose proof (regionprops_dims _ _ _ Hreg) as Hdims.
  change (shape (Skimage.label (eq_mask decodedImage barcodeIndex)))
    with (shape decodedImage) in Hdims.
  rewrite HsD in Hdims.
  split.
  - apply amin_In in Hmin.
    rewrite HsDs in Hd.
    assert (Hsrc : exists c, In c (Skimage.coords p) /\
                             getitem distances c = Some (min_distance info)).
    { destruct Hdims as [H2 | H3].
      - rewrite H2 in Hd. cbn [Nat.eqb] in Hd.
        destruct (mapM_In _ _ _ _ Hd Hmin) as (c & Hc & Hf).
        exists c. split; [exact Hc |].
        destruct (Hpixel c Hc) as (_ & _ & _ & _ & Hlen & _).
        rewrite H2 in Hlen. rewrite (proj1 (pick_all c) Hlen) in Hf. exact Hf.
      - rewrite H3 in Hd. cbn [Nat.eqb] in Hd.
        destruct (mapM_In _ _ _ _ Hd Hmin) as (c & Hc & Hf).
        exists c. split; [exact Hc |].
        destruct (Hpixel c Hc) as (_ & _ & _ & _ & Hlen & _).
        rewrite H3 in Hlen. rewrite (proj2 (pick_all c) Hlen) in Hf. exact Hf. }
    destruct Hsrc as (c & Hc & Hget).
    destruct (Hpixel c Hc) as (off & m & dv & Hoff & _ & _ & HDs & _ & Hle).
    unfold getitem in Hget. rewrite HsDs, Hoff, HDs in Hget.
    injection Hget as <-. exact Hle.
  - unfold Skimage.max_intensity in Hmax.
    destruct (Skimage.intensities p) as [w |] eqn:Hw; [| discriminate].
    apply amax_In in Hmax.
    destruct (Skimage.coords p) as [| c0 cs] eqn:Hcoords.
    { unfold Skimage.intensities in Hw. rewrite Hcoords in Hw.
      destruct (Skimage.intensity_image p); [| discriminate].
      simpl in Hw. injection Hw as <-. destruct Hmax. }
    assert (Hc0 : In c0 (Skimage.coords p)) by (rewrite Hcoords; now left).
    destruct (region_pixels_foreground _ _ _ _ _ Hreg Hp Hc0)
      as (_ & _ & Him & _).
    rewrite <- Hcoords in *.
    destruct (intensities_In _ _ _ _ Him Hw Hmax) as (c & Hc & Hget).
    destruct (Hpixel c Hc) as (off & m & dv & Hoff & _ & HM & _ & Hm & _).
    unfold getitem in Hget. rewrite HsM, Hoff, HM in Hget.
    injection Hget as <-. exact Hm.
Qed.

End Compose.

Lemma hot_regions :
  Skimage.regionprops (Skimage.label (eq_mask hot_labels 0))
                      (Some hot_magnitudes) = Some [hot_region].
Proof. reflexivity. Qed.

Lemma hot_centroid : Skimage.centroid hot_region = [Fin 0; Fin 0].
Proof.
  unfold Skimage.centroid, Skimage.axis_values, hot_region, of_nat.
  cbn [Skimage.ndim Skimage.coords length seq map nth].
  change [Fin (INR 0)] with (map Fin [INR 0]).
  rewrite !mean_Fin by discriminate.
  simpl. fin_list.
Qed.

Lemma hot_extracted :
  exists info,
    extract_barcodes_with_index 0 hot_labels hot_magnitudes hot_traces
      hot_distances 0 (Fin (-1)) None None None 0 = Some [info].
Proof.
  unfold extract_barcodes_with_index. rewrite hot_regions.
  unfold bind at 1. cbn [comprehension].
  rewrite hot_centroid.
  assert (Hcrop : _position_within_crop [Fin 0; Fin 0] (Fin (-1))
                                        (shape hot_labels) = Some true).
  { unfold _position_within_crop, crop_chain, bind, of_nat.
    cbn [length Nat.eqb nth_error hot_labels shape fsub fopp fadd].
    rewrite !(proj2 (fltb_Fin _ _)); try reflexivity; simpl; lra. }
  rewrite Hcrop. unfold bind at 1.
  cbn [andb Skimage.area hot_region Skimage.coords length].
  change (0 <=? Z.of_nat 1)%Z with true. cbv iota.
  eexists. reflexivity.
Qed.

Lemma calls_of_a_decode_respect_thresholds_witness :
  exists info,
    extract_barcodes_with_index 0 hot_labels hot_magnitudes hot_traces
      hot_distances 0 (Fin (-1)) None None None 0 = Some [info] /\
    fleb (min_distance info) default_distanceThreshold = true /\
    fltb (max_intensity info) default_magnitudeThreshold = false.
Proof.
  destruct hot_extracted as (info & Hinfo).
  exists info. split; [exact Hinfo |].
  apply (@calls_of_a_decode_respect_thresholds no_blur nearest_row
           identity2_decoder hot_pixel None None default_distanceThreshold
           default_magnitudeThreshold default_lowPassSigma
           hot_labels hot_magnitudes hot_traces hot_distances
           0%Z 0%Z (Fin (-1)) None None None 0%Z [info] info
           decode_hot_pixel).
  - discriminate.
  - exact Hinfo.
  - now left.
Defined.

(** *** The statistics of a call *)

Lemma finite_list (l : list npfloat) :
  Forall (fun v => exists r, v = Fin r) l -> exists rl, l = map Fin rl.
Proof.
  induction 1 as [| v l [r ->] _ [rl ->]].
  - now exists [].
  - now exists (r :: rl).
Qed.

Lemma fold_fmin_Fin (l : list R) (a : R) :
  fold_left fmin (map Fin l) (Fin a) = Fin (fold_left Rmin l a).
Proof.
  revert a. induction l as [| b l IH]; intros a; simpl; [reflexivity |].
  replace (fmin (Fin a) (Fin b)) with (Fin (Rmin a b)); [apply IH |].
  unfold fmin, Rmin. cbn [isnan].
  destruct (Rle_dec a b) as [Hle | Hgt].
  - now rewrite (proj2 (fltb_Fin_false b a)).
  - rewrite (proj2 (fltb_Fin b a)) by lra. reflexivity.
Qed.

Lemma fold_fmax_Fin (l : list R) (a : R) :
  fold_left fmax (map Fin l) (Fin a) = Fin (fold_left Rmax l a).
Proof.
  revert a. induction l as [| b l IH]; intros a; simpl; [reflexivity |].
  replace (fmax (Fin a) (Fin b)) with (Fin (Rmax a b)); [apply IH |].
  unfold fmax, Rmax. cbn [isnan].
  destruct (Rle_dec a b) as [Hle | Hgt].
  - destruct (Req_dec_T a b) as [-> | Hne].
    + now rewrite (proj2 (fltb_Fin_false b b)) by lra.
    + rewrite (proj2 (fltb_Fin a b)) by lra. reflexivity.
  - now rewrite (proj2 (fltb_Fin_false a b)) by lra.
Qed.

Lemma fold_Rmin_le (l : list R) (a : R) :
  fold_left Rmin l a <= a /\ Forall (fun v => fold_left Rmin l a <= v) l.
Proof.
  revert a. induction l as [| b l IH]; intros a; simpl.
  - split; [lra | constructor].
  - destruct (IH (Rmin a b)) as [H1 H2].
    pose proof (Rmin_l a b). pose proof (Rmin_r a b).
    split; [lra |]. constructor; [lra | exact H2].
Qed.

Lemma fold_Rmax_ge (l : list R) (a : R) :
  a <= fold_left Rmax l a /\ Forall (fun v => v <= fold_left Rmax l a) l.
Proof.
  revert a. induction l as [| b l IH]; intros a; simpl.
  - split; [lra | constructor].
  - destruct (IH (Rmax a b)) as [H1 H2].
    pose proof (Rmax_l a b). pose proof (Rmax_r a b).
    split; [lra |]. constructor; [lra | exact H2].
Qed.

Lemma Rsum_lower (l : list R) (m : R) :
  Forall (fun v => m <= v) l -> INR (length l) * m <= Rsum l.
Proof.
  induction 1 as [| v l Hv _ IH]; cbn [length Rsum fold_right].
  - simpl. lra.
  - rewrite S_INR. unfold Rsum in IH. lra.
Qed.

Lemma Rsum_upper (l : list R) (m : R) :
  Forall (fun v => v <= m) l -> Rsum l <= INR (length l) * m.
Proof.
  induction 1 as [| v l Hv _ IH]; cbn [length Rsum fold_right].
  - simpl. lra.
  - rewrite S_INR. unfold Rsum in IH. lra.
Qed.

Lemma amin_le_mean (l : list R) (v : npfloat) :
  amin (map Fin l) = Some v -> fleb v (mean (map Fin l)) = true.
Proof.
  destruct l as [| a l]; [discriminate |].
  cbn [map amin]. rewrite fold_fmin_Fin. intros [= <-].
  change (Fin a :: map Fin l) with (map Fin (a :: l)).
  rewrite mean_Fin by discriminate.
  apply fleb_Fin.
  destruct (fold_Rmin_le l a) as [H1 H2].
  assert (Hall : Forall (fun v => fold_left Rmin l a <= v) (a :: l))
    by now constructor.
  apply Rsum_lower in Hall.
  assert (Hn : 0 < INR (length (a :: l))) by (apply lt_0_INR; simpl; lia).
  apply Rmult_le_reg_l with (r := INR (length (a :: l))); [exact Hn |].
  replace (INR (length (a :: l)) * (Rsum (a :: l) / INR (length (a :: l))))
    with (Rsum (a :: l)) by (field; lra).
  exact Hall.
Qed.

Lemma mean_le_amax (l : list R) (v : npfloat) :
  amax (map Fin l) = Some v -> fleb (mean (map Fin l)) v = true.
Proof.
  destruct l as [| a l]; [discriminate |].
  cbn [map amax]. rewrite fold_fmax_Fin. intros [= <-].
  change (Fin a :: map Fin l) with (map Fin (a :: l)).
  rewrite mean_Fin by discriminate.
  apply fleb_Fin.
  destruct (fold_Rmax_ge l a) as [H1 H2].
  assert (Hall : Forall (fun v => v <= fold_left Rmax l a) (a :: l))
    by now constructor.
  apply Rsum_upper in Hall.
  assert (Hn : 0 < INR (length (a :: l))) by (apply lt_0_INR; simpl; lia).
  apply Rmult_le_reg_l with (r := INR (length (a :: l))); [exact Hn |].
  replace (INR (length (a :: l)) * (Rsum (a :: l) / INR (length (a :: l))))
    with (Rsum (a :: l)) by (field; lra).
  exact Hall.
Qed.

Lemma getitem_In {A : Type} (a : ndarray A) (c : coord) (v : A) :
  getitem a c = Some v -> In v (data a).
Proof.
  unfold getitem. destruct (ravel (shape a) c); [| discriminate].
  apply nth_error_In.
Qed.

Lemma regionprops_intensity_image (labels : ndarray nat)
  (intensity : option (ndarray npfloat))
  (regions : list Skimage.RegionProperties) (p : Skimage.RegionProperties) :
  Skimage.regionprops labels intensity = Some regions -> In p regions ->
  Skimage.intensity_image p = intensity.
Proof.
  unfold Skimage.regionprops.
  destruct (negb _); [discriminate |].
  set (px := filter _ _).
  assert (Hmap : In p (map (fun c => Skimage.mk_region c intensity) px) ->
                 Skimage.intensity_image p = intensity).
  { intros Hin. apply in_map_iff in Hin. now destruct Hin as (c & <- & _). }
  destruct px as [| c0 cs]; [intros [= <-] [] |].
  destruct intensity as [im |].
  - destruct (list_eq_dec Nat.eq_dec (shape im) (shape labels));
      [| discriminate].
    intros [= <-]. exact Hmap.
  - intros [= <-]. exact Hmap.
Qed.

(** X16.  When the distance image and the magnitude image hold
    finite numbers only, every returned call has [min_distance] at most
    [mean_distance] and [mean_intensity] at most [max_intensity]. *)
Theorem call_statistics_are_ordered (barcodeIndex : Z)
  (decodedImage : ndarray Z)
  (pixelMagnitudes pixelTraces distances : ndarray npfloat)
  (fov : Z) (cropWidth : npfloat) (zIndex : option Z)
  (globalAligner : option Aligner) (segmenter : option Segmenter)
  (minimumArea : Z) (result : list BarcodeInfo) (info : BarcodeInfo) :
  extract_barcodes_with_index barcodeIndex decodedImage pixelMagnitudes
    pixelTraces distances fov cropWidth zIndex globalAligner segmenter
    minimumArea = Some result ->
  In info result ->
  Forall (fun v => exists r, v = Fin r) (data distances) ->
  Forall (fun v => exists r, v = Fin r) (data pixelMagnitudes) ->
  fleb (min_distance info) (mean_distance info) = true /\
  fleb (mean_intensity info) (max_intensity info) = true.
Proof.
  intros Hres Hin Hdist Hmag.
  destruct (extracted_record _ _ _ _ _ _ _ _ _ _ _ _ _ Hres Hin)
    as (p & regions & Hreg & Hp & _ & _ & Hdict).
  destruct (dict_stats _ _ _ _ _ _ _ _ _ Hdict)
    as (d & Hd & Hmin & Hmean & Hmi & Hmx & _).
  split.
  - assert (Hfin : Forall (fun v => exists r, v = Fin r) d).
    { apply Forall_forall. intros v Hv.
      rewrite Forall_forall in Hdist. apply Hdist.
      destruct (length (shape distances) =? 2)%nat;
        destruct (mapM_In _ _ _ _ Hd Hv) as (c & _ & Hf);
        unfold bind in Hf; destruct (pick c _); try discriminate;
        now apply getitem_In in Hf. }
    destruct (finite_list _ Hfin) as [rl ->].
    rewrite Hmean. now apply amin_le_mean.
  - pose proof (regionprops_intensity_image _ _ _ _ Hreg Hp) as Him.
    unfold Skimage.mean_intensity in Hmi. unfold Skimage.max_intensity in Hmx.
    destruct (Skimage.intensities p) as [w |] eqn:Hw; [| discriminate].
    cbn [option_map] in Hmi. injection Hmi as <-.
    assert (Hfin : Forall (fun v => exists r, v = Fin r) w).
    { apply Forall_forall. intros v Hv.
      rewrite Forall_forall in Hmag. apply Hmag.
      destruct (intensities_In _ _ _ _ Him Hw Hv) as (c & _ & Hg).
      now apply getitem_In in Hg. }
    destruct (finite_list _ Hfin) as [rl ->].
    now apply mean_le_amax.
Qed.

Lemma call_statistics_are_ordered_witness :
  exists info,
    extract_barcodes_with_index 0 strip_image strip_magnitudes strip_traces
      strip_distances 0 (Fin 1) None None None 0 = Some [info] /\
    fleb (min_distance info) (mean_distance info) = true /\
    fleb (mean_intensity info) (max_intensity info) = true.
Proof.
  destruct (strip_extracted None) as (info & Hinfo & _).
  exists info. split; [exact Hinfo |].
  apply (@call_statistics_are_ordered 0%Z strip_image strip_magnitudes
           strip_traces strip_distances 0%Z (Fin 1) None None None 0%Z
           [info] info Hinfo (or_introl eq_refl)).
  - repeat constructor; eexists; reflexivity.
  - repeat constructor; eexists; reflexivity.
Defined.

(** *** The pixels and the intensities of a call *)

Lemma ndindex_NoDup (shp : list nat) : NoDup (ndindex shp).
Proof.
  induction shp as [| d rest IH]; cbn [ndindex].
  - constructor; [intros [] | constructor].
  - generalize 0%nat as s. induction d as [| d IHd]; intros s; cbn [seq flat_map].
    + constructor.
    + apply NoDup_app.
      * apply NoDup_map_NoDup_ForallPairs; [| exact IH].
        intros a b _ _ [= ->]. reflexivity.
      * apply IHd.
      * intros c Hc Hc'. apply in_map_iff in Hc. destruct Hc as (c0 & <- & _).
        apply in_flat_map in Hc'. destruct Hc' as (i & Hi & Hc').
        apply in_map_iff in Hc'. destruct Hc' as (c1 & [= <- _] & _).
        apply in_seq in Hi. lia.
Qed.

Lemma regionprops_coords (labels : ndarray nat)
  (intensity : option (ndarray npfloat))
  (regions : list Skimage.RegionProperties) (p : Skimage.RegionProperties) :
  Skimage.regionprops labels intensity = Some regions -> In p regions ->
  Skimage.coords p <> [] /\ NoDup (Skimage.coords p).
Proof.
  unfold Skimage.regionprops.
  destruct (negb _); [discriminate |].
  set (px := filter _ _).
  assert (Hmap : In p (map (fun c => Skimage.mk_region c intensity) px) ->
                 Skimage.coords p <> [] /\ NoDup (Skimage.coords p)).
  { intros Hin. apply in_map_iff in Hin. destruct Hin as (c & <- & Hc).
    cbn [Skimage.coords]. subst px. apply filter_In in Hc.
    destruct Hc as [Hc Hlen]. split.
    - intros ->. discriminate.
    - apply in_map_iff in Hc. destruct Hc as (l & <- & _).
      unfold Skimage.pixels_of. apply NoDup_filter, ndindex_NoDup. }
  destruct px as [| c0 cs]; [intros [= <-] [] |].
  destruct intensity as [im |].
  - destruct (list_eq_dec Nat.eq_dec (shape im) (shape labels));
      [| discriminate].
    intros [= <-]. exact Hmap.
  - intros [= <-]. exact Hmap.
Qed.

(** X17.  The area of a returned call counts distinct pixels decoded
    to its barcode: it is the length of a duplicate-free list of pixel
    coordinates of the decoded image, at least one, each of which carries
    the barcode index. *)
Theorem calls_cover_pixels_of_the_barcode (barcodeIndex : Z)
  (decodedImage : ndarray Z)
  (pixelMagnitudes pixelTraces distances : ndarray npfloat)
  (fov : Z) (cropWidth : npfloat) (zIndex : option Z)
  (globalAligner : option Aligner) (segmenter : option Segmenter)
  (minimumArea : Z) (result : list BarcodeInfo) (info : BarcodeInfo) :
  extract_barcodes_with_index barcodeIndex decodedImage pixelMagnitudes
    pixelTraces distances fov cropWidth zIndex globalAligner segmenter
    minimumArea = Some result ->
  In info result ->
  exists pixels : list coord,
    area info = length pixels /\
    (1 <= area info)%nat /\
    NoDup pixels /\
    forall c, In c pixels ->
      length c = length (shape decodedImage) /\
      getitem decodedImage c = Some barcodeIndex.
Proof.
  intros Hres Hin.
  destruct (extracted_record _ _ _ _ _ _ _ _ _ _ _ _ _ Hres Hin)
    as (p & regions & Hreg & Hp & _ & _ & Hdict).
  destruct (dict_fields _ _ _ _ _ _ _ _ _ Hdict)
    as (_ & _ & _ & _ & _ & _ & _ & _ & _ & _ & Harea).
  destruct (regionprops_coords _ _ _ _ Hreg Hp) as [Hne Hnodup].
  exists (Skimage.coords p). rewrite Harea. unfold Skimage.area.
  split; [reflexivity |]. split.
  - destruct (Skimage.coords p); [now elim Hne | simpl; lia].
  - split; [exact Hnodup |].
    intros c Hc.
    destruct (region_pixels_decoded _ _ _ _ _ _ Hreg Hp Hc) as [Hidx Hget].
    split; [now apply ndindex_dims | exact Hget].
Qed.

Lemma calls_cover_pixels_of_the_barcode_witness :
  exists info pixels,
    extract_barcodes_with_index 0 strip_image strip_magnitudes strip_traces
      strip_distances 0 (Fin 1) None None None 0 = Some [info] /\
    area info = length pixels /\
    (1 <= area info)%nat /\
    NoDup pixels /\
    forall c, In c pixels ->
      length c = length (shape strip_image) /\
      getitem strip_image c = Some 0%Z.
Proof.
  destruct (strip_extracted None) as (info & Hinfo & _).
  destruct (@calls_cover_pixels_of_the_barcode 0%Z strip_image
              strip_magnitudes strip_traces strip_distances 0%Z (Fin 1) None
              None None 0%Z [info] info Hinfo (or_introl eq_refl))
    as (pixels & H).
  exists info, pixels. split; [exact Hinfo | exact H].
Defined.

Lemma dict_intensities (p : Skimage.RegionProperties) (bcIndex fov : Z)
  (distances pixelTraces : ndarray npfloat) (zIndex : option Z)
  (globalAligner : option Aligner) (segmenter : option Segmenter)
  (info : BarcodeInfo) :
  _bc_properties_to_dict p bcIndex fov distances pixelTraces zIndex
                         globalAligner segmenter = Some info ->
  (length (shape pixelTraces) = 3%nat ->
   length (intensity_ info) = hd O (shape pixelTraces)) /\
  (length (shape pixelTraces) <> 3%nat ->
   nth_error (shape pixelTraces) 1 = Some (length (intensity_ info))).
Proof.
  unfold _bc_properties_to_dict. intros H.
  unfold bind in H at 1.
  destruct (Skimage.weighted_centroid p) as [ic |] eqn:Hic; [| discriminate].
  unfold bind in H at 1.
  match type of H with
  | match ?e with Some _ => _ | None => _ end = _ =>
      destruct e as [centroid |] eqn:Hc; [| discriminate]
  end.
  unfold bind in H at 1.
  match type of H with
  | match ?e with Some _ => _ | None => _ end = _ =>
      destruct e as [d |] eqn:Hd; [| discriminate]
  end.
  do 9 (unfold bind in H at 1;
        match type of H with
        | match ?e with Some _ => _ | None => _ end = _ =>
            destruct e eqn:?; [| discriminate]
        end).
  unfold bind in H at 1.
  match type of H with
  | match ?e with Some _ => _ | None => _ end = _ =>
      destruct e as [ints |] eqn:Hints; [| discriminate]
  end.
  inv_bind H. injection H as <-. cbn [intensity_].
  destruct (Nat.eqb_spec (length (shape pixelTraces)) 3) as [H3 | H3].
  - split; [intros _ | intros Hn; contradiction].
    apply mapM_length in Hints. now rewrite Hints, length_seq.
  - split; [intros Hn; contradiction | intros _].
    unfold bind in Hints.
    destruct (nth_error (shape pixelTraces) 1) as [bits |]; [| discriminate].
    apply mapM_length in Hints. now rewrite Hints, length_seq.
Qed.

(** X18.  A returned call has one [intensity_i] entry per bit: as
    many as the first axis of the pixel traces is long when these have
    three axes, and as many as their second axis is long otherwise. *)
Theorem calls_have_one_intensity_per_bit (barcodeIndex : Z)
  (decodedImage : ndarray Z)
  (pixelMagnitudes pixelTraces distances : ndarray npfloat)
  (fov : Z) (cropWidth : npfloat) (zIndex : option Z)
  (globalAligner : option Aligner) (segmenter : option Segmenter)
  (minimumArea : Z) (result : list BarcodeInfo) (info : BarcodeInfo) :
  extract_barcodes_with_index barcodeIndex decodedImage pixelMagnitudes
    pixelTraces distances fov cropWidth zIndex globalAligner segmenter
    minimumArea = Some result ->
  In info result ->
  (length (shape pixelTraces) = 3%nat ->
   length (intensity_ info) = hd O (shape pixelTraces)) /\
  (length (shape pixelTraces) <> 3%nat ->
   nth_error (shape pixelTraces) 1 = Some (length (intensity_ info))).
Proof.
  intros Hres Hin.
  destruct (extracted_record _ _ _ _ _ _ _ _ _ _ _ _ _ Hres Hin)
    as (p & regions & _ & _ & _ & _ & Hdict).
  exact (dict_intensities _ _ _ _ _ _ _ _ _ Hdict).
Qed.

Lemma calls_have_one_intensity_per_bit_witness :
  exists info,
    extract_barcodes_with_index 0 strip_image strip_magnitudes strip_traces
      strip_distances 0 (Fin 1) None None None 0 = Some [info] /\
    (length (shape strip_traces) = 3%nat ->
     length (intensity_ info) = hd O (shape strip_traces)).
Proof.
  destruct (strip_extracted None) as (info & Hinfo & _).
  exists info. split; [exact Hinfo |].
  exact (proj1 (@calls_have_one_intensity_per_bit 0%Z strip_image
                  strip_magnitudes strip_traces strip_distances 0%Z (Fin 1)
                  None None None 0%Z [info] info Hinfo (or_introl eq_refl))).
Defined.

End ExtractProps.

(* ------------------------------------------------------------------ *)
(** * More on extract_refactors *)

Module RefactorProps.

Import Np.
Import Exc.
Import Decoding.
Import Examples.
Import Inputs.
Import NpFacts.
Import ExtractFacts.
Import RefactorFacts.
Import ExtractProps.
Open Scope R_scope.

(** X19.  Without background extraction, [extract_refactors] returns
    backgrounds that are all zero, one per bit, one refactor per bit, and
    one count per barcode: the number of regions of the pixels decoded to
    it whose area reaches [refactorAreaThreshold]. *)
Theorem refactors_without_backgrounds (self : PixelBasedDecoder)
  (decodedImage : ndarray Z)
  (pixelMagnitudes normalizedPixelTraces : ndarray npfloat)
  (refactors backgroundRefactors barcodesSeen : list npfloat) :
  extract_refactors self decodedImage pixelMagnitudes normalizedPixelTraces
                    false
    = Some (refactors, backgroundRefactors, barcodesSeen) ->
  backgroundRefactors = repeat (Fin 0) (_bitCount self) /\
  length refactors = _bitCount self /\
  length barcodesSeen = _barcodeCount self /\
  forall b, (b < _barcodeCount self)%nat ->
    exists regions kept,
      Skimage.regionprops
        (Skimage.label (eq_mask decodedImage (Z.of_nat b))) None
        = Some regions /\
      kept = filter (fun r => (refactorAreaThreshold self <=? Skimage.area r)%nat)
                    regions /\
      nth_error barcodesSeen b = Some (of_nat (length kept)).
Proof.
  unfold extract_refactors. cbn [bind]. intros H.
  destruct (sum_pixel_traces _ _ _ _ _) as [sums |] eqn:Hsums; [| discriminate].
  cbn [bind] in H.
  destruct (masked_pixel_traces _ _) as [masked |]; [| discriminate].
  cbn [bind] in H. injection H as <- <- <-.
  split; [reflexivity |]. split.
  - unfold vscale, reduce_axis0. now rewrite !length_map, length_seq.
  - unfold sum_pixel_traces in Hsums. split.
    + rewrite length_map, (mapM_length _ _ _ Hsums). apply length_seq.
    + intros b Hb.
      assert (Hseq : nth_error (seq 0 (_barcodeCount self)) b = Some b).
      { rewrite nth_error_seq. apply Nat.ltb_lt in Hb. now rewrite Hb. }
      destruct (mapM_nth _ _ _ _ _ Hsums Hseq) as (entry & Hentry & Hnth).
      unfold barcode_regions in Hentry. unfold bind at 1 2 in Hentry.
      destruct (Skimage.regionprops _ _) as [regions |]; [| discriminate].
      inv_bind Hentry. injection Hentry as <-.
      exists regions, (filter (fun r => (refactorAreaThreshold self
                                          <=? Skimage.area r)%nat) regions).
      split; [reflexivity |]. split; [reflexivity |].
      rewrite nth_error_map, Hnth. reflexivity.
Qed.

Lemma refactors_without_backgrounds_witness :
  [Fin 0; Fin 0] = repeat (Fin 0) (_bitCount identity2_decoder) /\
  length [NaN; NaN] = _bitCount identity2_decoder /\
  length [Fin 0; Fin 0] = _barcodeCount identity2_decoder /\
  forall b, (b < _barcodeCount identity2_decoder)%nat ->
    exists regions kept,
      Skimage.regionprops
        (Skimage.label (eq_mask blank_image (Z.of_nat b))) None
        = Some regions /\
      kept = filter (fun r => (refactorAreaThreshold identity2_decoder
                               <=? Skimage.area r)%nat) regions /\
      nth_error [Fin 0; Fin 0] b = Some (of_nat (length kept)).
Proof.
  exact (@refactors_without_backgrounds identity2_decoder blank_image
           blank_magnitudes blank_traces _ _ _ blank_refactors).
Defined.

(** *** The mean of the refactors *)

Lemma fdiv_finite (v m : npfloat) (r : R) :
  fdiv v m = Fin r ->
  exists a, v = Fin a /\ (forall b, m = Fin b -> b <> 0).
Proof.
  destruct v as [a | | |]; destruct m as [b | | |]; simpl; try discriminate.
  - destruct (Req_dec_T b 0) as [Hb | Hb].
    + unfold inf_signed. destruct (Req_dec_T a 0); [discriminate |].
      destruct (Rlt_dec 0 a); discriminate.
    + intros _. exists a. split; [reflexivity |]. now intros b' [= <-].
  - intros _. exists a. split; [reflexivity | discriminate].
  - intros _. exists a. split; [reflexivity | discriminate].
  - destruct (Rlt_dec b 0); discriminate.
  - destruct (Rlt_dec b 0); discriminate.
Qed.

Lemma Rsum_div (l : list R) (m : R) :
  Rsum (map (fun r => r / m) l) = Rsum l / m.
Proof.
  unfold Rsum. induction l as [| r l IH]; simpl.
  - unfold Rdiv. ring.
  - rewrite IH. unfold Rdiv. ring.
Qed.

Lemma rescaled_mean_one (l : list npfloat) :
  l <> [] ->
  Forall (fun v => exists r, v = Fin r) (vscale fdiv l (mean l)) ->
  mean (vscale fdiv l (mean l)) = Fin 1.
Proof.
  intros Hne Hfin.
  assert (Hl : Forall (fun v => exists r, v = Fin r) l).
  { apply Forall_forall. intros v Hv.
    rewrite Forall_forall in Hfin.
    destruct (Hfin (fdiv v (mean l))) as [r Hr].
    - unfold vscale. apply in_map_iff. now exists v.
    - destruct (fdiv_finite _ _ _ Hr) as (a & -> & _). now exists a. }
  destruct (finite_list _ Hl) as [rl ->].
  destruct rl as [| a rl]; [now elim Hne |].
  rewrite mean_Fin in * by discriminate.
  set (m := Rsum (a :: rl) / INR (length (a :: rl))) in *.
  assert (Hm : m <> 0).
  { rewrite Forall_forall in Hfin.
    destruct (Hfin (fdiv (Fin a) (Fin m))) as [r Hr]; [now left |].
    destruct (fdiv_finite _ _ _ Hr) as (_ & _ & Hb). now apply Hb. }
  rewrite vscale_fdiv_Fin by exact Hm.
  rewrite mean_Fin by discriminate.
  rewrite length_map, Rsum_div. apply Fin_eq.
  assert (Hn : 0 < INR (length (a :: rl))) by (apply lt_0_INR; simpl; lia).
  unfold m in *. field. split; [lra |].
  intros Hs. apply Hm. rewrite Hs. unfold Rdiv. ring.
Qed.

(** X20.  The refactors that [extract_refactors] returns have mean 1
    whenever there is at least one and all of them are finite numbers. *)
Theorem finite_refactors_average_to_one (self : PixelBasedDecoder)
  (decodedImage : ndarray Z)
  (pixelMagnitudes normalizedPixelTraces : ndarray npfloat)
  (extractBackgrounds : bool)
  (refactors backgroundRefactors barcodesSeen : list npfloat) :
  extract_refactors self decodedImage pixelMagnitudes normalizedPixelTraces
                    extractBackgrounds
    = Some (refactors, backgroundRefactors, barcodesSeen) ->
  refactors <> [] ->
  Forall (fun v => exists r, v = Fin r) refactors ->
  mean refactors = Fin 1.
Proof.
  unfold extract_refactors. intros H Hne Hfin.
  inv_bind H. injection H as <- _ _.
  apply rescaled_mean_one; [| exact Hfin].
  intros Hnil. apply Hne. now rewrite Hnil.
Qed.

Lemma patch_regions : barcode_regions patch_image 0 4 = Some [patch_region].
Proof. reflexivity. Qed.

Lemma patch_pixels :
  mapM (unnormalized_trace patch_traces patch_magnitudes)
       (Skimage.coords patch_region)
  = Some [[Fin 3]; [Fin 3]; [Fin 3]; [Fin 3]].
Proof.
  unfold unnormalized_trace. simpl.
  repeat f_equal; lra.
Qed.

Lemma patch_refactors :
  extract_refactors single_decoder patch_image patch_magnitudes patch_traces
                    false
  = Some ([Fin 1], [Fin 0], [Fin 1]).
Proof.
  unfold extract_refactors. cbn [bind single_decoder _bitCount repeat].
  assert (Hsums : sum_pixel_traces single_decoder patch_image
                    patch_magnitudes patch_traces [Fin 0]
                  = Some [([Fin 1], Fin 1)]).
  { unfold sum_pixel_traces.
    cbn [single_decoder _barcodeCount _bitCount refactorAreaThreshold seq mapM].
    rewrite patch_regions. unfold bind at 1. cbn [mapM].
    rewrite patch_pixels.
    unfold reduce_axis0, column.
    cbn [bind patch_traces shape hd seq map nth].
    change [Fin 3; Fin 3; Fin 3; Fin 3] with (map Fin [3; 3; 3; 3]).
    rewrite mean_Fin by discriminate.
    replace (Rsum [3; 3; 3; 3] / INR (length [3; 3; 3; 3])) with 3
      by (simpl; lra).
    unfold broadcast. cbn [bind length Nat.eqb vmap2 combine map fst snd].
    replace (fsub (Fin 3) (Fin 0)) with (Fin 3) by (apply Fin_eq; lra).
    change [Fin 3] with (map Fin [3]).
    rewrite norm_Fin.
    replace (sumsq [3]) with (3 * 3) by (unfold sumsq; simpl; lra).
    rewrite sqrt_square by lra.
    rewrite vscale_fdiv_Fin by lra.
    unfold of_nat. cbn [length].
    rewrite vscale_fdiv_Fin by (simpl; lra).
    unfold accumulate, iadd. cbn [fold_left bind map length repeat Nat.eqb].
    unfold vmap2. cbn [combine map fst snd fadd].
    repeat f_equal; simpl; field. }
  rewrite Hsums. cbn [bind map fst snd].
  unfold masked_pixel_traces, mask_nan.
  cbn [single_decoder _decodingMatrix map combine fst snd bind].
  rewrite (proj2 (feqb_Fin_false 1 0)) by lra.
  unfold reduce_axis0, column, nanmean.
  cbn [seq map nth filter isnan negb].
  assert (Hmean : mean [Fin 1] = Fin 1).
  { change [Fin 1] with (map Fin [1]).
    rewrite mean_Fin by discriminate. apply Fin_eq. simpl. lra. }
  rewrite !Hmean. unfold vscale. cbn [map].
  rewrite fdiv_Fin by lra.
  repeat f_equal. field.
Qed.

Lemma finite_refactors_average_to_one_witness : mean [Fin 1] = Fin 1.
Proof.
  apply (@finite_refactors_average_to_one single_decoder patch_image
           patch_magnitudes patch_traces false [Fin 1] [Fin 0] [Fin 1]
           patch_refactors).
  - discriminate.
  - repeat constructor. now exists 1.
Defined.

(** *** Backgrounds when nothing was decoded *)

Lemma nansum_zeros (l : list npfloat) :
  Forall (fun v => v = NaN \/ exists z, v = Fin z /\ z = 0) l ->
  exists z, nansum l = Fin z /\ z = 0.
Proof.
  intros H. unfold nansum.
  assert (Hf : exists rl, filter (fun v => negb (isnan v)) l = map Fin rl /\
                          Forall (fun z => z = 0) rl).
  { induction H as [| v l Hv _ (rl & IH & Hrl)]; [now exists [] |].
    destruct Hv as [-> | (z & -> & Hz)]; cbn [filter isnan negb].
    - now exists rl.
    - exists (z :: rl). rewrite IH. split; [reflexivity | now constructor]. }
  destruct Hf as (rl & -> & Hrl).
  rewrite fsum_Fin. eexists. split; [reflexivity |].
  unfold Rsum. induction Hrl as [| z rl Hz _ IH]; simpl; lra.
Qed.

Lemma fsum_zeros (l : list npfloat) :
  Forall (fun v => v = NaN \/ exists z, v = Fin z /\ z = 0) l ->
  fsum l = NaN \/ exists z, fsum l = Fin z /\ z = 0.
Proof.
  intros H. unfold fsum.
  assert (Hacc : forall acc,
             acc = NaN \/ (exists z, acc = Fin z /\ z = 0) ->
             fold_left fadd l acc = NaN \/
             exists z, fold_left fadd l acc = Fin z /\ z = 0).
  { induction H as [| v l Hv _ IH]; intros acc Hacc; [exact Hacc |].
    cbn [fold_left]. apply IH.
    destruct Hacc as [-> | (a & -> & Ha)]; [now left |].
    destruct Hv as [-> | (z & -> & Hz)]; [now left |].
    right. exists (a + z). split; [reflexivity | lra]. }
  apply Hacc. right. now exists 0.
Qed.

Lemma fdiv_zeros (n d : npfloat) :
  (exists z, n = Fin z /\ z = 0) ->
  d = NaN \/ (exists z, d = Fin z /\ z = 0) ->
  fdiv n d = NaN.
Proof.
  intros (a & -> & ->) [-> | (b & -> & ->)]; [reflexivity |].
  apply fdiv_zero_zero.
Qed.

Lemma column_Forall (P : npfloat -> Prop) (j : nat) (m : list (list npfloat)) :
  P NaN -> Forall (Forall P) m -> Forall P (column j m).
Proof.
  intros Hnan H. unfold column. apply Forall_map.
  eapply Forall_impl; [| exact H]. intros row Hrow. cbv beta.
  destruct (nth_in_or_default j row NaN) as [Hin | ->]; [| exact Hnan].
  rewrite Forall_forall in Hrow. now apply Hrow.
Qed.

(** X21.  When no barcode has a region of at least 5 pixels,
    [_extract_backgrounds] does not raise and returns [nan] (from 0/0) as
    the background of every bit. *)
Theorem backgrounds_without_regions_are_nan (self : PixelBasedDecoder)
  (decodedImage : ndarray Z)
  (pixelMagnitudes normalizedPixelTraces : ndarray npfloat)
  (matrix : list (list npfloat)) :
  _decodingMatrix self = Array2 matrix ->
  (forall b, (b < _barcodeCount self)%nat ->
             barcode_regions decodedImage b 5 = Some []) ->
  _extract_backgrounds self decodedImage pixelMagnitudes normalizedPixelTraces
  = Some (repeat NaN (_bitCount self)).
Proof.
  intros Hmatrix Hnone. unfold _extract_backgrounds.
  assert (Hsums :
            mapM (fun b =>
                    barcodeRegions <- barcode_regions decodedImage b 5 ;;
                    terms <-
                      mapM (fun br =>
                              traces <- mapM (unnormalized_trace
                                                normalizedPixelTraces
                                                pixelMagnitudes)
                                             (Skimage.coords br) ;;
                              min_axis0 (hd O (shape normalizedPixelTraces))
                                        traces)
                           barcodeRegions ;;
                    row <- accumulate (repeat (Fin 0) (_bitCount self)) terms ;;
                    Some (row, of_nat (length barcodeRegions)))
                 (seq 0 (_barcodeCount self))
            = Some (map (fun _ => (repeat (Fin 0) (_bitCount self), Fin 0))
                        (seq 0 (_barcodeCount self)))).
  { apply mapM_all. intros b Hb. apply in_seq in Hb.
    rewrite Hnone by lia. reflexivity. }
  rewrite Hsums. cbn [bind]. rewrite Hmatrix. f_equal.
  rewrite !map_map. cbn [fst snd].
  unfold vmap2, reduce_axis0.
  rewrite <- (map_const_seq NaN 0 (_bitCount self)).
  set (P := fun v : npfloat => v = NaN \/ exists z, v = Fin z /\ z = 0).
  assert (Hzero : P (Fin 0)) by (right; now exists 0).
  assert (Hnan : P NaN) by now left.
  generalize (seq 0 (_bitCount self)) as cols.
  induction cols as [| j cols IH]; [reflexivity |].
  cbn [map combine fst snd]. rewrite IH. f_equal.
  apply fdiv_zeros.
  - apply nansum_zeros. apply column_Forall; [exact Hnan |].
    unfold mask_nan. apply Forall_map, Forall_forall. intros [mrow srow] Hin.
    apply in_combine_r in Hin. apply in_map_iff in Hin.
    destruct Hin as (b & <- & _). cbn [fst snd].
    apply Forall_map, Forall_forall. intros [m s] Hms.
    apply in_combine_r in Hms. apply repeat_spec in Hms. subst s.
    cbn [fst snd]. destruct (fltb (Fin 0) m); assumption.
  - apply fsum_zeros. apply column_Forall; [exact Hnan |].
    apply Forall_map, Forall_forall. intros [mrow seen] Hin.
    apply in_combine_r in Hin. apply in_map_iff in Hin.
    destruct Hin as (b & <- & _). cbn [fst snd].
    apply Forall_map, Forall_forall. intros m _.
    right. destruct (feqb m (Fin 0)); cbn [fmul]; eexists;
      (split; [reflexivity | lra]).
Qed.

Lemma backgrounds_without_regions_are_nan_witness :
  _extract_backgrounds identity2_decoder blank_image blank_magnitudes
                       blank_traces = Some [NaN; NaN].
Proof.
  apply (@backgrounds_without_regions_are_nan identity2_decoder blank_image
           blank_magnitudes blank_traces [[Fin 1; Fin 0]; [Fin 0; Fin 1]]
           eq_refl).
  intros b Hb. destruct b as [| [| b]]; [reflexivity | reflexivity |].
  simpl in Hb. lia.
Defined.

End RefactorProps.

(* ------------------------------------------------------------------ *)
(** * The other tasks of segment.py *)

Module SegmentProps.

Import Np.
Import Exc.
Import Segment.
Import Unique.
Import CleanCellBoundaries.
Import RefineCellDatabases.
Import Examples.
Import Inputs.
Import NpFacts.
Import SegmentFacts.

(** ** _append_cells_to_spatial_tree *)

Section Append.

Variable SpatialIndex : Type.
Variable insert :
  SpatialIndex -> Z -> list npfloat -> SpatialFeature -> SpatialIndex * bool.

(** X22.  [_append_cells_to_spatial_tree] on the concatenation of
    two lists of cells is the call on the first list followed, when that
    call returns, by the call on the second list with the tree that the
    first call left; when the first call raises, so does the whole, with
    the same tree. *)
Theorem appending_in_two_steps (tree : SpatialIndex)
  (first second : list SpatialFeature) (idToNum : string -> option Z) :
  _append_cells_to_spatial_tree insert tree (first ++ second) idToNum
  = let (tree', returned) :=
      _append_cells_to_spatial_tree insert tree first idToNum in
    if returned
    then _append_cells_to_spatial_tree insert tree' second idToNum
    else (tree', false).
Proof.
  revert tree. induction first as [| element rest IH]; intros tree.
  - reflexivity.
  - cbn [app _append_cells_to_spatial_tree].
    destruct (idToNum (get_feature_id element)) as [num |]; [| reflexivity].
    destruct (insert tree num (get_bounding_box element) element)
      as [tree' [|]]; [apply IH | reflexivity].
Qed.

(** X23.  [_append_cells_to_spatial_tree] stops at the first cell
    whose identifier is not a key of [idToNum] (a [KeyError]): the cells
    before it are in the tree, the cell and those after it are not
    inserted. *)
Theorem append_stops_at_a_missing_id (tree tree' : SpatialIndex)
  (before after : list SpatialFeature) (cell : SpatialFeature)
  (idToNum : string -> option Z) :
  _append_cells_to_spatial_tree insert tree before idToNum = (tree', true) ->
  idToNum (get_feature_id cell) = None ->
  _append_cells_to_spatial_tree insert tree (before ++ cell :: after) idToNum
  = (tree', false).
Proof.
  intros Hbefore Hmissing.
  revert tree Hbefore. induction before as [| element rest IH]; intros tree.
  - cbn [app _append_cells_to_spatial_tree]. intros [= <-].
    now rewrite Hmissing.
  - cbn [app _append_cells_to_spatial_tree].
    destruct (idToNum (get_feature_id element)) as [num |]; [| discriminate].
    destruct (insert tree num (get_bounding_box element) element)
      as [tree1 [|]]; [apply IH | discriminate].
Qed.

End Append.

Lemma append_stops_at_a_missing_id_witness :
  _append_cells_to_spatial_tree list_insert []
    ([good_cell] ++ other_cell :: [good_cell]) knows_a
  = ([(0%Z, good_cell)], false).
Proof.
  apply (@append_stops_at_a_missing_id _ list_insert [] [(0%Z, good_cell)]
           [good_cell] [good_cell] other_cell knows_a).
  - reflexivity.
  - reflexivity.
Defined.

(** ** Distinct values *)

Lemma insert_key_In (k x : Z) (keys : list Z) :
  In x (insert_key k keys) <-> x = k \/ In x keys.
Proof.
  induction keys as [| h t IH]; simpl; [intuition |].
  destruct (Z.ltb_spec k h); [simpl; intuition |].
  destruct (Z.eqb_spec k h) as [-> | Hne]; simpl; [intuition |].
  rewrite IH. intuition.
Qed.

Lemma insert_key_sorted (k : Z) (keys : list Z) :
  StronglySorted Z.lt keys -> StronglySorted Z.lt (insert_key k keys).
Proof.
  induction 1 as [| h t Hs IH Hall]; simpl.
  - repeat constructor.
  - destruct (Z.ltb_spec k h).
    + constructor; [now constructor |].
      constructor; [assumption |].
      eapply Forall_impl; [| exact Hall]. intros a Ha. cbv beta in *. lia.
    + destruct (Z.eqb_spec k h) as [-> | Hne]; [now constructor |].
      constructor; [exact IH |].
      apply Forall_forall. intros x Hx. apply insert_key_In in Hx.
      destruct Hx as [-> | Hx]; [lia |].
      rewrite Forall_forall in Hall. now apply Hall.
Qed.

Lemma unique_In (values : list Z) (k : Z) :
  In k (unique values) <-> In k values.
Proof.
  unfold unique. induction values as [| v values IH]; simpl; [tauto |].
  rewrite insert_key_In, IH. intuition.
Qed.

Lemma unique_sorted (values : list Z) : StronglySorted Z.lt (unique values).
Proof.
  unfold unique. induction values as [| v values IH]; simpl.
  - constructor.
  - now apply insert_key_sorted.
Qed.

Lemma group_keys_In (rows : list CleanedRow) (k : Z) :
  In k (unique (map assignedFOV rows)) <->
  exists r, In r rows /\ assignedFOV r = k.
Proof.
  rewrite unique_In, in_map_iff. split; intros (r & H1 & H2); exists r; auto.
Qed.

Lemma filter_sorted (f : Z -> bool) (l : list Z) :
  StronglySorted Z.lt l -> StronglySorted Z.lt (filter f l).
Proof.
  induction 1 as [| h t Hs IH Hall]; simpl; [constructor |].
  destruct (f h); [| exact IH].
  constructor; [exact IH |].
  apply Forall_forall. intros x Hx. apply filter_In in Hx.
  rewrite Forall_forall in Hall. now apply Hall.
Qed.

(** ** WatershedSegment *)

Section Watershed.

Variable GaussianBlur : ndarray npfloat -> Z * Z -> R -> ndarray npfloat.
Variable get_aligned_image : Z -> Z -> nat -> ndarray npfloat.
Variable get_z_positions : list npfloat.
Variable organization_z_positions : list npfloat.
Variable get_data_channel_index : string -> option Z.
Variable extract_seeds : list (ndarray npfloat) -> ndarray Z.
Variable separate_merged_seeds : ndarray Z -> ndarray Z.
Variable prepare_watershed_images :
  list (ndarray npfloat) -> ndarray npfloat * ndarray bool.
Variable measure_label : ndarray Z -> ndarray Z.
Variable segmentation_watershed :
  ndarray npfloat -> ndarray Z -> ndarray bool -> ndarray Z.
Variables Transform Feature FeatureDB : Type.
Variable fov_to_global_transform : Z -> Transform.
Variable feature_from_label_matrix :
  ndarray bool -> Z -> Transform -> list npfloat -> Feature.
Variable write_features : FeatureDB -> list Feature -> Z -> FeatureDB.

(** X24.  When [WatershedSegment._run_analysis] returns, both image
    stacks were read with a filter of standard deviation 5, the seeds are
    the seeds found with 0 wherever the watershed mask is false, and
    [write_features] was called once, for the fragment, with one feature
    per label of the watershed output other than 0, by increasing label
    and without repetition, each built from the mask of the pixels with
    that label. *)
Theorem one_feature_per_nonzero_label
  (seed_channel_name watershed_channel_name : string)
  (featureDB db' : FeatureDB) (fragmentIndex : Z) :
  WatershedSegment._run_analysis GaussianBlur get_aligned_image
    get_z_positions organization_z_positions get_data_channel_index
    extract_seeds separate_merged_seeds prepare_watershed_images
    measure_label segmentation_watershed fov_to_global_transform
    feature_from_label_matrix write_features
    seed_channel_name watershed_channel_name featureDB fragmentIndex
    = Some db' ->
  exists seedIndex watershedIndex seeds output labels,
    get_data_channel_index seed_channel_name = Some seedIndex /\
    get_data_channel_index watershed_channel_name = Some watershedIndex /\
    let found :=
      separate_merged_seeds
        (extract_seeds
           (WatershedSegment._read_and_filter_image_stack GaussianBlur
              get_aligned_image get_z_positions fragmentIndex seedIndex 5)) in
    let prepared :=
      prepare_watershed_images
        (WatershedSegment._read_and_filter_image_stack GaussianBlur
           get_aligned_image get_z_positions fragmentIndex watershedIndex 5) in
    shape (snd prepared)
      = firstn (length (shape (snd prepared))) (shape found) /\
    shape seeds = shape found /\
    (forall p s,
        nth_error (data found) p = Some s ->
        nth_error (data seeds) p
        = Some (if nth (p / Decoding.prod
                              (skipn (length (shape (snd prepared)))
                                     (shape found)))
                       (data (snd prepared)) true
                then s else 0%Z)) /\
    output = segmentation_watershed (fst prepared) (measure_label seeds)
                                    (snd prepared) /\
    StronglySorted Z.lt labels /\
    (forall i, In i labels <-> i <> 0%Z /\ In i (data output)) /\
    db' = write_features featureDB
            (map (fun i =>
                    feature_from_label_matrix
                      (Decoding.eq_mask output i) fragmentIndex
                      (fov_to_global_transform fragmentIndex)
                      organization_z_positions)
                 labels)
            fragmentIndex.
Proof.
  unfold WatershedSegment._run_analysis. intros H.
  unfold bind in H at 1.
  destruct (get_data_channel_index seed_channel_name) as [seedIndex |];
    [| discriminate].
  unfold bind in H at 1.
  destruct (get_data_channel_index watershed_channel_name)
    as [watershedIndex |]; [| discriminate].
  unfold bind in H at 1.
  destruct (WatershedSegment.clear_outside _ _) as [seeds |] eqn:Hseeds;
    [| discriminate].
  injection H as <-.
  unfold WatershedSegment.clear_outside in Hseeds.
  destruct (list_eq_dec Nat.eq_dec _ _) as [Hshape |]; [| discriminate].
  injection Hseeds as Hseeds.
  exists seedIndex, watershedIndex, seeds. eexists.
  eexists (filter (fun i => negb (i =? 0)%Z) (unique _)).
  split; [reflexivity |]. split; [reflexivity |]. cbv zeta.
  split; [exact Hshape |]. split; [now rewrite <- Hseeds |]. split.
  - intros p s Hs. rewrite <- Hseeds. cbn [data].
    erewrite map_nth_error.
    2:{ apply DecodeFacts.nth_error_combine. split; [| exact Hs].
        rewrite nth_error_seq.
        assert (Hp : (p < length (data
                  (separate_merged_seeds
                     (extract_seeds
                        (WatershedSegment._read_and_filter_image_stack
                           GaussianBlur get_aligned_image get_z_positions
                           fragmentIndex seedIndex 5)))))%nat)
          by (apply nth_error_Some; congruence).
        apply Nat.ltb_lt in Hp. rewrite Hp. reflexivity. }
    cbn [fst snd]. now destruct (nth _ _ true).
  - split; [reflexivity |]. split.
    + apply filter_sorted, unique_sorted.
    + split; [| reflexivity].
      intros i. rewrite filter_In, unique_In, negb_true_iff, Z.eqb_neq. tauto.
Qed.

End Watershed.

Lemma one_feature_per_nonzero_label_witness :
  exists db' seeds output labels,
    WatershedSegment._run_analysis no_blur dark_image [Fin 0] [Fin 0]
      first_channel two_seeds same_labels left_mask same_labels seeds_stay
      (fun _ => tt) mask_feature keep_features
      "DAPI" "polyT" [] 0 = Some db' /\
    output = seeds_stay (fst (left_mask [])) (same_labels seeds)
                        (snd (left_mask [])) /\
    StronglySorted Z.lt labels /\
    (forall i, In i labels <-> i <> 0%Z /\ In i (data output)) /\
    db' = keep_features []
            (map (fun i => mask_feature (Decoding.eq_mask output i) 0 tt
                                        [Fin 0])
                 labels)
            0.
Proof.
  assert (Hrun : exists db',
             WatershedSegment._run_analysis no_blur dark_image [Fin 0] [Fin 0]
               first_channel two_seeds same_labels left_mask same_labels
               seeds_stay (fun _ => tt) mask_feature keep_features
               "DAPI" "polyT" [] 0 = Some db')
    by (eexists; reflexivity).
  destruct Hrun as [db' Hrun].
  destruct (@one_feature_per_nonzero_label no_blur dark_image [Fin 0] [Fin 0]
              first_channel two_seeds same_labels left_mask same_labels
              seeds_stay unit _ _ (fun _ => tt) mask_feature keep_features
              "DAPI" "polyT" [] db' 0%Z Hrun)
    as (si & wi & seeds & output & labels & _ & _ & _ & _ & _ & Hout & Hs & Hl
        & Hdb).
  exists db', seeds, output, labels. auto.
Defined.

(** ** RefineCellDatabases *)

Lemma group_ids (id : string) (rows : list CleanedRow) (fragmentIndex k : Z) :
  existsb (String.eqb id)
          (map cell_id
               (filter (fun r => (assignedFOV r =? k)%Z)
                       (filter (fun r => (originalFOV r =? fragmentIndex)%Z)
                               rows)))
  = existsb (fun row => (originalFOV row =? fragmentIndex)%Z
                        && (assignedFOV row =? k)%Z
                        && String.eqb id (cell_id row))
            rows.
Proof.
  induction rows as [| row rows IH]; [reflexivity |].
  simpl. destruct (originalFOV row =? fragmentIndex)%Z; simpl;
    [destruct (assignedFOV row =? k)%Z; simpl |];
    now rewrite <- IH.
Qed.

Section Refine.

Variable FeatureDB : Type.
Variable write_features : FeatureDB -> list SpatialFeature -> Z -> FeatureDB.

(** The loop over the groups, for any feature database: one call of
    [write_features] per assigned field of view among the rows of the
    fragment, by increasing field of view, each with the original cells
    whose identifier is in a row of the group. *)
Lemma run_analysis_by_keys
  (cleanedCells : list CleanedRow) (originalCells : list SpatialFeature)
  (featureDB : FeatureDB) (fragmentIndex : Z) :
  exists keys : list Z,
    StronglySorted Z.lt keys /\
    (forall k, In k keys <->
               exists row, In row cleanedCells /\
                           originalFOV row = fragmentIndex /\
                           assignedFOV row = k) /\
    _run_analysis write_features (Some cleanedCells) originalCells featureDB
                  fragmentIndex
    = Some (fold_left
              (fun db k =>
                 write_features db
                   (filter
                      (fun x =>
                         existsb
                           (fun row =>
                              (originalFOV row =? fragmentIndex)%Z
                              && (assignedFOV row =? k)%Z
                              && String.eqb (get_feature_id x) (cell_id row))
                           cleanedCells)
                      originalCells)
                   fragmentIndex)
              keys featureDB).
Proof.
  exists (unique
            (map assignedFOV
                 (filter (fun r => (originalFOV r =? fragmentIndex)%Z)
                         cleanedCells))).
  split; [apply unique_sorted |]. split.
  - intros k. rewrite group_keys_In. split.
    + intros (r & Hr & Hk). apply filter_In in Hr. destruct Hr as [Hr Ho].
      apply Z.eqb_eq in Ho. exists r. auto.
    + intros (r & Hr & Ho & Hk). exists r. split; [| exact Hk].
      apply filter_In. split; [exact Hr | now apply Z.eqb_eq].
  - unfold _run_analysis. cbn [bind]. f_equal.
    unfold groupby_assignedFOV.
    generalize (unique
                  (map assignedFOV
                       (filter (fun r => (originalFOV r =? fragmentIndex)%Z)
                               cleanedCells))) as keys.
    intros keys. revert featureDB.
    induction keys as [| k keys IH]; intros featureDB; [reflexivity |].
    cbn [map fold_left fst snd]. rewrite IH. f_equal. f_equal.
    apply filter_ext. intros x. apply group_ids.
Qed.

End Refine.

Lemma recorded_calls {K : Type} (f : K -> list SpatialFeature * Z)
  (keys : list K) (db : WriteLog) :
  fold_left (fun db k => record_write db (fst (f k)) (snd (f k))) keys db
  = db ++ map f keys.
Proof.
  revert db. induction keys as [| k keys IH]; intros db; simpl.
  - now rewrite app_nil_r.
  - rewrite IH. unfold record_write. rewrite <- app_assoc.
    now destruct (f k).
Qed.

(** X25.  On a feature database that records its calls,
    [RefineCellDatabases._run_analysis] for a fragment writes to that
    fragment only; every cell it writes is an original cell of the
    fragment whose identifier is in a row of the cleaned table with
    [originalFOV] equal to the fragment, every such cell is written, and
    there is one call per assigned field of view found in these rows. *)
Theorem refinement_writes_cells_of_the_fragment
  (cleanedCells : list CleanedRow) (originalCells : list SpatialFeature)
  (fragmentIndex : Z) (calls : WriteLog) :
  _run_analysis record_write (Some cleanedCells) originalCells []
                fragmentIndex = Some calls ->
  (forall features fov,
      In (features, fov) calls ->
      fov = fragmentIndex /\
      forall x, In x features ->
        In x originalCells /\
        exists row, In row cleanedCells /\
                    originalFOV row = fragmentIndex /\
                    cell_id row = get_feature_id x) /\
  (forall x row,
      In x originalCells -> In row cleanedCells ->
      originalFOV row = fragmentIndex ->
      cell_id row = get_feature_id x ->
      exists features, In (features, fragmentIndex) calls /\ In x features) /\
  (exists keys,
      StronglySorted Z.lt keys /\
      (forall k, In k keys <->
                 exists row, In row cleanedCells /\
                             originalFOV row = fragmentIndex /\
                             assignedFOV row = k) /\
      length calls = length keys).
Proof.
  intros Hrun.
  destruct (run_analysis_by_keys WriteLog record_write cleanedCells
              originalCells [] fragmentIndex) as (keys & Hsorted & Hkeys & Heq).
  rewrite Hrun in Heq. injection Heq as Hcalls.
  rewrite (recorded_calls
             (fun k =>
                (filter
                   (fun x =>
                      existsb
                        (fun row =>
                           (originalFOV row =? fragmentIndex)%Z
                           && (assignedFOV row =? k)%Z
                           && String.eqb (get_feature_id x) (cell_id row))
                        cleanedCells)
                   originalCells, fragmentIndex))) in Hcalls.
  cbn [app] in Hcalls. subst calls.
  split; [| split].
  - intros features fov Hin. apply in_map_iff in Hin.
    destruct Hin as (k & [= <- <-] & Hk). split; [reflexivity |].
    intros x Hx. apply filter_In in Hx. destruct Hx as [Hx Hex].
    split; [exact Hx |].
    apply existsb_exists in Hex. destruct Hex as (row & Hrow & Hcond).
    apply andb_true_iff in Hcond. destruct Hcond as [Hcond Hid].
    apply andb_true_iff in Hcond. destruct Hcond as [Ho _].
    apply Z.eqb_eq in Ho. apply String.eqb_eq in Hid.
    exists row. auto.
  - intros x row Hx Hrow Ho Hid.
    exists (filter
              (fun x =>
                 existsb
                   (fun r =>
                      (originalFOV r =? fragmentIndex)%Z
                      && (assignedFOV r =? assignedFOV row)%Z
                      && String.eqb (get_feature_id x) (cell_id r))
                   cleanedCells)
              originalCells).
    split.
    + apply in_map_iff. exists (assignedFOV row). split; [reflexivity |].
      apply Hkeys. exists row. auto.
    + apply filter_In. split; [exact Hx |].
      apply existsb_exists. exists row. split; [exact Hrow |].
      rewrite Ho, Hid, !Z.eqb_refl, String.eqb_refl. reflexivity.
  - exists keys. split; [exact Hsorted |]. split; [exact Hkeys |].
    apply length_map.
Qed.

Lemma refinement_writes_cells_of_the_fragment_witness :
  exists calls,
    _run_analysis record_write
      (Some [mk_row "a" 0 0; mk_row "d" 1 1])
      [good_cell; boxless_cell; flat_cell] [] 0 = Some calls /\
    (forall features fov,
        In (features, fov) calls ->
        fov = 0%Z /\
        forall x, In x features ->
          In x [good_cell; boxless_cell; flat_cell] /\
          exists row, In row [mk_row "a" 0 0; mk_row "d" 1 1] /\
                      originalFOV row = 0%Z /\
                      cell_id row = get_feature_id x).
Proof.
  eexists. split; [reflexivity |].
  apply (@refinement_writes_cells_of_the_fragment
           [mk_row "a" 0 0; mk_row "d" 1 1]
           [good_cell; boxless_cell; flat_cell] 0%Z _ eq_refl).
Defined.

(** ** CleanCellBoundaries, then RefineCellDatabases *)

Section CleanThenRefine.

Variables SpatialIndex IdToNum Graph Box : Type.
Variable rtree_Index : SpatialIndex.
Variable empty_dict : IdToNum.
Variable nx_Graph : Graph.
Variable geometry_box : npfloat -> npfloat -> npfloat -> npfloat -> Box.
Variable construct_tree :
  list SpatialFeature -> SpatialIndex -> Z -> IdToNum -> SpatialIndex * Z * IdToNum.
Variable construct_graph :
  Graph -> list SpatialFeature -> SpatialIndex -> Z -> list Z -> list Box -> Graph.
Variable remove_overlapping_cells : Graph -> list CleanedRow.


End CleanThenRefine.


End SegmentProps.

